(** * The skills manager: [init], [sync] and [check] over git submodules

    A shallow embedding of the maintenance script of the repository (the
    TypeScript program that follows the prose of [README.md]) together with
    the static registry of [meta.ts].

    The script is glue over three collaborators: a version-control command
    line ([execSync]), the file system ([node:fs]) and a terminal prompt
    library.  The file system is modelled as a finite map from paths to
    entries, the other two as parameters of the development; every function
    of the script is a computation in a small monad that threads the state of
    the machine, may throw, and records what the run did in a trace.  The
    dispatcher [main], which prints around the three operations, comes last,
    with the events of the terminal and the ways to end that it adds. *)

From Stdlib Require Import String Ascii ZArith Lia Decimal DecimalNat DecimalString.
From Stdlib Require DecimalN.
From stdpp Require Import base option list strings gmap.

Local Open Scope string_scope.
Local Open Scope list_scope.

(** ** Strings and numbers as JavaScript uses them here *)

Module Js.

(** [content.includes(needle)]: some suffix of [content] starts with
    [needle]. *)
Fixpoint includes (content needle : string) : bool :=
  if String.prefix needle content then true
  else match content with
       | EmptyString => false
       | String _ rest => includes rest needle
       end.

Definition is_space (c : ascii) : bool :=
  match nat_of_ascii c with
  | 9 | 10 | 11 | 12 | 13 | 32 => true
  | _ => false
  end.

Fixpoint trimStart (s : string) : string :=
  match s with
  | EmptyString => EmptyString
  | String c rest => if is_space c then trimStart rest else s
  end.

Fixpoint trimEnd (s : string) : string :=
  match s with
  | EmptyString => EmptyString
  | String c rest =>
      match trimEnd rest with
      | EmptyString => if is_space c then EmptyString else String c EmptyString
      | rest' => String c rest'
      end
  end.

(** [s.trim()] *)
Definition trim (s : string) : string := trimEnd (trimStart s).

(** [s.split(sep)[0]] for a one-character separator. *)
Fixpoint split_head (sep : ascii) (s : string) : string :=
  match s with
  | EmptyString => EmptyString
  | String c rest => if Ascii.eqb c sep then EmptyString else String c (split_head sep rest)
  end.

(** [String(v)] for [v : string | null], as a template literal and
    [parseInt] apply it: [null] prints as the word null. *)
Definition to_string (v : option string) : string :=
  match v with
  | Some s => s
  | None => "null"
  end.

(** Truthiness of [string | null]: null and the empty string are falsy. *)
Definition truthy (v : option string) : bool :=
  match v with
  | Some EmptyString | None => false
  | Some _ => true
  end.

Definition digit_of (c : ascii) : option Z :=
  let n := Z.of_nat (nat_of_ascii c) in
  if (48 <=? n)%Z && (n <=? 57)%Z then Some (n - 48)%Z else None.

Definition hex_digit_of (c : ascii) : option Z :=
  let n := Z.of_nat (nat_of_ascii c) in
  if (48 <=? n)%Z && (n <=? 57)%Z then Some (n - 48)%Z
  else if (97 <=? n)%Z && (n <=? 102)%Z then Some (n - 87)%Z
  else if (65 <=? n)%Z && (n <=? 70)%Z then Some (n - 55)%Z
  else None.

(** The longest prefix of digits, read in the given radix; [None] when
    there is no digit at all. *)
Fixpoint digits (digit : ascii -> option Z) (radix : Z) (acc : option Z) (s : string) : option Z :=
  match s with
  | EmptyString => acc
  | String c rest =>
      match digit c with
      | Some d => digits digit radix (Some (default 0 acc * radix + d)%Z) rest
      | None => acc
      end
  end.

Definition unsigned (s : string) : option Z :=
  match s with
  | String "0" (String "x" rest) | String "0" (String "X" rest) =>
      digits hex_digit_of 16 None rest
  | _ => digits digit_of 10 None s
  end.

(** A value of type [number] that reading an integer can give: a double
    whose value is an integer, an infinity, or [NaN].  The two zeros are one
    value here: they compare and print alike. *)
Inductive number :=
| NaN
| Finite (z : Z)
| Infinity (negative : bool).

(** [Number.MAX_SAFE_INTEGER]: up to here every integer is a double. *)
Definition MAX_SAFE_INTEGER : Z := 2 ^ 53 - 1.

(** The double of an integer: the nearest value with 53 significant bits,
    the even one of two that are equally near, and an infinity from
    [2 ^ 1024 - 2 ^ 970] on. *)
Definition round (z : Z) : number :=
  let a := Z.abs z in
  if (a <=? MAX_SAFE_INTEGER)%Z then Finite z
  else
    let e := (Z.log2 a - 52)%Z in
    let q := Z.shiftr a e in
    let r := (a - Z.shiftl q e)%Z in
    let half := Z.shiftl 1 (e - 1) in
    let q' := if (half <? r)%Z || ((r =? half)%Z && Z.odd q) then (q + 1)%Z else q in
    let v := Z.shiftl q' e in
    if (2 ^ 1024 <=? v)%Z then Infinity (z <? 0)%Z
    else Finite (Z.sgn z * v).

Definition number_of (negative : bool) (value : option Z) : number :=
  match value with
  | Some z => round (if negative then - z else z)
  | None => NaN
  end.

(** [Number.parseInt(s)]: after the white space a sign may come, then the
    digits, in radix 16 behind [0x] and in radix 10 otherwise, up to the
    first character that is none; the result is the double of the integer
    read, and [NaN] when there is no digit. *)
Definition parseInt (s : string) : number :=
  match trimStart s with
  | String "-" rest => number_of true (unsigned rest)
  | String "+" rest => number_of false (unsigned rest)
  | t => number_of false (unsigned t)
  end.

(** [n > 0], false on [NaN]. *)
Definition is_positive (n : number) : bool :=
  match n with
  | NaN => false
  | Finite z => (0 <? z)%Z
  | Infinity negative => negb negative
  end.

(** The decimal digits of a natural number. *)
Definition numeral (z : Z) : string := NilZero.string_of_uint (N.to_uint (Z.to_N z)).

(** The integer of the fewest significant digits whose double is [x], for a
    double [x > 0] of [d] digits.  With [k] digits and [d - k] zeros after
    them the candidates are the multiples of [10 ^ (d - k)], and the two
    around [x] decide, since what rounds to [x] lies around [x] without a
    gap.  Of the two the nearer is taken, and the one with the even last
    digit when they are equally near. *)
Fixpoint shortest (x d : Z) (ks : list Z) : Z :=
  match ks with
  | [] => x
  | k :: ks =>
      let p := (10 ^ (d - k))%Z in
      let below := (x / p * p)%Z in
      let above := (below + p)%Z in
      let fits (y : Z) := match round y with Finite v => (v =? x)%Z | _ => false end in
      match fits below, fits above with
      | true, true =>
          if (x - below <? above - x)%Z then below
          else if (above - x <? x - below)%Z then above
          else if Z.even (below / p) then below else above
      | true, false => below
      | false, true => above
      | false, false => shortest x d ks
      end
  end.

Fixpoint strip_zeros (fuel : nat) (z : Z) : Z :=
  match fuel with
  | O => z
  | S fuel => if (z mod 10 =? 0)%Z then strip_zeros fuel (z / 10) else z
  end.

(** [Number::toString(x)] for [x > 0]: the shortest numeral that reads back
    as [x], written out in full below [10 ^ 21] and with an exponent from
    there on. *)
Definition show_positive (x : Z) : string :=
  let d := Z.of_nat (String.length (numeral x)) in
  let y := shortest x d (map Z.of_nat (seq 1 (Z.to_nat d))) in
  if (y <? 10 ^ 21)%Z then numeral y
  else
    let n := Z.of_nat (String.length (numeral y)) in
    match numeral (strip_zeros (Z.to_nat n) y) with
    | String c EmptyString => String c ("e+" +:+ numeral (n - 1))
    | String c rest => String c ("." +:+ rest +:+ "e+" +:+ numeral (n - 1))
    | EmptyString => EmptyString
    end.

(** A number in a template literal. *)
Definition show (n : number) : string :=
  match n with
  | NaN => "NaN"
  | Finite 0 => "0"
  | Finite (Z.pos _ as z) => show_positive z
  | Finite (Z.neg _ as z) => "-" +:+ show_positive (- z)
  | Infinity false => "Infinity"
  | Infinity true => "-Infinity"
  end.

End Js.

Example includes_inside : Js.includes "[submodule]  path = sources/vue" "path = sources/vue" = true.
Proof. reflexivity. Qed.

Example parseInt_count :
  Js.parseInt "12" = Js.Finite 12 /\ Js.parseInt "" = Js.NaN /\ Js.parseInt "0x1f" = Js.Finite 31.
Proof. repeat split; reflexivity. Qed.

(** Beyond [Number.MAX_SAFE_INTEGER] a number read is the double next to
    what was written, and it prints as that double does. *)
Example parseInt_rounds :
  Js.show (Js.parseInt "9007199254740991") = "9007199254740991" /\
  Js.show (Js.parseInt "9007199254740993") = "9007199254740992" /\
  Js.show (Js.parseInt "9223372036854775807") = "9223372036854776000" /\
  Js.show (Js.parseInt "1180591620717411303424") = "1.1805916207174113e+21" /\
  Js.show (Js.parseInt "-12 commits") = "-12" /\
  Js.show (Js.parseInt "none") = "NaN" /\
  Js.show (Js.round (2 ^ 1024)) = "Infinity".
Proof. repeat split; by vm_compute. Qed.

Example trim_output : Js.trim "  3
" = "3".
Proof. reflexivity. Qed.

(** *** What [includes] decides *)

Lemma prefix_append (t rest : string) : String.prefix t (t +:+ rest) = true.
Proof.
  induction t as [|c t IH]; [by destruct rest|].
  simpl. destruct (ascii_dec c c); [apply IH|done].
Qed.

Lemma prefix_split (t s : string) :
  String.prefix t s = true -> exists rest, s = t +:+ rest.
Proof.
  revert s. induction t as [|c t IH]; intros s H; [by exists s|].
  destruct s as [|d s]; [done|]. simpl in H.
  destruct (ascii_dec c d) as [->|]; [|done].
  destruct (IH s H) as [rest ->]. by exists rest.
Qed.

Lemma includes_prefix (content needle : string) :
  String.prefix needle content = true -> Js.includes content needle = true.
Proof. intros H. destruct content; cbn [Js.includes]; by rewrite H. Qed.

Lemma includes_append (before needle rest : string) :
  Js.includes (before +:+ needle +:+ rest) needle = true.
Proof.
  induction before as [|c before IH].
  - change ("" +:+ needle +:+ rest) with (needle +:+ rest).
    apply includes_prefix, prefix_append.
  - change (String c before +:+ needle +:+ rest) with (String c (before +:+ needle +:+ rest)).
    cbn [Js.includes]. rewrite IH. by destruct (String.prefix _ _).
Qed.

Lemma includes_split (content needle : string) :
  Js.includes content needle = true ->
  exists before rest, content = before +:+ needle +:+ rest.
Proof.
  induction content as [|c content IH]; cbn [Js.includes].
  - destruct (String.prefix needle "") eqn:E; [|done].
    intros _. apply prefix_split in E as [rest E]. by exists "", rest.
  - destruct (String.prefix needle (String c content)) eqn:E.
    + intros _. apply prefix_split in E as [rest E]. by exists "", rest.
    + intros H. destruct (IH H) as (before & rest & ->).
      by exists (String c before), rest.
Qed.

Lemma append_assoc (a b c : string) : (a +:+ b) +:+ c = a +:+ b +:+ c.
Proof.
  induction a as [|x a IH]; [done|].
  change (String x ((a +:+ b) +:+ c) = String x (a +:+ b +:+ c)). by rewrite IH.
Qed.

(** *** Counts as git prints them

    [git rev-list --count] prints a natural number in decimal and ends the
    line; [exec] trims the line and [parseInt] reads the number back. *)

Definition decimal (n : nat) : string := NilZero.string_of_uint (Nat.to_uint n).

Definition newline : string := String (ascii_of_nat 10) EmptyString.

Lemma digits_uint (d : uint) (acc : nat) :
  Js.digits Js.digit_of 10 (Some (Z.of_nat acc)) (NilEmpty.string_of_uint d)
  = Some (Z.of_nat (Nat.of_uint_acc d acc)).
Proof.
  revert acc. induction d; intros acc; cbn [NilEmpty.string_of_uint Js.digits Nat.of_uint_acc];
    [done|..];
    (match goal with
     | |- context [Js.digit_of ?c] =>
         let v := eval vm_compute in (Js.digit_of c) in
         change (Js.digit_of c) with v
     end);
    cbn [default]; rewrite <- IHd; do 2 f_equal; rewrite Nat.tail_mul_spec; unfold id; lia.
Qed.

Lemma digits_start (d : uint) :
  d <> Nil ->
  Js.digits Js.digit_of 10 None (NilEmpty.string_of_uint d)
  = Js.digits Js.digit_of 10 (Some 0%Z) (NilEmpty.string_of_uint d).
Proof. destruct d; done. Qed.

Lemma unsigned_uint (d : uint) :
  d <> Nil ->
  Js.unsigned (NilEmpty.string_of_uint d)
  = Js.digits Js.digit_of 10 None (NilEmpty.string_of_uint d).
Proof. destruct d as [|d|d|d|d|d|d|d|d|d|d]; try done; by destruct d. Qed.

Lemma parseInt_uint (d : uint) :
  d <> Nil ->
  Js.parseInt (NilEmpty.string_of_uint d)
  = Js.number_of false (Js.unsigned (NilEmpty.string_of_uint d)).
Proof. destruct d; done. Qed.

(** What [parseInt] reads from the numeral of [n] is the double of [n]. *)
Lemma parseInt_decimal (n : nat) : Js.parseInt (decimal n) = Js.round (Z.of_nat n).
Proof.
  unfold decimal, NilZero.string_of_uint.
  pose proof (Unsigned.of_to n) as Hn. unfold Nat.of_uint in Hn.
  destruct (Nat.to_uint n) as [|d|d|d|d|d|d|d|d|d|d] eqn:E;
    [by rewrite <- Hn|..];
    rewrite parseInt_uint, unsigned_uint, digits_start by done;
    change 0%Z with (Z.of_nat 0); by rewrite digits_uint, Hn.
Qed.

(** *** Numbers up to [Number.MAX_SAFE_INTEGER]

    Such an integer is its own double, no other integer has it as its
    double, and it prints as its decimal numeral. *)

Lemma round_safe (z : Z) :
  (Z.abs z <= Js.MAX_SAFE_INTEGER)%Z -> Js.round z = Js.Finite z.
Proof. intros H. unfold Js.round. by apply Z.leb_le in H as ->. Qed.

Lemma round_positive (z : Z) : (0 < z)%Z -> Js.is_positive (Js.round z) = true.
Proof.
  intros Hz. unfold Js.round. rewrite (Z.abs_eq z) by lia.
  destruct (z <=? Js.MAX_SAFE_INTEGER)%Z eqn:Hsafe; [by apply Z.ltb_lt|].
  apply Z.leb_gt in Hsafe. unfold Js.MAX_SAFE_INTEGER in Hsafe.
  cbv zeta. set (e := (Z.log2 z - 52)%Z).
  assert (53 <= Z.log2 z)%Z as Hlog by (apply Z.log2_le_pow2; lia).
  match goal with |- context [Z.shiftl ?q' e] => set (q := q') end.
  assert (0 < Z.shiftl q e)%Z as Hv.
  { rewrite Z.shiftl_mul_pow2 by lia.
    assert (0 < Z.shiftr z e)%Z.
    { rewrite Z.shiftr_div_pow2 by lia. apply Z.div_str_pos. split; [apply Z.pow_pos_nonneg; lia|].
      transitivity (2 ^ Z.log2 z)%Z; [apply Z.pow_le_mono_r; lia|apply Z.log2_spec; lia]. }
    apply Z.mul_pos_pos; [|apply Z.pow_pos_nonneg; lia].
    subst q. destruct (_ || _); lia. }
  destruct (2 ^ 1024 <=? Z.shiftl q e)%Z.
  - cbn [Js.is_positive]. destruct (z <? 0)%Z eqn:E; [apply Z.ltb_lt in E; lia|done].
  - cbn [Js.is_positive]. apply Z.ltb_lt. rewrite Z.sgn_pos by lia. lia.
Qed.

Lemma trimEnd_uint (d : uint) :
  Js.trimEnd (NilEmpty.string_of_uint d +:+ newline) = NilEmpty.string_of_uint d.
Proof.
  induction d; [done|..];
    cbn [NilEmpty.string_of_uint];
    (match goal with
     | |- Js.trimEnd (String ?c ?s +:+ newline) = _ =>
         change (String c s +:+ newline) with (String c (s +:+ newline))
     end);
    cbn [Js.trimEnd]; rewrite IHd; by destruct (NilEmpty.string_of_uint d).
Qed.

Lemma trim_decimal (n : nat) : Js.trim (decimal n +:+ newline) = decimal n.
Proof.
  unfold decimal, NilZero.string_of_uint, Js.trim.
  destruct (Nat.to_uint n) as [|d|d|d|d|d|d|d|d|d|d] eqn:E; [done|..];
    rewrite <- (trimEnd_uint (_ d)) at 2; by f_equal.
Qed.

Lemma decimal_truthy (n : nat) : Js.truthy (Some (decimal n)) = true.
Proof.
  unfold decimal, NilZero.string_of_uint. by destruct (Nat.to_uint n).
Qed.

(** ** Paths and the file system

    A path is the list of its components below the repository root, so
    [join] is concatenation and [dirname] drops the last component.  Every
    name of the registry stands for one component, as all keys and values of
    [meta.ts] are. *)

Abbreviation fpath := (list string).

Definition root : fpath := [].
Definition join (base : fpath) (parts : list string) : fpath := base ++ parts.
Definition dirname (p : fpath) : fpath := removelast p.

(** The path as the script prints it, for instance [sources/vue]. *)
Definition show_path (p : fpath) : string := String.concat "/" p.

(** [s.replace(pattern, '')] on paths: the first occurrence of [pattern] is
    cut out of [s]. *)
Fixpoint replace_first (s pattern : fpath) : fpath :=
  if bool_decide (pattern `prefix_of` s) then drop (length pattern) s
  else match s with
       | [] => []
       | c :: rest => c :: replace_first rest pattern
       end.

Inductive entry :=
| File (content : string)
| Dir.

Global Instance entry_eq_dec : EqDecision entry.
Proof. solve_decision. Defined.

Abbreviation FS := (gmap fpath entry).

(** What [readdirSync] returns for one entry. *)
Record Dirent := { dname : string; parentPath : fpath; isFile : bool }.

Module Fs.
Section Ops.

(** The paths at which a call that changes the file system fails
    (permissions, a read-only mount, a full disk). *)
Variable faulty : fpath -> bool.

(** The repository root itself always exists. *)
Definition stat (fs : FS) (p : fpath) : option entry :=
  match p with
  | [] => Some Dir
  | _ => fs !! p
  end.

Definition exists_ (fs : FS) (p : fpath) : bool := bool_decide (is_Some (stat fs p)).

Definition read (fs : FS) (p : fpath) : option string :=
  match stat fs p with
  | Some (File c) => Some c
  | _ => None
  end.

(** [mkdirSync(p, { recursive: true })]: the missing directories on the
    way to [p] are created; a file on the way makes the call fail. *)
Fixpoint mkdir_from (base : fpath) (rest : list string) (fs : FS) : option FS :=
  match rest with
  | [] => Some fs
  | seg :: rest' =>
      let d := base ++ [seg] in
      match fs !! d with
      | Some Dir => mkdir_from d rest' fs
      | Some (File _) => None
      | None => if faulty d then None else mkdir_from d rest' (<[d := Dir]> fs)
      end
  end.

Definition mkdir_p (p : fpath) (fs : FS) : option FS := mkdir_from [] p fs.

(** [rmSync(p, { recursive: true })]: [p] and everything below it go. *)
Definition rm_rf (p : fpath) (fs : FS) : option FS :=
  match stat fs p with
  | None => None
  | Some _ =>
      if faulty p then None
      else Some (filter (fun kv => ¬ p `prefix_of` kv.1) fs)
  end.

Definition dirent_of (k : fpath) (e : entry) : Dirent :=
  {| dname := List.last k ""; parentPath := removelast k;
     isFile := match e with File _ => true | Dir => false end |}.

(** [readdirSync(p, { recursive: true, withFileTypes: true })]: one entry
    for everything strictly below the directory [p], in the order of the
    map; no result below depends on the order. *)
Definition readdir (p : fpath) (fs : FS) : option (list Dirent) :=
  match stat fs p with
  | Some Dir =>
      Some (omap (fun kv => if bool_decide (p `prefix_of` kv.1 ∧ kv.1 ≠ p)
                            then Some (dirent_of kv.1 kv.2) else None)
                 (map_to_list fs))
  | _ => None
  end.

(** Creating or replacing the file [p] needs its directory to exist, and
    [p] not to be a directory. *)
Definition put (p : fpath) (c : string) (fs : FS) : option FS :=
  match stat fs p, stat fs (dirname p) with
  | Some Dir, _ => None
  | _, Some Dir => if faulty p then None else Some (<[p := File c]> fs)
  | _, _ => None
  end.

(** [cpSync(src, dst)] of one file. *)
Definition cp (src dst : fpath) (fs : FS) : option FS :=
  match stat fs src with
  | Some (File c) => put dst c fs
  | _ => None
  end.

End Ops.
End Fs.

(** *** Prefixes of paths *)

Lemma prefix_removelast (q r : fpath) :
  r <> [] -> q `prefix_of` removelast r <-> q `prefix_of` r /\ q <> r.
Proof.
  intros Hr. destruct (exists_last Hr) as (l & x & ->).
  rewrite removelast_last. split.
  - intros Hq. split; [by apply prefix_app_r|].
    intros ->. by apply prefix_snoc_not in Hq.
  - intros [[k Hk] Hne]. destruct (decide (k = [])) as [->|Hk'].
    { rewrite app_nil_r in Hk. done. }
    rewrite (app_removelast_last "" Hk'), app_assoc in Hk.
    apply app_inj_tail in Hk as [-> _]. by eexists.
Qed.

Lemma prefix_under (p q r : fpath) : p ++ q `prefix_of` p ++ r <-> q `prefix_of` r.
Proof. split; [apply prefix_app_inv|apply prefix_app]. Qed.

Lemma app_ne_self (p r : fpath) : r <> [] -> p ++ r <> p.
Proof.
  intros Hr Heq. apply Hr, (app_inv_head p). by rewrite app_nil_r.
Qed.

(** *** What the file-system calls do *)

Section FsFacts.

Variable faulty : fpath -> bool.

(** The directories [mkdir_from base rest] is about: the paths from [base],
    excluded, down to [base ++ rest]. *)
Definition between (base rest k : fpath) : Prop :=
  exists r1 r2, r1 <> [] /\ rest = r1 ++ r2 /\ k = base ++ r1.

Lemma between_cons base seg rest k :
  between base (seg :: rest) k <-> k = base ++ [seg] \/ between (base ++ [seg]) rest k.
Proof.
  split.
  - intros (r1 & r2 & Hne & Hrest & ->). destruct r1 as [|x r1]; [done|].
    injection Hrest as <- ->. destruct r1 as [|y r1]; [by left|].
    right. exists (y :: r1), r2. by rewrite <- app_assoc.
  - intros [->|(r1 & r2 & Hne & -> & ->)].
    + by exists [seg], rest.
    + exists (seg :: r1), r2. by rewrite <- app_assoc.
Qed.

Lemma between_longer base rest k : between base rest k -> k <> base.
Proof.
  intros (r1 & r2 & Hne & _ & ->) Heq. apply Hne.
  apply (app_inv_head base). by rewrite app_nil_r.
Qed.

Lemma between_root p k : between [] p k <-> k <> [] /\ k `prefix_of` p.
Proof.
  split.
  - intros (r1 & r2 & Hne & -> & ->). split; [done|]. by exists r2.
  - intros [Hne [r2 ->]]. by exists k, r2.
Qed.

Lemma mkdir_from_spec rest base fs fs' :
  Fs.mkdir_from faulty base rest fs = Some fs' ->
  forall k,
    (between base rest k -> fs' !! k = Some Dir /\ (fs !! k = None \/ fs !! k = Some Dir)) /\
    (~ between base rest k -> fs' !! k = fs !! k).
Proof.
  revert base fs. induction rest as [|seg rest IH]; intros base fs Hm k.
  { injection Hm as <-. split; [|done]. intros (r1 & r2 & Hne & Hr & _). by destruct r1. }
  cbn [Fs.mkdir_from] in Hm. rewrite between_cons.
  destruct (fs !! (base ++ [seg])) as [[c|]|] eqn:E; [done|..].
  - destruct (IH _ _ Hm k) as [IH1 IH2]. split.
    + intros [->|Hb]; [|by apply IH1].
      rewrite IH2, E; [by auto|]. intros Hb. by apply between_longer in Hb.
    + intros Hn. apply IH2. tauto.
  - destruct (faulty _); [done|].
    destruct (IH _ _ Hm k) as [IH1 IH2]. split.
    + intros [->|Hb].
      * rewrite IH2, lookup_insert_eq; [by auto|].
        intros Hb. by apply between_longer in Hb.
      * destruct (IH1 Hb) as [? Hold]. split; [done|].
        rewrite lookup_insert_ne in Hold; [done|].
        intros <-. by apply between_longer in Hb.
    + intros Hn. rewrite IH2 by tauto. apply lookup_insert_ne.
      intros <-. apply Hn. by left.
Qed.

Lemma mkdir_p_spec p fs fs' :
  Fs.mkdir_p faulty p fs = Some fs' ->
  forall k,
    (k <> [] -> k `prefix_of` p ->
     fs' !! k = Some Dir /\ (fs !! k = None \/ fs !! k = Some Dir)) /\
    (k = [] \/ ~ k `prefix_of` p -> fs' !! k = fs !! k).
Proof.
  intros Hm k. destruct (mkdir_from_spec _ _ _ _ Hm k) as [H1 H2]. split.
  - intros Hne Hp. apply H1, between_root. done.
  - intros Hn. apply H2. rewrite between_root. tauto.
Qed.

(** Nothing that existed is changed by [mkdir_p]. *)
Lemma mkdir_p_keeps p fs fs' k e :
  Fs.mkdir_p faulty p fs = Some fs' -> fs !! k = Some e -> fs' !! k = Some e.
Proof.
  intros Hm Hk. destruct (mkdir_p_spec _ _ _ Hm k) as [H1 H2].
  destruct (decide (k `prefix_of` p)) as [Hp|Hp]; [|by rewrite H2; auto].
  destruct (decide (k = [])) as [->|Hne]; [by rewrite H2; auto|].
  destruct (H1 Hne Hp) as [Hd [Hold|Hold]]; congruence.
Qed.

Lemma rm_rf_spec p fs fs' :
  Fs.rm_rf faulty p fs = Some fs' ->
  forall k, fs' !! k = if decide (p `prefix_of` k) then None else fs !! k.
Proof.
  unfold Fs.rm_rf. destruct (Fs.stat fs p); [|done].
  destruct (faulty p); [done|]. intros [= <-] k.
  rewrite map_lookup_filter. cbn [fst].
  destruct (fs !! k) as [x|]; cbn; [|by destruct (decide _)].
  destruct (decide (p `prefix_of` k)).
  - by rewrite option_guard_False by tauto.
  - by rewrite option_guard_True.
Qed.

Lemma put_spec p c fs fs' :
  Fs.put faulty p c fs = Some fs' ->
  fs' = <[p := File c]> fs /\ Fs.stat fs p <> Some Dir /\ Fs.stat fs (dirname p) = Some Dir.
Proof.
  unfold Fs.put.
  destruct (Fs.stat fs p) as [[c'|]|]; [|done|];
    (destruct (Fs.stat fs (dirname p)) as [[c''|]|]; [done| |done]);
    (destruct (faulty p); [done|]); by intros [= <-].
Qed.

Lemma cp_spec src dst fs fs' :
  Fs.cp faulty src dst fs = Some fs' ->
  exists c, Fs.stat fs src = Some (File c) /\ fs' = <[dst := File c]> fs /\
            Fs.stat fs dst <> Some Dir /\ Fs.stat fs (dirname dst) = Some Dir.
Proof.
  unfold Fs.cp. destruct (Fs.stat fs src) as [[c|]|]; [|done..].
  intros Hp. exists c. split; [done|]. by apply put_spec.
Qed.

End FsFacts.

Lemma readdir_spec p fs files :
  Fs.readdir p fs = Some files ->
  Fs.stat fs p = Some Dir /\
  forall d, d ∈ files <->
            exists k e, fs !! k = Some e /\ p `prefix_of` k /\ k <> p /\ d = Fs.dirent_of k e.
Proof.
  unfold Fs.readdir. destruct (Fs.stat fs p) as [[c|]|]; [done| |done].
  intros [= <-]. split; [done|]. intros d. rewrite list_elem_of_omap. split.
  - intros ([k e] & Hin & Hd). apply elem_of_map_to_list in Hin.
    cbn [fst snd] in Hd. case_bool_decide as Hk; [|done].
    injection Hd as <-. exists k, e. tauto.
  - intros (k & e & Hk & Hp & Hne & ->). exists (k, e). split.
    + by apply elem_of_map_to_list.
    + cbn [fst snd]. by rewrite bool_decide_eq_true_2.
Qed.

(** The entry that [readdirSync] gives for [p ++ r] leads [copyFile] back
    to [r]. *)
Lemma replace_first_prefix (p r : fpath) : replace_first (p ++ r) p = r.
Proof.
  destruct (p ++ r) as [|c rest] eqn:E; cbn [replace_first];
    rewrite bool_decide_eq_true_2 by (rewrite <- E; by exists r);
    rewrite <- E; by rewrite drop_app_length.
Qed.

Lemma dirent_full_path (k : fpath) (e : entry) :
  k <> [] -> join (parentPath (Fs.dirent_of k e)) [dname (Fs.dirent_of k e)] = k.
Proof. intros Hk. unfold join. cbn. symmetry. by apply app_removelast_last. Qed.

(** ** The registry ([meta.ts]) and the data of the script *)

Record VendorSkillMeta := {
  official : option bool;
  source : string;
  skills : list (string * string)   (* sourceSkillName -> outputSkillName *)
}.

(** The script reads a vendor's entry through its own interface
    [VendorConfig], a cast that keeps [source] and [skills]. *)
Abbreviation VendorConfig := VendorSkillMeta.

Inductive ProjectType := Source | Vendor.

Definition show_type (t : ProjectType) : string :=
  match t with
  | Source => "source"
  | Vendor => "vendor"
  end.

Record Project := { name : string; url : string; type : ProjectType; path : fpath }.

Record Update := { u_name : string; u_type : string; u_behind : Js.number }.

(** ** Outcomes, events and the monad of the script *)

Inductive outcome (A : Type) :=
| Ret (a : A)
| Throw (e : string).
Arguments Ret {A} a.
Arguments Throw {A} e.

Inductive event :=
| EExec (cmd : string) (cwd : fpath)
| EMkdir (p : fpath)
| ERm (p : fpath)
| ECp (src dst : fpath)
| EWriteFile (p : fpath) (data : string)
| EMultiselect (options : list Project)
| ESpinnerStart (msg : string)
| ESpinnerStop (msg : string)
| ELogInfo (msg : string)
| ELogWarn (msg : string)
| ELogSuccess (msg : string)
| ELogMessage (msg : string)
| ECancel (msg : string).

(** The events that change something outside the terminal. *)
Definition is_effect (ev : event) : bool :=
  match ev with
  | EExec _ _ | EMkdir _ | ERm _ | ECp _ _ | EWriteFile _ _ => true
  | _ => false
  end.

Section Script.

(** What the commands see besides the work tree: the repository database,
    the remotes, the clock. *)
Variable Env : Type.

(** [execSync(cmd, { cwd })]: the captured output or the error of a
    failed command, and what the command left behind. *)
Variable execSync : string -> fpath -> FS -> Env -> outcome string * FS * Env.

(** [new Date().toISOString()] *)
Variable clock : Env -> string.

(** The operator at [p.multiselect]: [None] is a cancellation. *)
Variable multiselect : list Project -> option (list Project).

Variable faulty : fpath -> bool.

Variable submodules : list (string * string).
Variable vendors : list (string * VendorSkillMeta).

Record State := { st_fs : FS; st_env : Env }.

Definition M (A : Type) : Type := State -> outcome A * State * list event.

Definition M_ret {A} (a : A) : M A := fun st => (Ret a, st, []).

Definition M_bind {A B} (m : M A) (f : A -> M B) : M B := fun st =>
  match m st with
  | (Ret a, st1, t1) => let '(r, st2, t2) := f a st1 in (r, st2, t1 ++ t2)
  | (Throw e, st1, t1) => (Throw e, st1, t1)
  end.

Notation "x ← y ; z" := (M_bind y (fun x => z))
  (at level 20, y at level 100, z at level 200, only parsing).
Notation "x ;; z" := (M_bind x (fun _ => z))
  (at level 100, z at level 200, only parsing, right associativity).

(** [try { m } catch (e) { handler }] *)
Definition try_catch {A} (m : M A) (handler : string -> M A) : M A := fun st =>
  match m st with
  | (Throw e, st1, t1) => let '(r, st2, t2) := handler e st1 in (r, st2, t1 ++ t2)
  | done => done
  end.

Definition emit (ev : event) : M unit := fun st => (Ret tt, st, [ev]).

(** [for (const x of xs) body], where [continue] is the end of [body]. *)
Fixpoint for_of {A} (xs : list A) (body : A -> M unit) : M unit :=
  match xs with
  | [] => M_ret tt
  | x :: rest => body x;; for_of rest body
  end.

(** A loop that grows a local array. *)
Fixpoint fold_of {A B} (xs : list A) (acc : B) (body : B -> A -> M B) : M B :=
  match xs with
  | [] => M_ret acc
  | x :: rest => acc' ← body acc x; fold_of rest acc' body
  end.

(** [xs.filter(x => test(x))] with a test that reads the file system. *)
Fixpoint filter_of {A} (xs : list A) (test : A -> M bool) : M (list A) :=
  match xs with
  | [] => M_ret []
  | x :: rest =>
      keep ← test x;
      kept ← filter_of rest test;
      M_ret (if keep then x :: kept else kept)
  end.

(** *** [node:fs] *)

Definition change (ev : event) (op : FS -> option FS) (error : string) : M unit := fun st =>
  match op (st_fs st) with
  | Some fs' => (Ret tt, {| st_fs := fs'; st_env := st_env st |}, [ev])
  | None => (Throw error, st, [ev])
  end.

Definition existsSync (p : fpath) : M bool := fun st =>
  (Ret (Fs.exists_ (st_fs st) p), st, []).

Definition readFileSync (p : fpath) : M string := fun st =>
  match Fs.read (st_fs st) p with
  | Some c => (Ret c, st, [])
  | None => (Throw "Error: readFileSync", st, [])
  end.

Definition readdirSync (p : fpath) : M (list Dirent) := fun st =>
  match Fs.readdir p (st_fs st) with
  | Some files => (Ret files, st, [])
  | None => (Throw "Error: readdirSync", st, [])
  end.

Definition mkdirSync (p : fpath) : M unit :=
  change (EMkdir p) (Fs.mkdir_p faulty p) "Error: mkdirSync".
Definition rmSync (p : fpath) : M unit :=
  change (ERm p) (Fs.rm_rf faulty p) "Error: rmSync".
Definition cpSync (src dst : fpath) : M unit :=
  change (ECp src dst) (Fs.cp faulty src dst) "Error: cpSync".
Definition writeFileSync (p : fpath) (data : string) : M unit :=
  change (EWriteFile p data) (Fs.put faulty p data) "Error: writeFileSync".

Definition now_iso : M string := fun st => (Ret (clock (st_env st)), st, []).

(** *** The command executor *)

Definition exec (cmd : string) (cwd : fpath) : M string := fun st =>
  let '(r, fs', env') := execSync cmd cwd (st_fs st) (st_env st) in
  (match r with
   | Ret out => Ret (Js.trim out)
   | Throw e => Throw e
   end,
   {| st_fs := fs'; st_env := env' |}, [EExec cmd cwd]).

Definition execSafe (cmd : string) (cwd : fpath) : M (option string) :=
  try_catch (out ← exec cmd cwd; M_ret (Some out)) (fun _ => M_ret None).

Definition getGitSha (dir : fpath) : M (option string) :=
  execSafe "git rev-parse HEAD" dir.

Definition submoduleExists (path : fpath) : M bool :=
  let gitmodules := join root [".gitmodules"] in
  found ← existsSync gitmodules;
  if negb found then M_ret false
  else
    content ← readFileSync gitmodules;
    M_ret (Js.includes content ("path = " +:+ show_path path)).

(** *** [init] *)

Definition allProjects : list Project :=
  map (fun '(name, url) =>
         {| name := name; url := url; type := Source; path := ["sources"; name] |})
      submodules
  ++ map (fun '(name, config) =>
            {| name := name; url := source config; type := Vendor; path := ["vendor"; name] |})
         vendors.

(** The label of a project among the options of the prompt. *)
Definition option_label (project : Project) : string :=
  name project +:+ " (" +:+ show_type (type project) +:+ ")".

Definition add_command (project : Project) : string :=
  "git submodule add " +:+ url project +:+ " " +:+ show_path (path project).

(** The body of the loop over the selected projects. *)
Definition addSubmodule (project : Project) : M unit :=
  emit (ESpinnerStart ("Adding submodule: " +:+ name project));;
  (* Ensure parent directory exists *)
  let parentDir := join root (dirname (path project)) in
  found ← existsSync parentDir;
  (if negb found then mkdirSync parentDir else M_ret tt);;
  try_catch
    (exec (add_command project) root;;
     emit (ESpinnerStop ("Added: " +:+ name project)))
    (fun e => emit (ESpinnerStop ("Failed to add " +:+ name project +:+ ": " +:+ e))).

Definition initSubmodules : M unit :=
  existingProjects ← filter_of allProjects (fun p => submoduleExists (path p));
  newProjects ← filter_of allProjects (fun p => found ← submoduleExists (path p); M_ret (negb found));
  if Nat.eqb (length newProjects) 0 then
    emit (ELogInfo "All submodules already initialized")
  else
    emit (EMultiselect newProjects);;
    match multiselect newProjects with
    | None => emit (ECancel "Cancelled")
    | Some selected =>
        for_of selected addSubmodule;;
        emit (ELogSuccess "Submodules initialized");;
        if Nat.ltb 0 (length existingProjects) then
          emit (ELogInfo ("Already initialized: " +:+ String.concat ", " (map name existingProjects)))
        else M_ret tt
    end.

(** *** [sync] *)

Definition licenseNames : list string :=
  ["LICENSE"; "LICENSE.md"; "LICENSE.txt"; "license"; "license.md"; "license.txt"].

(** The body of the loop over the entries of the source skill. *)
Definition copyFile (sourceSkillPath outputPath : fpath) (file : Dirent) : M unit :=
  if isFile file then
    let fullPath := join (parentPath file) [dname file] in
    let relativePath := replace_first fullPath sourceSkillPath in
    let destPath := join outputPath relativePath in
    (* Ensure destination directory exists *)
    let destDir := dirname destPath in
    found ← existsSync destDir;
    (if negb found then mkdirSync destDir else M_ret tt);;
    cpSync fullPath destPath
  else M_ret tt.

(** The loop over the license names, left at the first one found. *)
Fixpoint copyLicense (vendorPath outputPath : fpath) (names : list string) : M unit :=
  match names with
  | [] => M_ret tt
  | licenseName :: rest =>
      let licensePath := join vendorPath [licenseName] in
      found ← existsSync licensePath;
      if found then cpSync licensePath (join outputPath ["LICENSE.md"])
      else copyLicense vendorPath outputPath rest
  end.

Definition syncContent (vendorName sourceSkillName : string) (sha : option string) (date : string) : string :=
  "# Sync Info" +:+ newline +:+
  newline +:+
  "- **Source:** `vendor/" +:+ vendorName +:+ "/skills/" +:+ sourceSkillName +:+ "`" +:+ newline +:+
  "- **Git SHA:** `" +:+ Js.to_string sha +:+ "`" +:+ newline +:+
  "- **Synced:** " +:+ date +:+ newline.

(** The body of the loop over the skills of one vendor. *)
Definition syncSkill (vendorName : string) (vendorPath vendorSkillsPath : fpath)
    (skill : string * string) : M unit :=
  let '(sourceSkillName, outputSkillName) := skill in
  let sourceSkillPath := join vendorSkillsPath [sourceSkillName] in
  let outputPath := join root ["skills"; outputSkillName] in
  found ← existsSync sourceSkillPath;
  if negb found then
    emit (ELogWarn ("Skill not found: vendor/" +:+ vendorName +:+ "/skills/" +:+ sourceSkillName))
  else
    emit (ESpinnerStart ("Syncing skill: " +:+ sourceSkillName +:+ " → " +:+ outputSkillName));;
    (* Remove existing output directory to ensure clean sync *)
    present ← existsSync outputPath;
    (if present then rmSync outputPath else M_ret tt);;
    mkdirSync outputPath;;
    (* Copy all files from source skill to output *)
    files ← readdirSync sourceSkillPath;
    for_of files (copyFile sourceSkillPath outputPath);;
    (* Copy LICENSE file from vendor repo root if it exists *)
    copyLicense vendorPath outputPath licenseNames;;
    (* Update SYNC.md *)
    sha ← getGitSha vendorPath;
    let syncPath := join outputPath ["SYNC.md"] in
    iso ← now_iso;
    let date := Js.split_head "T" iso in
    writeFileSync syncPath (syncContent vendorName sourceSkillName sha date);;
    emit (ESpinnerStop ("Synced: " +:+ sourceSkillName +:+ " → " +:+ outputSkillName)).

(** The body of the loop over the vendors. *)
Definition syncVendor (vendor : string * VendorSkillMeta) : M unit :=
  let '(vendorName, config) := vendor in
  let vendorConfig : VendorConfig := config in
  let vendorPath := join root ["vendor"; vendorName] in
  let vendorSkillsPath := join vendorPath ["skills"] in
  found ← existsSync vendorPath;
  if negb found then
    emit (ELogWarn ("Vendor submodule not found: " +:+ vendorName +:+ ". Run init first."))
  else
    found ← existsSync vendorSkillsPath;
    if negb found then
      emit (ELogWarn ("No skills directory in vendor/" +:+ vendorName +:+ "/skills/"))
    else
      (* Sync each specified skill *)
      for_of (skills vendorConfig) (syncSkill vendorName vendorPath vendorSkillsPath).

Definition update_command : string := "git submodule update --remote --merge".

Definition syncSubmodules : M unit :=
  (* Update all submodules *)
  emit (ESpinnerStart "Updating submodules...");;
  updated ← try_catch
    (exec update_command root;;
     emit (ESpinnerStop "Submodules updated");;
     M_ret true)
    (fun e =>
       emit (ESpinnerStop ("Failed to update submodules: " +:+ e));;
       M_ret false);
  if negb updated then M_ret tt
  else
    (* Sync Type 2 skills *)
    for_of vendors syncVendor;;
    emit (ELogSuccess "All skills synced").

(** *** [check] *)

Definition fetch_command : string := "git submodule foreach git fetch".
Definition behind_command : string := "git rev-list HEAD..@{u} --count".

(** [behind && Number.parseInt(behind) > 0] *)
Definition is_behind (behind : option string) : bool :=
  Js.truthy behind && Js.is_positive (Js.parseInt (Js.to_string behind)).

Definition source_update (name : string) (behind : option string) : Update :=
  {| u_name := name; u_type := "source"; u_behind := Js.parseInt (Js.to_string behind) |}.

Definition vendor_update (name : string) (vendorConfig : VendorConfig) (behind : option string) : Update :=
  let skillNames := String.concat ", " (map snd (skills vendorConfig)) in
  {| u_name := name +:+ " (" +:+ skillNames +:+ ")"; u_type := "vendor";
     u_behind := Js.parseInt (Js.to_string behind) |}.

(** The body of the loop over the sources; [updates] is the array the
    loops push to. *)
Definition checkSource (updates : list Update) (name : string) : M (list Update) :=
  let path := join root ["sources"; name] in
  found ← existsSync path;
  if negb found then M_ret updates
  else
    behind ← execSafe behind_command path;
    if is_behind behind then M_ret (updates ++ [source_update name behind])
    else M_ret updates.

(** The body of the loop over the vendors. *)
Definition checkVendor (updates : list Update) (vendor : string * VendorSkillMeta) : M (list Update) :=
  let '(name, config) := vendor in
  let vendorConfig : VendorConfig := config in
  let path := join root ["vendor"; name] in
  found ← existsSync path;
  if negb found then M_ret updates
  else
    behind ← execSafe behind_command path;
    if is_behind behind then M_ret (updates ++ [vendor_update name vendorConfig behind])
    else M_ret updates.

Definition report_line (update : Update) : string :=
  "  " +:+ u_name update +:+ " (" +:+ u_type update +:+ "): " +:+
  Js.show (u_behind update) +:+ " commits behind".

(** The two loops that fill [updates]. *)
Definition collectUpdates : M (list Update) :=
  updates ← fold_of (map fst submodules) [] checkSource;
  fold_of vendors updates checkVendor.

Definition checkUpdates : M unit :=
  emit (ESpinnerStart "Fetching remote changes...");;
  fetched ← try_catch
    (exec fetch_command root;;
     emit (ESpinnerStop "Fetched remote changes");;
     M_ret true)
    (fun e =>
       emit (ESpinnerStop ("Failed to fetch: " +:+ e));;
       M_ret false);
  if negb fetched then M_ret tt
  else
    updates ← collectUpdates;
    if Nat.eqb (length updates) 0 then
      emit (ELogSuccess "All submodules are up to date")
    else
      emit (ELogInfo "Updates available:");;
      for_of updates (fun update => emit (ELogMessage (report_line update))).

(** ** Runs *)

Definition result {A} (run : outcome A * State * list event) : outcome A := run.1.1.
Definition final {A} (run : outcome A * State * list event) : State := run.1.2.
Definition trace {A} (run : outcome A * State * list event) : list event := run.2.

(** The manifest of the submodules, as [submoduleExists] reads it. *)
Definition registered (fs : FS) (p : fpath) : bool :=
  match fs !! [".gitmodules"] with
  | Some (File content) => Js.includes content ("path = " +:+ show_path p)
  | _ => false
  end.

Lemma bind_run {A B} (m : M A) (f : A -> M B) st :
  M_bind m f st =
    match m st with
    | (Ret a, st1, t1) => (result (f a st1), final (f a st1), t1 ++ trace (f a st1))
    | (Throw e, st1, t1) => (Throw e, st1, t1)
    end.
Proof.
  unfold M_bind, result, final, trace.
  destruct (m st) as [[[a|e] st1] t1]; [|done].
  by destruct (f a st1) as [[r st2] t2].
Qed.

Lemma bind_quiet {A B} (m : M A) (f : A -> M B) st a :
  m st = (Ret a, st, []) -> M_bind m f st = f a st.
Proof.
  intros Hm. unfold M_bind. rewrite Hm.
  by destruct (f a st) as [[r st2] t2].
Qed.

Lemma existsSync_run p st : existsSync p st = (Ret (Fs.exists_ (st_fs st) p), st, []).
Proof. done. Qed.

Lemma exists_true fs p e : Fs.stat fs p = Some e -> Fs.exists_ fs p = true.
Proof. intros H. unfold Fs.exists_. rewrite H. apply bool_decide_eq_true_2. eauto. Qed.

Lemma exists_false fs p : Fs.stat fs p = None -> Fs.exists_ fs p = false.
Proof.
  intros H. unfold Fs.exists_. rewrite H. apply bool_decide_eq_false_2. by intros [? ?].
Qed.

Lemma readFileSync_run p st :
  readFileSync p st =
    match Fs.stat (st_fs st) p with
    | Some (File c) => (Ret c, st, [])
    | _ => (Throw "Error: readFileSync", st, [])
    end.
Proof. unfold readFileSync, Fs.read. by destruct (Fs.stat _ _) as [[c|]|]. Qed.

Lemma submoduleExists_run p st :
  submoduleExists p st =
    match st_fs st !! [".gitmodules"] with
    | Some Dir => (Throw "Error: readFileSync", st, [])
    | _ => (Ret (registered (st_fs st) p), st, [])
    end.
Proof.
  unfold submoduleExists, registered.
  rewrite (bind_quiet _ _ _ _ (existsSync_run _ _)).
  change (join root [".gitmodules"]) with [".gitmodules"].
  destruct (st_fs st !! [".gitmodules"]) as [[c|]|] eqn:E.
  - rewrite (exists_true _ _ (File c)) by done.
    cbn [negb]. unfold M_bind. rewrite readFileSync_run.
    change (Fs.stat (st_fs st) [".gitmodules"]) with (st_fs st !! [".gitmodules"]).
    by rewrite E.
  - rewrite (exists_true _ _ Dir) by done.
    cbn [negb]. unfold M_bind. rewrite readFileSync_run.
    change (Fs.stat (st_fs st) [".gitmodules"]) with (st_fs st !! [".gitmodules"]).
    by rewrite E.
  - by rewrite exists_false.
Qed.

Lemma submoduleExists_file p st :
  st_fs st !! [".gitmodules"] ≠ Some Dir ->
  submoduleExists p st = (Ret (registered (st_fs st) p), st, []).
Proof.
  intros Hm. rewrite submoduleExists_run.
  by destruct (st_fs st !! [".gitmodules"]) as [[c|]|].
Qed.

(** A filter whose test only reads: the state stays, nothing is traced,
    and the result is the pure filter. *)
Lemma filter_of_pure {A} (xs : list A) (test : A -> M bool) (f : A -> bool) st :
  (forall x, test x st = (Ret (f x), st, [])) ->
  filter_of xs test st = (Ret (List.filter f xs), st, []).
Proof.
  intros Htest. induction xs as [|x xs IH]; [done|].
  simpl. rewrite (bind_quiet _ _ _ _ (Htest x)), (bind_quiet _ _ _ _ IH).
  by destruct (f x).
Qed.

(** *** [init], step by step *)

Definition existing_in (fs : FS) : list Project :=
  List.filter (fun p => registered fs (path p)) allProjects.

Definition new_in (fs : FS) : list Project :=
  List.filter (fun p => negb (registered fs (path p))) allProjects.

(** What one round of the loop over the selection does. *)
Definition add_step (project : Project) (st : State) : outcome unit * State * list event :=
  let parentDir := dirname (path project) in
  let start := ESpinnerStart ("Adding submodule: " +:+ name project) in
  let register fs0 t0 :=
    let '(r, fs1, env1) := execSync (add_command project) root fs0 (st_env st) in
    (Ret tt, {| st_fs := fs1; st_env := env1 |},
     t0 ++ [EExec (add_command project) root;
            ESpinnerStop match r with
                         | Ret _ => "Added: " +:+ name project
                         | Throw e => "Failed to add " +:+ name project +:+ ": " +:+ e
                         end]) in
  if Fs.exists_ (st_fs st) parentDir then register (st_fs st) [start]
  else match Fs.mkdir_p faulty parentDir (st_fs st) with
       | Some fs0 => register fs0 [start; EMkdir parentDir]
       | None => (Throw "Error: mkdirSync", st, [start; EMkdir parentDir])
       end.

Lemma addSubmodule_run project st : addSubmodule project st = add_step project st.
Proof.
  unfold addSubmodule, add_step, M_bind, emit, existsSync, mkdirSync, change, try_catch,
    exec, M_ret, join, root.
  cbn [app st_fs st_env].
  destruct (Fs.exists_ (st_fs st) (dirname (path project))); cbn [negb st_fs st_env].
  - destruct st as [fs0 env0]; cbn [st_fs st_env].
    by destruct (execSync _ _ _ _) as [[[out|e] fs1] env1].
  - destruct (Fs.mkdir_p faulty _ _) as [fs0|]; cbn [st_fs st_env]; [|done].
    by destruct (execSync _ _ _ _) as [[[out|e] fs1] env1].
Qed.

Lemma new_test_run p st :
  st_fs st !! [".gitmodules"] ≠ Some Dir ->
  (found ← submoduleExists (path p); M_ret (negb found)) st
  = (Ret (negb (registered (st_fs st) (path p))), st, []).
Proof. intros Hm. by rewrite (bind_quiet _ _ _ _ (submoduleExists_file _ _ Hm)). Qed.

(** The rest of [init] once the two lists are known. *)
Definition init_rest (existingProjects newProjects : list Project) : M unit :=
  if Nat.eqb (length newProjects) 0 then
    emit (ELogInfo "All submodules already initialized")
  else
    emit (EMultiselect newProjects);;
    match multiselect newProjects with
    | None => emit (ECancel "Cancelled")
    | Some selected =>
        for_of selected addSubmodule;;
        emit (ELogSuccess "Submodules initialized");;
        if Nat.ltb 0 (length existingProjects) then
          emit (ELogInfo ("Already initialized: " +:+ String.concat ", " (map name existingProjects)))
        else M_ret tt
    end.

Lemma initSubmodules_run st :
  st_fs st !! [".gitmodules"] ≠ Some Dir ->
  initSubmodules st = init_rest (existing_in (st_fs st)) (new_in (st_fs st)) st.
Proof.
  intros Hm. unfold initSubmodules.
  rewrite (bind_quiet _ _ _ (existing_in (st_fs st))).
  2: { apply filter_of_pure. intros x. by apply submoduleExists_file. }
  rewrite (bind_quiet _ _ _ (new_in (st_fs st))); [done|].
  apply filter_of_pure. intros x. by apply new_test_run.
Qed.

(** With a directory in the place of the manifest the first test throws. *)
Lemma initSubmodules_unreadable st :
  st_fs st !! [".gitmodules"] = Some Dir ->
  initSubmodules st =
    match allProjects with
    | [] => (Ret tt, st, [ELogInfo "All submodules already initialized"])
    | _ => (Throw "Error: readFileSync", st, [])
    end.
Proof.
  intros Hm. unfold initSubmodules. destruct allProjects as [|p ps]; [done|].
  cbn [filter_of]. unfold M_bind at 1. unfold M_bind at 1.
  by rewrite submoduleExists_run, Hm.
Qed.

Lemma for_of_cons {A} (x : A) xs (body : A -> M unit) st :
  for_of (x :: xs) body st =
    match body x st with
    | (Ret _, st1, t1) =>
        (result (for_of xs body st1), final (for_of xs body st1), t1 ++ trace (for_of xs body st1))
    | (Throw e, st1, t1) => (Throw e, st1, t1)
    end.
Proof. cbn [for_of]. by rewrite bind_run. Qed.

Definition is_prompt (ev : event) : bool :=
  match ev with
  | EMultiselect _ => true
  | _ => false
  end.

Lemma add_step_no_prompt project st :
  Forall (fun ev => is_prompt ev = false) (trace (add_step project st)).
Proof.
  unfold add_step.
  destruct (Fs.exists_ _ _).
  - destruct (execSync _ _ _ _) as [[r fs1] env1]. unfold trace; cbn [snd app].
    by repeat constructor.
  - destruct (Fs.mkdir_p _ _ _) as [fs0|].
    + destruct (execSync _ _ _ _) as [[r fs1] env1]. unfold trace; cbn [snd app].
      by repeat constructor.
    + by repeat constructor.
Qed.

Lemma add_loop_no_prompt selected st :
  Forall (fun ev => is_prompt ev = false) (trace (for_of selected addSubmodule st)).
Proof.
  revert st. induction selected as [|p ps IH]; intros st; [constructor|].
  rewrite for_of_cons, addSubmodule_run.
  pose proof (add_step_no_prompt p st) as Hp.
  destruct (add_step p st) as [[[[]|e] st1] t1]; unfold trace in *; cbn [snd] in *; [|done].
  apply Forall_app. split; [done|apply IH].
Qed.

(** The commands a trace ran, in order. *)
Definition execs (t : list event) : list (string * fpath) :=
  omap (fun ev => match ev with
                  | EExec cmd cwd => Some (cmd, cwd)
                  | _ => None
                  end) t.

Lemma execs_app t1 t2 : execs (t1 ++ t2) = execs t1 ++ execs t2.
Proof. apply omap_app. Qed.

Lemma elem_of_execs cmd cwd t : (cmd, cwd) ∈ execs t <-> EExec cmd cwd ∈ t.
Proof.
  unfold execs. rewrite list_elem_of_omap. split.
  - intros (ev & Hin & Hev). destruct ev; try done. by injection Hev as -> ->.
  - intros Hin. by exists (EExec cmd cwd).
Qed.

Definition add_exec (project : Project) : string * fpath := (add_command project, root).

Lemma add_step_execs project st :
  execs (trace (add_step project st)) =
    match result (add_step project st) with
    | Ret _ => [add_exec project]
    | Throw _ => []
    end.
Proof.
  unfold add_step.
  destruct (Fs.exists_ _ _).
  - by destruct (execSync _ _ _ _) as [[r fs1] env1].
  - destruct (Fs.mkdir_p _ _ _) as [fs0|]; [|done].
    by destruct (execSync _ _ _ _) as [[r fs1] env1].
Qed.

(** The loop runs the command of every selected project, in order, up to
    the first round that throws. *)
Lemma add_loop_execs selected st :
  execs (trace (for_of selected addSubmodule st)) `prefix_of` map add_exec selected /\
  (result (for_of selected addSubmodule st) = Ret tt ->
   execs (trace (for_of selected addSubmodule st)) = map add_exec selected).
Proof.
  revert st. induction selected as [|p ps IH]; intros st; [done|].
  rewrite for_of_cons, addSubmodule_run.
  pose proof (add_step_execs p st) as Hp.
  destruct (add_step p st) as [[[[]|e] st1] t1]; unfold trace, result in *; cbn [fst snd] in *.
  - rewrite execs_app, Hp. destruct (IH st1) as [IH1 IH2]. split.
    + cbn [map app]. by apply prefix_cons.
    + intros Hr. cbn [map app]. f_equal. by apply IH2.
  - rewrite Hp. split; [apply prefix_nil|done].
Qed.

Lemma init_rest_execs existingProjects newProjects st cmd cwd :
  EExec cmd cwd ∈ trace (init_rest existingProjects newProjects st) ->
  exists selected q,
    multiselect newProjects = Some selected /\ q ∈ selected /\ cmd = add_command q /\ cwd = root.
Proof.
  unfold init_rest. destruct (Nat.eqb _ _).
  { unfold emit, trace; cbn [snd]. intros Hin. apply list_elem_of_singleton in Hin. done. }
  rewrite bind_run. unfold emit at 1. cbn [app].
  destruct (multiselect newProjects) as [selected|].
  2: { unfold emit, trace; cbn [snd]. intros Hin.
       apply elem_of_cons in Hin as [Hin|Hin]; [done|].
       apply list_elem_of_singleton in Hin. done. }
  intros Hin. exists selected.
  assert ((cmd, cwd) ∈ map add_exec selected) as Hq.
  { destruct (add_loop_execs selected st) as [Hpre _].
    refine (elem_of_prefix _ _ _ _ Hpre).
    apply elem_of_execs.
    revert Hin. rewrite bind_run.
    destruct (for_of selected addSubmodule st) as [[[[]|e] st1] t1] eqn:Hloop;
      unfold trace; cbn [snd].
    - rewrite bind_run. unfold emit at 1. cbn [app].
      intros Hin. apply elem_of_cons in Hin as [Hin|Hin]; [done|].
      apply elem_of_app in Hin as [Hin|Hin]; [done|].
      apply elem_of_cons in Hin as [Hin|Hin]; [done|].
      destruct (Nat.ltb _ _); unfold emit, M_ret, trace in Hin; cbn [snd] in Hin.
      + apply list_elem_of_singleton in Hin. done.
      + by apply elem_of_nil in Hin.
    - intros Hin. apply elem_of_cons in Hin as [Hin|Hin]; [done|]. done. }
  apply list_elem_of_In, in_map_iff in Hq as (q & Heq & Hq).
  exists q. injection Heq as <- <-. by apply list_elem_of_In in Hq.
Qed.

Lemma init_rest_prompt existingProjects newProjects st options :
  EMultiselect options ∈ trace (init_rest existingProjects newProjects st) ->
  options = newProjects.
Proof.
  unfold init_rest. destruct (Nat.eqb _ _).
  { unfold emit, trace; cbn [snd]. intros Hin. apply list_elem_of_singleton in Hin. done. }
  rewrite bind_run. unfold emit at 1. cbn [app].
  intros Hin. apply elem_of_cons in Hin as [Hin|Hin]; [congruence|].
  exfalso. destruct (multiselect newProjects) as [selected|].
  2: { unfold emit, trace in Hin; cbn [snd] in Hin.
       apply list_elem_of_singleton in Hin. done. }
  revert Hin. rewrite bind_run.
  pose proof (add_loop_no_prompt selected st) as Hloop.
  destruct (for_of selected addSubmodule st) as [[[[]|e] st1] t1];
    unfold trace in *; cbn [snd] in *.
  - rewrite bind_run. unfold emit at 1. cbn [app snd].
    intros Hin. apply elem_of_app in Hin as [Hin|Hin].
    { rewrite Forall_forall in Hloop. by apply Hloop in Hin. }
    apply elem_of_cons in Hin as [Hin|Hin]; [done|].
    destruct (Nat.ltb _ _); unfold emit, M_ret in Hin; cbn [snd] in Hin.
    + apply list_elem_of_singleton in Hin. done.
    + by apply elem_of_nil in Hin.
  - intros Hin. rewrite Forall_forall in Hloop. by apply Hloop in Hin.
Qed.

Lemma init_prompt st options :
  EMultiselect options ∈ trace (initSubmodules st) ->
  st_fs st !! [".gitmodules"] ≠ Some Dir /\ options = new_in (st_fs st).
Proof.
  destruct (decide (st_fs st !! [".gitmodules"] = Some Dir)) as [Hm|Hm].
  - rewrite initSubmodules_unreadable by done.
    destruct allProjects; unfold trace; cbn [snd]; intros Hin.
    + apply list_elem_of_singleton in Hin. done.
    + by apply elem_of_nil in Hin.
  - rewrite initSubmodules_run by done. intros Hin. split; [done|].
    by apply init_rest_prompt in Hin.
Qed.

(** C9: when the operator cancels the multi-selection prompt, [init]
    returns with the state it started from and a trace that holds only the
    prompt and the cancellation message: no directory was created and no
    command was run. *)
Theorem init_cancel_no_side_effects st options :
  EMultiselect options ∈ trace (initSubmodules st) ->
  multiselect options = None ->
  result (initSubmodules st) = Ret tt /\
  final (initSubmodules st) = st /\
  trace (initSubmodules st) = [EMultiselect options; ECancel "Cancelled"] /\
  Forall (fun ev => is_effect ev = false) (trace (initSubmodules st)).
Proof.
  intros Hin Hcancel. destruct (init_prompt _ _ Hin) as [Hm ->].
  rewrite initSubmodules_run in * by done.
  unfold init_rest in *. destruct (Nat.eqb _ _).
  { unfold emit, trace in Hin; cbn [snd] in Hin. apply list_elem_of_singleton in Hin. done. }
  rewrite bind_run. unfold emit at 1. rewrite Hcancel.
  unfold emit, result, final, trace; cbn [fst snd app].
  repeat split. by repeat constructor.
Qed.

(** C5: [init] runs a submodule-add only for projects whose path the
    manifest does not hold, and when the manifest holds the path of every
    configured project it says so and returns, with the state it started
    from, no prompt and no other event. *)
Theorem init_never_readds st :
  (forall options selected, multiselect options = Some selected -> selected ⊆ options) ->
  (forall cmd cwd,
      EExec cmd cwd ∈ trace (initSubmodules st) ->
      exists q, q ∈ allProjects /\ registered (st_fs st) (path q) = false /\
                cmd = add_command q /\ cwd = root) /\
  ((forall q, q ∈ allProjects -> registered (st_fs st) (path q) = true) ->
   initSubmodules st = (Ret tt, st, [ELogInfo "All submodules already initialized"])).
Proof.
  intros Hsel. split.
  - intros cmd cwd Hin.
    destruct (decide (st_fs st !! [".gitmodules"] = Some Dir)) as [Hm|Hm].
    { rewrite initSubmodules_unreadable in Hin by done.
      destruct allProjects; unfold trace in Hin; cbn [snd] in Hin.
      - apply list_elem_of_singleton in Hin. done.
      - by apply elem_of_nil in Hin. }
    rewrite initSubmodules_run in Hin by done.
    apply init_rest_execs in Hin as (selected & q & Hs & Hq & -> & ->).
    apply Hsel in Hs. apply Hs in Hq.
    unfold new_in in Hq. apply list_elem_of_In, filter_In in Hq as [Hq Hr].
    exists q. repeat split; [by apply list_elem_of_In|].
    by destruct (registered _ _).
  - intros Hall.
    assert (new_in (st_fs st) = []) as Hnone.
    { unfold new_in. apply elem_of_nil_inv. intros q Hq.
      apply list_elem_of_In, filter_In in Hq as [Hq Hr].
      apply list_elem_of_In, Hall in Hq. by rewrite Hq in Hr. }
    destruct (decide (st_fs st !! [".gitmodules"] = Some Dir)) as [Hm|Hm].
    + rewrite initSubmodules_unreadable by done.
      destruct allProjects as [|q qs] eqn:Hp; [done|].
      specialize (Hall q). unfold registered in Hall. rewrite Hm in Hall.
      discriminate Hall. by left.
    + rewrite initSubmodules_run by done. unfold init_rest. by rewrite Hnone.
Qed.

(** C10: [init] takes a project for registered exactly when the text
    [path = <localPath>] occurs somewhere in [.gitmodules]; so a configured
    project whose path is a prefix of a path entry of the manifest counts as
    existing and is never among the options of the prompt, although no entry
    is its own; and without a [.gitmodules] every configured project is
    new. *)
Theorem init_substring_test st project :
  project ∈ allProjects ->
  (forall content,
      st_fs st !! [".gitmodules"] = Some (File content) ->
      exists found,
        submoduleExists (path project) st = (Ret found, st, []) /\
        (found = true <->
         exists before rest,
           content = before +:+ ("path = " +:+ show_path (path project)) +:+ rest)) /\
  (forall content before more rest,
      st_fs st !! [".gitmodules"] = Some (File content) ->
      content = before +:+ "path = " +:+ (show_path (path project) +:+ more) +:+ rest ->
      project ∈ existing_in (st_fs st) /\
      forall options, EMultiselect options ∈ trace (initSubmodules st) -> project ∉ options) /\
  (st_fs st !! [".gitmodules"] = None ->
   submoduleExists (path project) st = (Ret false, st, []) /\
   new_in (st_fs st) = allProjects /\
   EMultiselect allProjects ∈ trace (initSubmodules st)).
Proof.
  intros Hproject. split; [|split].
  - intros content Hm. exists (registered (st_fs st) (path project)). split.
    + apply submoduleExists_file. by rewrite Hm.
    + unfold registered. rewrite Hm. split.
      * apply includes_split.
      * intros (before & rest & ->). apply includes_append.
  - intros content before more rest Hm Hc.
    assert (registered (st_fs st) (path project) = true) as Hr.
    { unfold registered. rewrite Hm, Hc.
      replace (before +:+ "path = " +:+ (show_path (path project) +:+ more) +:+ rest)
        with (before +:+ ("path = " +:+ show_path (path project)) +:+ (more +:+ rest)).
      - apply includes_append.
      - by rewrite !append_assoc. }
    split.
    + unfold existing_in. apply list_elem_of_In, filter_In. split; [|done].
      by apply list_elem_of_In.
    + intros options Hin. apply init_prompt in Hin as [_ ->].
      unfold new_in. intros Hq. apply list_elem_of_In, filter_In in Hq as [_ Hq].
      by rewrite Hr in Hq.
  - intros Hm.
    assert (forall p, registered (st_fs st) p = false) as Hr.
    { intros p. unfold registered. by rewrite Hm. }
    assert (new_in (st_fs st) = allProjects) as Hnew.
    { unfold new_in. clear Hproject. induction allProjects as [|q qs IH]; [done|].
      cbn [List.filter]. rewrite Hr. cbn [negb]. f_equal. apply IH. }
    split; [|split; [done|]].
    + rewrite submoduleExists_file by (by rewrite Hm). by rewrite Hr.
    + rewrite initSubmodules_run by (by rewrite Hm).
      unfold init_rest. rewrite Hnew.
      destruct allProjects as [|q qs] eqn:Hp; [by apply elem_of_nil in Hproject|].
      cbn [length Nat.eqb]. rewrite bind_run. unfold emit at 1. unfold trace; cbn [snd app].
      by left.
Qed.

(** *** Failures while adding *)

Lemma mkdir_p_single fs d :
  Fs.exists_ fs [d] = false -> faulty [d] = false ->
  Fs.mkdir_p faulty [d] fs = Some (<[[d] := Dir]> fs).
Proof.
  intros Hex Hf. unfold Fs.mkdir_p. cbn [Fs.mkdir_from app].
  destruct (fs !! [d]) as [e|] eqn:E.
  - rewrite (exists_true _ _ e) in Hex; done.
  - by rewrite Hf.
Qed.

Lemma allProjects_parent project :
  project ∈ allProjects ->
  dirname (path project) = ["sources"] \/ dirname (path project) = ["vendor"].
Proof.
  unfold allProjects. rewrite elem_of_app. intros [H|H].
  - apply list_elem_of_In, in_map_iff in H as ([n u] & <- & _). by left.
  - apply list_elem_of_In, in_map_iff in H as ([n c] & <- & _). by right.
Qed.

Definition stop_message (project : Project) (r : outcome string) : string :=
  match r with
  | Ret _ => "Added: " +:+ name project
  | Throw e => "Failed to add " +:+ name project +:+ ": " +:+ e
  end.

(** One round with a parent directory that can be prepared: whatever the
    command does, the round reports it on the spinner and returns. *)
Lemma add_step_reports project st :
  project ∈ allProjects ->
  faulty ["sources"] = false -> faulty ["vendor"] = false ->
  exists fs0 r fs1 env1 before,
    execSync (add_command project) root fs0 (st_env st) = (r, fs1, env1) /\
    add_step project st =
      (Ret tt, {| st_fs := fs1; st_env := env1 |},
       before ++ [EExec (add_command project) root; ESpinnerStop (stop_message project r)]).
Proof.
  intros Hin Hs Hv. unfold add_step.
  destruct (Fs.exists_ (st_fs st) (dirname (path project))) eqn:Hex.
  - destruct (execSync (add_command project) root (st_fs st) (st_env st))
      as [[r fs1] env1] eqn:Hrun.
    by exists (st_fs st), r, fs1, env1, [ESpinnerStart ("Adding submodule: " +:+ name project)].
  - assert (exists d, dirname (path project) = [d] /\ faulty [d] = false) as (d & Hd & Hf).
    { destruct (allProjects_parent _ Hin) as [->| ->]; eauto. }
    rewrite Hd in *. rewrite mkdir_p_single by done.
    destruct (execSync (add_command project) root (<[[d]:=Dir]> (st_fs st)) (st_env st))
      as [[r fs1] env1] eqn:Hrun.
    by exists (<[[d]:=Dir]> (st_fs st)), r, fs1, env1,
      [ESpinnerStart ("Adding submodule: " +:+ name project); EMkdir [d]].
Qed.

Lemma add_loop_completes selected st :
  selected ⊆ allProjects ->
  faulty ["sources"] = false -> faulty ["vendor"] = false ->
  result (for_of selected addSubmodule st) = Ret tt.
Proof.
  intros Hsub Hs Hv. revert st. induction selected as [|p ps IH]; intros st; [done|].
  rewrite for_of_cons, addSubmodule_run.
  destruct (add_step_reports p st) as (fs0 & r & fs1 & env1 & before & _ & ->); [|done..|].
  { apply Hsub. by left. }
  unfold result; cbn [fst]. apply IH. intros q Hq. apply Hsub. by right.
Qed.

(** C8, as the code has it: a failing submodule-add is reported on the
    spinner and the loop goes on, so that [init] runs the command of every
    selected project, in order, and returns; this is under the condition
    that the parent directories can be prepared, the step the loop does not
    guard. *)
Theorem init_add_failure_continues st selected :
  st_fs st !! [".gitmodules"] ≠ Some Dir ->
  multiselect (new_in (st_fs st)) = Some selected ->
  selected ⊆ new_in (st_fs st) ->
  faulty ["sources"] = false -> faulty ["vendor"] = false ->
  result (initSubmodules st) = Ret tt /\
  execs (trace (initSubmodules st)) = map add_exec selected /\
  (forall project st', project ∈ selected ->
     exists fs0 r fs1 env1 before,
       execSync (add_command project) root fs0 (st_env st') = (r, fs1, env1) /\
       addSubmodule project st' =
         (Ret tt, {| st_fs := fs1; st_env := env1 |},
          before ++ [EExec (add_command project) root;
                     ESpinnerStop (stop_message project r)])).
Proof.
  intros Hm Hsel Hsub Hs Hv.
  assert (selected ⊆ allProjects) as Hall.
  { intros q Hq. apply Hsub in Hq. unfold new_in in Hq.
    apply list_elem_of_In, filter_In in Hq as [Hq _]. by apply list_elem_of_In. }
  split; [|split].
  - rewrite initSubmodules_run by done. unfold init_rest.
    destruct (Nat.eqb _ _); [done|].
    rewrite bind_run. unfold emit at 1. rewrite Hsel.
    unfold result at 1; cbn [fst]. rewrite bind_run.
    pose proof (add_loop_completes selected st Hall Hs Hv) as Hloop.
    destruct (for_of selected addSubmodule st) as [[[[]|e] st1] t1];
      unfold result in Hloop; cbn [fst] in Hloop; [|done].
    rewrite bind_run. unfold emit at 1. unfold result at 1; cbn [fst].
    by destruct (Nat.ltb _ _).
  - rewrite initSubmodules_run by done. unfold init_rest.
    destruct (Nat.eqb (length (new_in (st_fs st))) 0) eqn:Hlen.
    { apply Nat.eqb_eq in Hlen. destruct (new_in (st_fs st)); [|done].
      destruct selected as [|q qs]; [done|].
      specialize (Hsub q). rewrite elem_of_nil in Hsub. exfalso. apply Hsub. by left. }
    rewrite bind_run. unfold emit at 1. rewrite Hsel.
    unfold trace at 1; cbn [snd app]. rewrite bind_run.
    pose proof (add_loop_completes selected st Hall Hs Hv) as Hloop.
    destruct (add_loop_execs selected st) as [_ Hexecs]. specialize (Hexecs Hloop).
    destruct (for_of selected addSubmodule st) as [[[[]|e] st1] t1];
      unfold result in Hloop; cbn [fst] in Hloop; [|done].
    unfold trace in Hexecs; cbn [snd] in Hexecs.
    rewrite bind_run. unfold emit at 1. unfold trace at 1; cbn [snd].
    change (execs (EMultiselect (new_in (st_fs st)) :: ?t)) with (execs t).
    rewrite !execs_app, Hexecs.
    destruct (Nat.ltb _ _); unfold emit, M_ret, trace; cbn [snd app];
      by rewrite app_nil_r.
  - intros project st' Hin. rewrite addSubmodule_run.
    apply add_step_reports; auto.
Qed.

(** *** [sync]: the update of the submodules *)

Definition updating : list event :=
  [ESpinnerStart "Updating submodules..."; EExec update_command root].

Lemma sync_updated st out fs1 env1 :
  execSync update_command root (st_fs st) (st_env st) = (Ret out, fs1, env1) ->
  let st1 := {| st_fs := fs1; st_env := env1 |} in
  let loop := for_of vendors syncVendor st1 in
  result (syncSubmodules st) = result loop /\
  final (syncSubmodules st) = final loop /\
  trace (syncSubmodules st) =
    updating ++ [ESpinnerStop "Submodules updated"] ++ trace loop ++
    match result loop with
    | Ret _ => [ELogSuccess "All skills synced"]
    | Throw _ => []
    end.
Proof.
  intros Hup st1 loop. subst loop st1.
  unfold syncSubmodules, M_bind, try_catch, emit, exec, M_ret.
  cbn [st_fs st_env]. rewrite Hup. cbn [app negb].
  destruct (for_of vendors syncVendor _) as [[[[]|e] st2] t2];
    unfold result, final, trace, updating; cbn [fst snd app]; by rewrite ?app_nil_r.
Qed.

(** C2, as the code has it: when the update of the submodules fails,
    [sync] reports the failure on the spinner and returns at once, without
    throwing; it leaves the state as the failed command left it, and its
    trace holds no file-system call and no round of the loop over the
    vendors. *)
Theorem sync_update_failure st e fs1 env1 :
  execSync update_command root (st_fs st) (st_env st) = (Throw e, fs1, env1) ->
  syncSubmodules st =
    (Ret tt, {| st_fs := fs1; st_env := env1 |},
     updating ++ [ESpinnerStop ("Failed to update submodules: " +:+ e)]).
Proof.
  intros Hup.
  unfold syncSubmodules, M_bind, try_catch, emit, exec, M_ret.
  cbn [st_fs st_env]. rewrite Hup. by cbn [app negb].
Qed.

(** *** [check] *)

(** What git answers to the probe of [check]: [count env cwd] is the number
    of commits by which the checkout at [cwd] is behind its upstream, and
    there is none without an upstream, where the command fails. *)
Definition counts_behind (count : Env -> fpath -> option nat) : Prop :=
  forall cwd fs env,
    match count env cwd with
    | Some n => execSync behind_command cwd fs env = (Ret (decimal n +:+ newline), fs, env)
    | None => exists e, execSync behind_command cwd fs env = (Throw e, fs, env)
    end.

(** The same of one checkout on one machine: asked in [cwd], git prints the
    count [n] of the commits that the upstream has and [HEAD] has not, or
    fails for want of an upstream, and leaves the machine as it is. *)
Definition answers (fs : FS) (env : Env) (cwd : fpath) (behind : option nat) : Prop :=
  match behind with
  | Some n => execSync behind_command cwd fs env = (Ret (decimal n +:+ newline), fs, env)
  | None => exists e, execSync behind_command cwd fs env = (Throw e, fs, env)
  end.

(** The checkout directories of the configured projects, in the order of
    the two loops of [check]. *)
Definition checkouts : list fpath :=
  map (fun name => ["sources"; name]) (map fst submodules)
  ++ map (fun vendor => ["vendor"; vendor.1]) vendors.

(** A project is due when its checkout exists and is behind by one commit
    or more. *)
Definition due (fs : FS) (count : fpath -> option nat) (p : fpath) : bool :=
  Fs.exists_ fs p &&
  match count p with
  | Some n => Nat.ltb 0 n
  | None => false
  end.

Definition source_report (count : fpath -> option nat) (name : string) : Update :=
  {| u_name := name; u_type := "source";
     u_behind := Js.number_of false (Z.of_nat <$> count ["sources"; name]) |}.

Definition vendor_report (count : fpath -> option nat) (vendor : string * VendorSkillMeta) : Update :=
  {| u_name := vendor.1 +:+ " (" +:+ String.concat ", " (map snd (skills vendor.2)) +:+ ")";
     u_type := "vendor";
     u_behind := Js.number_of false (Z.of_nat <$> count ["vendor"; vendor.1]) |}.

Definition reports (fs : FS) (count : fpath -> option nat) : list Update :=
  map (source_report count)
      (List.filter (fun name => due fs count ["sources"; name]) (map fst submodules))
  ++ map (vendor_report count)
         (List.filter (fun vendor => due fs count ["vendor"; vendor.1]) vendors).

(** The lines [check] prints, one for each update. *)
Definition lines (t : list event) : list string :=
  omap (fun ev => match ev with
                  | ELogMessage msg => Some msg
                  | _ => None
                  end) t.

(** The report in the words of the specification.  A count shows as its
    decimal numeral; beyond [Number.MAX_SAFE_INTEGER] it shows as a
    JavaScript number of that size does. *)
Definition count_text (n : nat) : string :=
  if (Z.of_nat n <=? Js.MAX_SAFE_INTEGER)%Z then decimal n
  else Js.show (Js.round (Z.of_nat n)).

Definition source_line (name : string) (n : nat) : string :=
  "  " +:+ name +:+ " (source): " +:+ count_text n +:+ " commits behind".

Definition vendor_line (vendor : string * VendorSkillMeta) (n : nat) : string :=
  "  " +:+ vendor.1 +:+ " (" +:+ String.concat ", " (map snd (skills vendor.2))
  +:+ ") (vendor): " +:+ count_text n +:+ " commits behind".

(** The count to report for the checkout at [p]: the number of commits it
    is behind, when it exists and that number is one or more. *)
Definition reported (fs : FS) (behind : fpath -> option nat) (p : fpath) : option nat :=
  if Fs.exists_ fs p then
    match behind p with
    | Some n => if Nat.ltb 0 n then Some n else None
    | None => None
    end
  else None.

Definition due_lines (fs : FS) (behind : fpath -> option nat) : list string :=
  omap (fun name => source_line name <$> reported fs behind ["sources"; name])
       (map fst submodules)
  ++ omap (fun vendor => vendor_line vendor <$> reported fs behind ["vendor"; vendor.1])
          vendors.

Lemma probe_answer behind cwd st :
  answers (st_fs st) (st_env st) cwd behind ->
  execSafe behind_command cwd st = (Ret (decimal <$> behind), st, [EExec behind_command cwd]).
Proof.
  intros Hc. unfold execSafe, try_catch, M_bind, exec, M_ret.
  destruct behind as [n|]; cbn [answers] in Hc.
  - rewrite Hc. cbn [app fmap option_fmap option_map]. rewrite trim_decimal. by destruct st.
  - destruct Hc as [e Hc]. rewrite Hc. cbn [app]. by destruct st.
Qed.

Lemma probe_run count cwd st :
  counts_behind count ->
  execSafe behind_command cwd st
  = (Ret (decimal <$> count (st_env st) cwd), st, [EExec behind_command cwd]).
Proof. intros Hc. apply probe_answer, Hc. Qed.

Lemma is_behind_decimal (c : option nat) :
  is_behind (decimal <$> c) = match c with Some n => Nat.ltb 0 n | None => false end.
Proof.
  destruct c as [n|]; [|done].
  unfold is_behind. cbn [fmap option_fmap option_map Js.to_string].
  rewrite decimal_truthy, parseInt_decimal. cbn [andb].
  destruct n; [done|]. apply round_positive. lia.
Qed.

(** One round of each loop, when git answers in the checkout of the round
    if there is one. *)
Lemma checkSource_answer behind updates name st :
  (Fs.exists_ (st_fs st) ["sources"; name] = true ->
   answers (st_fs st) (st_env st) ["sources"; name] (behind ["sources"; name])) ->
  result (checkSource updates name st)
  = Ret (if due (st_fs st) behind ["sources"; name]
         then updates ++ [source_report behind name] else updates) /\
  final (checkSource updates name st) = st /\
  lines (trace (checkSource updates name st)) = [].
Proof.
  intros Hc. unfold checkSource, due.
  rewrite (bind_quiet _ _ _ _ (existsSync_run _ _)).
  change (join root ["sources"; name]) with ["sources"; name].
  destruct (Fs.exists_ (st_fs st) ["sources"; name]); cbn [negb andb]; [|done].
  rewrite bind_run, (probe_answer (behind ["sources"; name])) by auto.
  rewrite is_behind_decimal. unfold source_update, source_report.
  destruct (behind ["sources"; name]) as [n|]; [|done].
  destruct (Nat.ltb 0 n); [|done].
  change (decimal <$> Some n) with (Some (decimal n)).
  cbn [Js.to_string]. by rewrite parseInt_decimal.
Qed.

Lemma checkVendor_answer behind updates vendor st :
  (Fs.exists_ (st_fs st) ["vendor"; vendor.1] = true ->
   answers (st_fs st) (st_env st) ["vendor"; vendor.1] (behind ["vendor"; vendor.1])) ->
  result (checkVendor updates vendor st)
  = Ret (if due (st_fs st) behind ["vendor"; vendor.1]
         then updates ++ [vendor_report behind vendor] else updates) /\
  final (checkVendor updates vendor st) = st /\
  lines (trace (checkVendor updates vendor st)) = [].
Proof.
  destruct vendor as [name config]. cbn [fst]. intros Hc. unfold checkVendor, due.
  rewrite (bind_quiet _ _ _ _ (existsSync_run _ _)).
  change (join root ["vendor"; name]) with ["vendor"; name].
  destruct (Fs.exists_ (st_fs st) ["vendor"; name]); cbn [negb andb]; [|done].
  rewrite bind_run, (probe_answer (behind ["vendor"; name])) by auto.
  rewrite is_behind_decimal. unfold vendor_update, vendor_report. cbn [fst snd].
  destruct (behind ["vendor"; name]) as [n|]; [|done].
  destruct (Nat.ltb 0 n); [|done].
  change (decimal <$> Some n) with (Some (decimal n)).
  cbn [Js.to_string fst snd]. by rewrite parseInt_decimal.
Qed.

Lemma checkSource_run count updates name st :
  counts_behind count ->
  result (checkSource updates name st)
  = Ret (if due (st_fs st) (count (st_env st)) ["sources"; name]
         then updates ++ [source_report (count (st_env st)) name] else updates) /\
  final (checkSource updates name st) = st /\
  lines (trace (checkSource updates name st)) = [].
Proof. intros Hc. apply checkSource_answer. intros _. apply Hc. Qed.

Lemma checkVendor_run count updates vendor st :
  counts_behind count ->
  result (checkVendor updates vendor st)
  = Ret (if due (st_fs st) (count (st_env st)) ["vendor"; vendor.1]
         then updates ++ [vendor_report (count (st_env st)) vendor] else updates) /\
  final (checkVendor updates vendor st) = st /\
  lines (trace (checkVendor updates vendor st)) = [].
Proof. intros Hc. apply checkVendor_answer. intros _. apply Hc. Qed.

Lemma lines_app t1 t2 : lines (t1 ++ t2) = lines t1 ++ lines t2.
Proof. apply omap_app. Qed.

(** A loop whose rounds leave the state alone and either push one element
    or nothing. *)
Lemma fold_of_pushes {A} (xs : list A) (body : list Update -> A -> M (list Update))
    (keep : A -> bool) (entry : A -> Update) acc st :
  (forall acc x, x ∈ xs ->
      result (body acc x st) = Ret (if keep x then acc ++ [entry x] else acc) /\
      final (body acc x st) = st /\ lines (trace (body acc x st)) = []) ->
  result (fold_of xs acc body st) = Ret (acc ++ map entry (List.filter keep xs)) /\
  final (fold_of xs acc body st) = st /\
  lines (trace (fold_of xs acc body st)) = [].
Proof.
  revert acc. induction xs as [|x xs IH]; intros acc Hbody.
  { unfold result, final, trace; cbn. by rewrite app_nil_r. }
  cbn [fold_of List.filter]. rewrite bind_run.
  destruct (Hbody acc x) as (Hr & Hf & Hl); [by left|].
  destruct (body acc x st) as [[[acc'|e] st1] t1]; unfold result, final, trace in Hr, Hf, Hl;
    cbn [fst snd] in Hr, Hf, Hl; [|done].
  subst st1. injection Hr as ->.
  destruct (IH (if keep x then acc ++ [entry x] else acc)) as (IHr & IHf & IHl).
  { intros acc' y Hy. apply Hbody. by right. }
  unfold result, final, trace in *; cbn [fst snd].
  rewrite IHr, IHf, lines_app, Hl, IHl. repeat split.
  destruct (keep x); [|done]. cbn [map]. by rewrite <- app_assoc.
Qed.

(** The two loops, when git answers in every checkout that exists. *)
Lemma collectUpdates_answer behind st :
  (forall cwd, cwd ∈ checkouts -> Fs.exists_ (st_fs st) cwd = true ->
               answers (st_fs st) (st_env st) cwd (behind cwd)) ->
  result (collectUpdates st) = Ret (reports (st_fs st) behind) /\
  final (collectUpdates st) = st /\
  lines (trace (collectUpdates st)) = [].
Proof.
  intros Hc. unfold collectUpdates. rewrite bind_run.
  destruct (fold_of_pushes (map fst submodules) checkSource
              (fun name => due (st_fs st) behind ["sources"; name])
              (source_report behind) [] st) as (Hr & Hf & Hl).
  { intros acc x Hx. apply checkSource_answer, Hc.
    unfold checkouts. apply elem_of_app. left.
    by apply (list_elem_of_fmap_2 (fun name => ["sources"; name])). }
  destruct (fold_of (map fst submodules) [] checkSource st) as [[[acc|e] st1] t1];
    unfold result, final, trace in Hr, Hf, Hl; cbn [fst snd] in Hr, Hf, Hl; [|done].
  subst st1. injection Hr as ->.
  destruct (fold_of_pushes vendors checkVendor
              (fun vendor => due (st_fs st) behind ["vendor"; vendor.1])
              (vendor_report behind)
              (map (source_report behind)
                 (List.filter (fun name => due (st_fs st) behind ["sources"; name])
                    (map fst submodules))) st) as (Hr & Hf & Hl').
  { intros acc x Hx. apply checkVendor_answer, Hc.
    unfold checkouts. apply elem_of_app. right.
    by apply (list_elem_of_fmap_2 (fun vendor : string * VendorSkillMeta => ["vendor"; vendor.1])). }
  unfold result, final, trace in *; cbn [fst snd app].
  by rewrite Hr, Hf, lines_app, Hl, Hl'.
Qed.

Lemma collectUpdates_run count st :
  counts_behind count ->
  result (collectUpdates st) = Ret (reports (st_fs st) (count (st_env st))) /\
  final (collectUpdates st) = st /\
  lines (trace (collectUpdates st)) = [].
Proof. intros Hc. apply collectUpdates_answer. intros cwd _ _. apply Hc. Qed.

Lemma report_loop updates st :
  for_of updates (fun update => emit (ELogMessage (report_line update))) st
  = (Ret tt, st, map (fun update => ELogMessage (report_line update)) updates).
Proof.
  induction updates as [|u us IH]; [done|].
  rewrite for_of_cons. unfold emit at 1. by rewrite IH.
Qed.


(** The text of a number up to [Number.MAX_SAFE_INTEGER]. *)

Lemma round_unsafe (y v : Z) :
  (Js.MAX_SAFE_INTEGER < Z.abs y)%Z -> Js.round y = Js.Finite v ->
  (Js.MAX_SAFE_INTEGER < Z.abs v)%Z.
Proof.
  intros Hy. unfold Js.round.
  destruct (Z.abs y <=? Js.MAX_SAFE_INTEGER)%Z eqn:Hsafe; [apply Z.leb_le in Hsafe; lia|].
  unfold Js.MAX_SAFE_INTEGER in *. cbv zeta.
  set (a := Z.abs y) in *. set (e := (Z.log2 a - 52)%Z) in *.
  assert (53 <= Z.log2 a)%Z as Hlog by (apply Z.log2_le_pow2; lia).
  assert (2 ^ 52 <= Z.shiftr a e)%Z as Hq.
  { rewrite Z.shiftr_div_pow2 by lia.
    apply Z.div_le_lower_bound; [apply Z.pow_pos_nonneg; lia|].
    rewrite <- Z.pow_add_r by lia. replace (e + 52)%Z with (Z.log2 a) by lia.
    apply Z.log2_spec. lia. }
  match goal with |- context [Z.shiftl ?q' e] => set (q := q') end.
  assert (2 ^ 52 <= q)%Z as Hq' by (subst q; destruct (_ || _); lia).
  assert (2 ^ 53 <= Z.shiftl q e)%Z as Hv.
  { rewrite Z.shiftl_mul_pow2 by lia.
    change (2 ^ 53)%Z with (2 ^ 52 * 2 ^ 1)%Z.
    apply Z.mul_le_mono_nonneg; [lia|done|lia|apply Z.pow_le_mono_r; lia]. }
  destruct (2 ^ 1024 <=? Z.shiftl q e)%Z; [done|].
  intros [= <-]. rewrite Z.abs_mul, (Z.abs_eq (Z.shiftl q e)) by lia.
  assert (Z.abs (Z.sgn y) = 1)%Z as -> by (subst a; lia). lia.
Qed.

Lemma round_only (x y : Z) :
  (0 < x <= Js.MAX_SAFE_INTEGER)%Z -> Js.round y = Js.Finite x -> y = x.
Proof.
  intros Hx Hy.
  destruct (Z_le_gt_dec (Z.abs y) Js.MAX_SAFE_INTEGER) as [Hsafe|Hsafe].
  - rewrite round_safe in Hy by done. by injection Hy.
  - apply round_unsafe in Hy; lia.
Qed.

Lemma shortest_safe (x d : Z) (ks : list Z) :
  (0 < x <= Js.MAX_SAFE_INTEGER)%Z -> Js.shortest x d ks = x.
Proof.
  intros Hx. induction ks as [|k ks IH]; [done|].
  cbn [Js.shortest]. cbv zeta.
  set (p := (10 ^ (d - k))%Z). set (below := (x / p * p)%Z).
  assert (forall y, match Js.round y with Js.Finite v => (v =? x)%Z | _ => false end = true ->
                    y = x) as Hfit.
  { intros y. destruct (Js.round y) as [|v|] eqn:E; [done| |done].
    intros ->%Z.eqb_eq. by apply round_only in E. }
  destruct (match Js.round below with Js.Finite v => (v =? x)%Z | _ => false end) eqn:E1;
    destruct (match Js.round (below + p) with Js.Finite v => (v =? x)%Z | _ => false end) eqn:E2;
    try apply Hfit in E1; try apply Hfit in E2; try done.
  repeat destruct (_ <? _)%Z; try done. by destruct (Z.even _).
Qed.

Lemma of_uint_acc_N (d : uint) (acc : positive) :
  N.pos (Pos.of_uint_acc d acc) = N.of_nat (Nat.of_uint_acc d (Pos.to_nat acc)).
Proof.
  revert acc. induction d; intros acc; cbn [Pos.of_uint_acc Nat.of_uint_acc]; [lia|..];
    rewrite IHd, Nat.tail_mul_spec; do 2 f_equal; lia.
Qed.

Lemma of_uint_N (d : uint) : N.of_uint d = N.of_nat (Nat.of_uint d).
Proof.
  unfold N.of_uint, Nat.of_uint.
  induction d; cbn [Pos.of_uint Nat.of_uint_acc]; [done|exact IHd|..];
    rewrite of_uint_acc_N; do 2 f_equal.
Qed.

Lemma to_uint_N (n : nat) : N.to_uint (N.of_nat n) = Nat.to_uint n.
Proof.
  rewrite <- (DecimalNat.Unsigned.of_to n) at 1.
  rewrite <- of_uint_N, DecimalN.Unsigned.to_of.
  by rewrite <- DecimalNat.Unsigned.to_of, DecimalNat.Unsigned.of_to.
Qed.

Lemma numeral_decimal (n : nat) : Js.numeral (Z.of_nat n) = decimal n.
Proof.
  unfold Js.numeral, decimal. by rewrite <- to_uint_N, <- Znat.nat_N_Z, N2Z.id.
Qed.

Lemma show_decimal (n : nat) :
  (Z.of_nat n <= Js.MAX_SAFE_INTEGER)%Z -> Js.show (Js.round (Z.of_nat n)) = decimal n.
Proof.
  intros Hn. rewrite round_safe by lia. rewrite <- numeral_decimal.
  destruct (Z.of_nat n) as [|z|z] eqn:E; [done| |lia].
  cbn [Js.show]. unfold Js.show_positive. cbv zeta.
  rewrite shortest_safe by lia.
  assert ((Z.pos z <? 10 ^ 21)%Z = true) as ->; [|done].
  apply Z.ltb_lt. unfold Js.MAX_SAFE_INTEGER in Hn. lia.
Qed.







(** *** [sync]: one skill *)

Lemma change_run ev op error st st' t :
  change ev op error st = (Ret tt, st', t) ->
  exists fs', op (st_fs st) = Some fs' /\ st' = {| st_fs := fs'; st_env := st_env st |}.
Proof.
  unfold change. destruct (op (st_fs st)) as [fs'|]; [|done].
  intros [= <- _]. by exists fs'.
Qed.

Lemma bind_ret {A B} (m : M A) (f : A -> M B) st b st' t :
  M_bind m f st = (Ret b, st', t) ->
  exists a st1 t1 t2, m st = (Ret a, st1, t1) /\ f a st1 = (Ret b, st', t2) /\ t = t1 ++ t2.
Proof.
  unfold M_bind. destruct (m st) as [[[a|e] st1] t1]; [|done].
  destruct (f a st1) as [[r st2] t2] eqn:Hf. intros [= -> -> <-].
  by exists a, st1, t1, t2.
Qed.

Lemma for_of_ret {A} (x : A) xs (body : A -> M unit) st st' t :
  for_of (x :: xs) body st = (Ret tt, st', t) ->
  exists st1 t1 t2,
    body x st = (Ret tt, st1, t1) /\ for_of xs body st1 = (Ret tt, st', t2) /\ t = t1 ++ t2.
Proof.
  cbn [for_of]. intros H. apply bind_ret in H as ([] & st1 & t1 & t2 & ? & ? & ?).
  by exists st1, t1, t2.
Qed.

Lemma copyFile_run src out r e st st' t :
  r <> [] ->
  copyFile src out (Fs.dirent_of (src ++ r) e) st = (Ret tt, st', t) ->
  match e with
  | Dir => st' = st
  | File _ =>
      exists fsB fsC,
        (if Fs.exists_ (st_fs st) (out ++ removelast r) then fsB = st_fs st
         else Fs.mkdir_p faulty (out ++ removelast r) (st_fs st) = Some fsB) /\
        Fs.cp faulty (src ++ r) (out ++ r) fsB = Some fsC /\
        st' = {| st_fs := fsC; st_env := st_env st |}
  end.
Proof.
  intros Hr. unfold copyFile.
  assert (src ++ r <> []) as Hk by (by destruct src, r).
  rewrite dirent_full_path by done. rewrite replace_first_prefix.
  unfold join, dirname. rewrite removelast_app by done.
  destruct e as [c|]; cbn [isFile Fs.dirent_of].
  2: { by intros [= <- _]. }
  rewrite (bind_quiet _ _ _ _ (existsSync_run _ _)).
  destruct (Fs.exists_ (st_fs st) (out ++ removelast r)); cbn [negb].
  - rewrite (bind_quiet _ _ _ tt) by done.
    intros H. apply change_run in H as (fsC & Hcp & ->). by exists (st_fs st), fsC.
  - intros H. apply bind_ret in H as ([] & st1 & t1 & t2 & Hmk & Hcp & _).
    apply change_run in Hmk as (fsB & Hmk & ->).
    apply change_run in Hcp as (fsC & Hcp & ->). by exists fsB, fsC.
Qed.

(** What the entry at [out ++ r] owes to the source: a file is the copy of
    the source file at [src ++ r]; a directory is on the way to the copy of
    some source file.  [copied] holds of the source files already copied. *)
Definition mirror_at (copied : fpath -> Prop) (fs : FS) (src r : fpath) (e : entry) : Prop :=
  (exists c, e = File c /\ copied r /\ fs !! (src ++ r) = Some (File c)) \/
  (e = Dir /\ exists r' c,
      r `prefix_of` r' /\ r <> r' /\ copied r' /\ fs !! (src ++ r') = Some (File c)).

(** The state of the output directory while the files are copied; [fs0] is
    the file system the loop started from. *)
Record copying (copied : fpath -> Prop) (fs0 : FS) (src out : fpath) (fs : FS) : Prop := {
  copying_dirs : forall q, q <> [] -> q `prefix_of` out -> fs !! q = Some Dir;
  copying_frame : forall k, ~ out `prefix_of` k -> fs !! k = fs0 !! k;
  copying_below : forall r e, r <> [] -> fs !! (out ++ r) = Some e <-> mirror_at copied fs0 src r e
}.

Lemma mirror_at_iff (copied copied' : fpath -> Prop) fs src r e :
  (forall r, copied r <-> copied' r) ->
  mirror_at copied fs src r e <-> mirror_at copied' fs src r e.
Proof.
  intros H. unfold mirror_at. split.
  - intros [(c & ? & ?%H & ?)|(? & r' & c & ? & ? & ?%H & ?)]; [left|right]; eauto 10.
  - intros [(c & ? & ?%H & ?)|(? & r' & c & ? & ? & ?%H & ?)]; [left|right]; eauto 10.
Qed.

Lemma copying_iff (copied copied' : fpath -> Prop) fs0 src out fs :
  (forall r, copied r <-> copied' r) ->
  copying copied fs0 src out fs -> copying copied' fs0 src out fs.
Proof.
  intros H [H1 H2 H3]. split; [done..|].
  intros r e Hr. rewrite (H3 r e Hr). by apply mirror_at_iff.
Qed.

Lemma copyFile_step copied fs0 src out r e st st' t :
  out <> [] ->
  (forall r, ~ out `prefix_of` src ++ r) ->
  r <> [] -> fs0 !! (src ++ r) = Some e ->
  copying copied fs0 src out (st_fs st) ->
  copyFile src out (Fs.dirent_of (src ++ r) e) st = (Ret tt, st', t) ->
  copying (fun r' => copied r' \/ (r' = r /\ exists c, e = File c)) fs0 src out (st_fs st') /\
  st_env st' = st_env st.
Proof.
  intros Hout Hsep Hr Hsrc Hinv Hrun.
  apply copyFile_run in Hrun; [|done].
  destruct e as [c0|].
  2: { subst st'. split; [|done]. eapply copying_iff; [|done].
       intros r'. split; [by left|]. by intros [?|[_ [c ?]]]. }
  destruct Hrun as (fsB & fsC & HB & HC & ->). cbn [st_fs st_env]. split; [|done].
  destruct Hinv as [Hdirs Hframe Hbelow]. set (fsA := st_fs st) in *.
  assert (fsA !! (src ++ r) = Some (File c0)) as HsrcA by (by rewrite Hframe).
  assert (forall k x, fsA !! k = Some x -> fsB !! k = Some x) as Hkeep.
  { intros k x Hk. destruct (Fs.exists_ fsA _); [by subst|].
    by eapply mkdir_p_keeps. }
  assert (forall k x, fsB !! k = Some x ->
            fsA !! k = Some x \/
            (x = Dir /\ k <> [] /\ k `prefix_of` out ++ removelast r)) as Hnew.
  { intros k x Hk. destruct (Fs.exists_ fsA _); [subst; by left|].
    destruct (mkdir_p_spec _ _ _ _ HB k) as [H1 H2].
    destruct (decide (k = [])) as [->|Hk0]; [left; by rewrite <- H2; auto|].
    destruct (decide (k `prefix_of` out ++ removelast r)) as [Hp|Hp].
    - right. destruct (H1 Hk0 Hp) as [Hd _]. split; [congruence|done].
    - left. by rewrite <- H2; auto. }
  apply cp_spec in HC as (c & HsrcB & -> & HdstB & HparB).
  assert (src ++ r <> []) as Hk1 by (by destruct src, r).
  assert (out ++ r <> []) as Hk2 by (by destruct out).
  assert (fsB !! (src ++ r) = Some (File c)) as HsrcB'.
  { revert HsrcB. unfold Fs.stat. by destruct (src ++ r). }
  assert (c = c0) as -> by (apply Hkeep in HsrcA; congruence).
  assert (fsB !! (out ++ r) <> Some Dir) as HdstB'.
  { revert HdstB. unfold Fs.stat. by destruct (out ++ r). }
  assert (fsB !! (out ++ removelast r) = Some Dir) as HparB'.
  { revert HparB. unfold dirname. rewrite removelast_app by done.
    unfold Fs.stat. destruct (out ++ removelast r) eqn:E; [|done].
    by destruct out. }
  assert (forall q, q <> [] -> q `prefix_of` removelast r -> fsB !! (out ++ q) = Some Dir)
    as Hway.
  { intros q Hq Hpre. destruct (Fs.exists_ fsA (out ++ removelast r)) eqn:Hex.
    - subst fsB. destruct (removelast r) as [|x l] eqn:El.
      { apply prefix_nil_inv in Hpre. done. }
      apply Hbelow in HparB'; [|done].
      destruct HparB' as [(c & ? & _)|(_ & r' & c & Hp1 & Hp2 & Hc & Hf)]; [done|].
      apply Hbelow; [done|]. right. split; [done|]. exists r', c.
      split; [by etrans|]. split; [|done].
      intros ->. apply Hp2. by apply (anti_symm prefix).
    - destruct (mkdir_p_spec _ _ _ _ HB (out ++ q)) as [H1 _].
      apply H1; [by destruct out|]. by apply prefix_app. }
  split.
  - intros q Hq Hpre. rewrite lookup_insert_ne.
    + eauto.
    + intros <-. apply prefix_length in Hpre. rewrite length_app in Hpre.
      destruct r; [done|]. cbn in Hpre. lia.
  - intros k Hk. rewrite lookup_insert_ne by (intros <-; apply Hk; by exists r).
    rewrite <- Hframe by done.
    destruct (fsB !! k) as [x|] eqn:E.
    + apply Hnew in E as [E|(-> & Hk0 & Hp)]; [done|].
      destruct (prefix_weak_total _ _ _ Hp (prefix_app_r out out (removelast r) (reflexivity _)))
        as [Hko|Hok]; [|done].
      symmetry. eauto.
    + destruct (fsA !! k) as [x|] eqn:E'; [|done]. apply Hkeep in E'. congruence.
  - intros r1 e1 Hr1. destruct (decide (r1 = r)) as [->|Hne].
    + rewrite lookup_insert_eq. split.
      * intros [= <-]. left. exists c0. split; [done|]. split; [|done]. right. eauto.
      * intros [(c & -> & _ & Hc)|(-> & r' & c & Hp1 & Hp2 & [Hc|[-> _]] & Hf)].
        -- congruence.
        -- exfalso. apply HdstB'. apply Hkeep. apply Hbelow; [done|].
           right. split; [done|]. by exists r', c.
        -- done.
    + rewrite lookup_insert_ne by (intros ?%(inj (app out)); done). split.
      * intros Hk. apply Hnew in Hk as [Hk|(-> & _ & Hp)].
        -- apply Hbelow in Hk; [|done].
           destruct Hk as [(c & ? & ? & ?)|(? & r' & c & ? & ? & ? & ?)]; [left|right]; eauto 10.
        -- right. split; [done|]. exists r, c0. apply prefix_under in Hp.
           apply prefix_removelast in Hp as [? ?]; [|done].
           repeat split; [done..| |done]. right. eauto.
      * intros [(c & -> & [Hc|[-> _]] & Hf)|(-> & r' & c & Hp1 & Hp2 & [Hc|[-> _]] & Hf)].
        -- apply Hkeep, Hbelow; [done|]. left. eauto.
        -- done.
        -- apply Hkeep, Hbelow; [done|]. right. split; [done|]. by exists r', c.
        -- apply Hway; [done|]. by apply prefix_removelast.
Qed.

Lemma dirent_of_inj (k k' : fpath) (e e' : entry) :
  k <> [] -> k' <> [] -> Fs.dirent_of k e = Fs.dirent_of k' e' ->
  k = k' /\ (forall c, e = File c -> exists c', e' = File c').
Proof.
  intros Hk Hk' Heq. split.
  - rewrite <- (dirent_full_path k e), <- (dirent_full_path k' e') by done.
    by rewrite Heq.
  - intros c ->. apply (f_equal isFile) in Heq. destruct e'; [eauto|done].
Qed.

Lemma copy_loop fs0 src out files copied st st' t :
  out <> [] -> src <> [] ->
  (forall r, ~ out `prefix_of` src ++ r) ->
  Forall (fun d => exists r e,
              r <> [] /\ fs0 !! (src ++ r) = Some e /\ d = Fs.dirent_of (src ++ r) e) files ->
  copying copied fs0 src out (st_fs st) ->
  for_of files (copyFile src out) st = (Ret tt, st', t) ->
  copying (fun r => copied r \/
                    exists c, fs0 !! (src ++ r) = Some (File c) /\
                              Fs.dirent_of (src ++ r) (File c) ∈ files)
          fs0 src out (st_fs st') /\
  st_env st' = st_env st.
Proof.
  intros Hout Hsrc Hsep Hfiles. revert copied st t.
  induction Hfiles as [|d files (r & e & Hr & He & ->) Hfiles IH]; intros copied st t Hinv Hrun.
  { injection Hrun as <- _. split; [|done]. eapply copying_iff; [|done].
    intros r. split; [by left|]. intros [?|(c & _ & Hin)]; [done|].
    by apply elem_of_nil in Hin. }
  apply for_of_ret in Hrun as (st1 & t1 & t2 & Hstep & Hrest & _).
  destruct (copyFile_step _ _ _ _ _ _ _ _ _ Hout Hsep Hr He Hinv Hstep) as [Hinv1 Henv1].
  destruct (IH _ _ _ Hinv1 Hrest) as [Hinv2 Henv2].
  split; [|congruence]. eapply copying_iff; [|done].
  intros r'. split.
  - intros [[?|[-> [c ->]]]|(c & Hc & Hin)].
    + by left.
    + right. exists c. split; [done|]. by left.
    + right. exists c. split; [done|]. by right.
  - intros [?|(c & Hc & Hin)]; [by left; left|].
    apply elem_of_cons in Hin as [Heq|Hin].
    + left. right. apply dirent_of_inj in Heq as [Heq Hfile].
      * apply app_inv_head in Heq as ->. split; [done|]. by apply (Hfile c).
      * by destruct src.
      * by destruct src.
    + right. by exists c.
Qed.

(** The output directory after its removal and re-creation. *)
Lemma reset_spec out fs fs1 fsR :
  out <> [] ->
  (forall r, is_Some (fs !! (out ++ r)) -> is_Some (fs !! out)) ->
  (if Fs.exists_ fs out then Fs.rm_rf faulty out fs = Some fs1 else fs1 = fs) ->
  Fs.mkdir_p faulty out fs1 = Some fsR ->
  (forall q, q <> [] -> q `prefix_of` out -> fsR !! q = Some Dir) /\
  (forall r, r <> [] -> fsR !! (out ++ r) = None) /\
  (forall k, ~ out `prefix_of` k -> k = [] \/ ~ k `prefix_of` out -> fsR !! k = fs !! k).
Proof.
  intros Hout Hclosed Hrm Hmk.
  assert (forall k, fs1 !! k = if decide (out `prefix_of` k) then None else fs !! k) as H1.
  { destruct (Fs.exists_ fs out) eqn:Hex.
    - by apply (rm_rf_spec faulty).
    - subst fs1. intros k. destruct (decide _) as [[r ->]|]; [|done].
      destruct (fs !! (out ++ r)) as [e|] eqn:E; [|done].
      destruct (Hclosed r) as [e' He']; [by rewrite E|].
      rewrite (exists_true _ _ e') in Hex; [done|].
      unfold Fs.stat. by destruct out. }
  split; [|split].
  - intros q Hq Hp. by apply (mkdir_p_spec _ _ _ _ Hmk q).
  - intros r Hr. destruct (mkdir_p_spec _ _ _ _ Hmk (out ++ r)) as [_ H2].
    rewrite H2, H1.
    + rewrite decide_True; [done|]. by exists r.
    + right. intros Hp. apply prefix_length in Hp. rewrite length_app in Hp.
      destruct r; [done|]. cbn in Hp. lia.
  - intros k Hk Hk'. destruct (mkdir_p_spec _ _ _ _ Hmk k) as [_ H2].
    rewrite H2, H1 by done. by rewrite decide_False.
Qed.

(** The license file [copyLicense] settles on. *)
Fixpoint first_license (fs : FS) (vendorPath : fpath) (names : list string) : option fpath :=
  match names with
  | [] => None
  | licenseName :: rest =>
      if Fs.exists_ fs (vendorPath ++ [licenseName]) then Some (vendorPath ++ [licenseName])
      else first_license fs vendorPath rest
  end.

Lemma copyLicense_run vendorPath out names st st' t :
  copyLicense vendorPath out names st = (Ret tt, st', t) ->
  match first_license (st_fs st) vendorPath names with
  | None => st' = st
  | Some lp =>
      exists fs', Fs.cp faulty lp (out ++ ["LICENSE.md"]) (st_fs st) = Some fs' /\
                  st' = {| st_fs := fs'; st_env := st_env st |}
  end.
Proof.
  induction names as [|n names IH]; cbn [copyLicense first_license].
  { by intros [= <- _]. }
  rewrite (bind_quiet _ _ _ _ (existsSync_run _ _)). unfold join.
  destruct (Fs.exists_ (st_fs st) (vendorPath ++ [n])); [|done].
  intros H. apply change_run in H as (fs' & ? & ->). by exists fs'.
Qed.

Lemma first_license_agree fs fs' vendorPath names :
  (forall n, fs' !! (vendorPath ++ [n]) = fs !! (vendorPath ++ [n])) ->
  first_license fs' vendorPath names = first_license fs vendorPath names.
Proof.
  intros H. induction names as [|n names IH]; [done|].
  cbn [first_license]. rewrite IH.
  replace (Fs.exists_ fs' (vendorPath ++ [n])) with (Fs.exists_ fs (vendorPath ++ [n])); [done|].
  unfold Fs.exists_, Fs.stat. destruct (vendorPath ++ [n]) eqn:E; [done|].
  rewrite <- E. by rewrite H.
Qed.

Lemma first_license_shape fs vendorPath names lp :
  first_license fs vendorPath names = Some lp -> exists n, lp = vendorPath ++ [n].
Proof.
  induction names as [|n names IH]; [done|]. cbn [first_license].
  destruct (Fs.exists_ _ _); [|done]. intros [= <-]. by exists n.
Qed.

Definition rev_parse : string := "git rev-parse HEAD".

(** What git answers to [rev-parse]: the command reads the database and
    changes nothing. *)
Definition reads_head (head : Env -> fpath -> outcome string) : Prop :=
  forall cwd fs env, execSync rev_parse cwd fs env = (head env cwd, fs, env).

Definition sha_of (head : Env -> fpath -> outcome string) (env : Env) (dir : fpath) : option string :=
  match head env dir with
  | Ret out => Some (Js.trim out)
  | Throw _ => None
  end.

Lemma getGitSha_run head dir st :
  reads_head head ->
  getGitSha dir st = (Ret (sha_of head (st_env st) dir), st, [EExec rev_parse dir]).
Proof.
  intros Hh. unfold getGitSha, execSafe, try_catch, M_bind, exec, M_ret, sha_of.
  fold rev_parse. rewrite Hh. destruct st. by destruct (head _ _).
Qed.

Definition apart (out k : fpath) : Prop := ~ out `prefix_of` k /\ ~ k `prefix_of` out.

(** The output directory of a pair after its round of the loop; [fs] is the
    file system before the round, [data] the text of [SYNC.md]. *)
Record synced (fs : FS) (vendorPath src out : fpath) (data : string) (fs' : FS) : Prop := {
  synced_dirs : forall q, q <> [] -> q `prefix_of` out -> fs' !! q = Some Dir;
  synced_frame :
    forall k, ~ out `prefix_of` k -> k = [] \/ ~ k `prefix_of` out -> fs' !! k = fs !! k;
  synced_record : fs' !! (out ++ ["SYNC.md"]) = Some (File data);
  synced_license :
    forall lp, first_license fs vendorPath licenseNames = Some lp ->
               exists c, fs !! lp = Some (File c) /\
                         fs' !! (out ++ ["LICENSE.md"]) = Some (File c);
  synced_below :
    forall r e,
      r <> [] -> r <> ["SYNC.md"] ->
      (r = ["LICENSE.md"] -> first_license fs vendorPath licenseNames = None) ->
      fs' !! (out ++ r) = Some e <-> mirror_at (fun _ => True) fs src r e
}.

Definition sync_data (head : Env -> fpath -> outcome string) (env : Env)
    (vendorName sourceSkillName : string) (vendorPath : fpath) : string :=
  syncContent vendorName sourceSkillName (sha_of head env vendorPath)
    (Js.split_head "T" (clock env)).

Lemma emit_ret ev st st' t : emit ev st = (Ret tt, st', t) -> st' = st.
Proof. by intros [= <- _]. Qed.

Lemma syncSkill_skip vendorName vendorPath vendorSkillsPath s o st :
  Fs.exists_ (st_fs st) (vendorSkillsPath ++ [s]) = false ->
  syncSkill vendorName vendorPath vendorSkillsPath (s, o) st
  = (Ret tt, st,
     [ELogWarn ("Skill not found: vendor/" +:+ vendorName +:+ "/skills/" +:+ s)]).
Proof.
  intros Hex. unfold syncSkill, join.
  rewrite (bind_quiet _ _ _ _ (existsSync_run _ _)). by rewrite Hex.
Qed.

Lemma syncSkill_synced head vendorName vendorPath vendorSkillsPath s o st st' t :
  reads_head head ->
  let src := vendorSkillsPath ++ [s] in
  let out := ["skills"; o] in
  (forall r, apart out (src ++ r)) ->
  (forall n, apart out (vendorPath ++ [n])) ->
  (forall r, is_Some (st_fs st !! (out ++ r)) -> is_Some (st_fs st !! out)) ->
  Fs.exists_ (st_fs st) src = true ->
  syncSkill vendorName vendorPath vendorSkillsPath (s, o) st = (Ret tt, st', t) ->
  synced (st_fs st) vendorPath src out
         (sync_data head (st_env st) vendorName s vendorPath) (st_fs st') /\
  st_env st' = st_env st.
Proof.
  intros Hhead src out Hsrc Hlic Hclosed Hex.
  assert (src <> []) as Hsrc0 by (subst src; by destruct vendorSkillsPath).
  unfold syncSkill, join. change (root ++ ["skills"; o]) with out. fold src.
  rewrite (bind_quiet _ _ _ _ (existsSync_run _ _)), Hex. cbn [negb].
  intros H. apply bind_ret in H as ([] & st0 & ? & ? & ->%emit_ret & H & _).
  rewrite (bind_quiet _ _ _ _ (existsSync_run _ _)) in H.
  apply bind_ret in H as ([] & st1 & ? & ? & Hrm & H & _).
  apply bind_ret in H as ([] & stR & ? & ? & Hmk & H & _).
  apply bind_ret in H as (files & stR' & ? & ? & Hls & H & _).
  apply bind_ret in H as ([] & stM & ? & ? & Hcopy & H & _).
  apply bind_ret in H as ([] & stL & ? & ? & Hlicense & H & _).
  apply bind_ret in H as (sha & stL' & ? & ? & Hsha & H & _).
  rewrite (getGitSha_run head _ _ Hhead) in Hsha. injection Hsha as <- <- _.
  unfold now_iso at 1 in H. rewrite (bind_quiet _ _ _ (clock (st_env stL))) in H by done.
  apply bind_ret in H as ([] & stW & ? & ? & Hwrite & ->%emit_ret & _).
  (* the removal and the re-creation *)
  assert (exists fs1, st1 = {| st_fs := fs1; st_env := st_env st |} /\
            if Fs.exists_ (st_fs st) out then Fs.rm_rf faulty out (st_fs st) = Some fs1
            else fs1 = st_fs st) as (fs1 & -> & Hrm').
  { destruct (Fs.exists_ (st_fs st) out).
    - apply change_run in Hrm as (fs1 & ? & ->). by exists fs1.
    - injection Hrm as <-. exists (st_fs st). by destruct st. }
  apply change_run in Hmk as (fsR & Hmk & ->). cbn [st_fs st_env] in *.
  destruct (reset_spec out _ _ _ ltac:(done) Hclosed Hrm' Hmk) as (HR1 & HR2 & HR3).
  (* the copies *)
  unfold readdirSync in Hls. cbn [st_fs] in Hls.
  destruct (Fs.readdir src fsR) as [files'|] eqn:Hdir; [|done]. injection Hls as -> <-.
  apply readdir_spec in Hdir as [_ Hfiles].
  assert (copying (fun _ => False) fsR src out fsR) as Hinv.
  { split; [done..|]. intros r e Hr. rewrite HR2 by done. split; [done|].
    by intros [(? & _ & [] & _)|(_ & ? & ? & _ & _ & [] & _)]. }
  assert (Forall (fun d => exists r e,
              r <> [] /\ fsR !! (src ++ r) = Some e /\ d = Fs.dirent_of (src ++ r) e) files)
    as Hall.
  { apply Forall_forall. intros d (k & e & Hk & [r ->] & Hne & ->)%Hfiles.
    exists r, e. split; [|done]. intros ->. by rewrite app_nil_r in Hne. }
  destruct (copy_loop fsR src out files (fun _ => False)
              {| st_fs := fsR; st_env := st_env st |} _ _ ltac:(done) Hsrc0
              (fun r => proj1 (Hsrc r)) Hall Hinv Hcopy) as [HM HenvM].
  cbn [st_fs st_env] in *.
  destruct HM as [HM1 HM2 HM3].
  assert (forall k, ~ out `prefix_of` k -> k = [] \/ ~ k `prefix_of` out ->
            st_fs stM !! k = st_fs st !! k) as HframeM.
  { intros k H1 H2. by rewrite HM2, HR3. }
  assert (forall r e, r <> [] ->
            st_fs stM !! (out ++ r) = Some e <-> mirror_at (fun _ => True) (st_fs st) src r e)
    as HbelowM.
  { intros r e Hr. rewrite (HM3 r e Hr).
    assert (forall r', fsR !! (src ++ r') = st_fs st !! (src ++ r')) as Hsame.
    { intros r'. apply HR3; [apply Hsrc|right; apply Hsrc]. }
    assert (forall r' c, r' <> [] -> fsR !! (src ++ r') = Some (File c) ->
              Fs.dirent_of (src ++ r') (File c) ∈ files) as Hlisted.
    { intros r' c Hr' Hc. apply Hfiles. exists (src ++ r'), (File c).
      repeat split; [done|by exists r'|by apply app_ne_self]. }
    unfold mirror_at. split.
    - intros [(c & ? & _ & Hc)|(? & r' & c & ? & ? & _ & Hc)]; rewrite Hsame in Hc;
        [left|right]; eauto 10.
    - intros [(c & ? & _ & Hc)|(? & r' & c & Hp & Hn & _ & Hc)]; rewrite <- Hsame in Hc.
      + left. exists c. repeat split; [done| |done]. right. eauto.
      + right. split; [done|]. exists r', c. repeat split; [done..| |done].
        right. exists c. split; [done|]. apply Hlisted; [|done].
        intros ->. apply prefix_nil_inv in Hp. done. }
  (* the license *)
  apply copyLicense_run in Hlicense.
  rewrite (first_license_agree (st_fs st)) in Hlicense.
  2: { intros n. apply HframeM; [apply Hlic|right; apply Hlic]. }
  (* the record *)
  apply change_run in Hwrite as (fsW & Hput & ->). cbn [st_fs st_env].
  apply put_spec in Hput as (-> & _ & _).
  assert (st_env stL = st_env st) as HenvL.
  { destruct (first_license _ _ _); [|by subst].
    destruct Hlicense as (? & _ & ->). done. }
  rewrite HenvL. split; [|congruence].
  fold (sync_data head (st_env st) vendorName s vendorPath).
  assert (forall k, k <> out ++ ["LICENSE.md"] -> st_fs stL !! k = st_fs stM !! k) as HL.
  { intros k Hk. destruct (first_license _ _ _); [|by subst].
    destruct Hlicense as (fsL & (c & _ & -> & _)%cp_spec & ->). cbn [st_fs].
    by rewrite lookup_insert_ne. }
  split.
  - intros q Hq Hp.
    assert (forall y, q <> out ++ [y]) as Hlen.
    { intros y ->. apply prefix_length in Hp. rewrite length_app in Hp. cbn in Hp. lia. }
    rewrite lookup_insert_ne, HL by done. by apply HM1.
  - intros k Hk1 Hk2.
    assert (forall y, k <> out ++ [y]) as Hne.
    { intros y ->. apply Hk1. by eexists. }
    rewrite lookup_insert_ne, HL by done. by apply HframeM.
  - apply lookup_insert_eq.
  - intros lp Hlp. rewrite Hlp in Hlicense.
    destruct Hlicense as (fsL & (c & Hc & -> & _)%cp_spec & ->). cbn [st_fs].
    apply first_license_shape in Hlp as [n ->].
    exists c. split.
    + rewrite <- HframeM; [|apply Hlic|right; apply Hlic].
      revert Hc. unfold Fs.stat. by destruct (vendorPath ++ [n]).
    + rewrite lookup_insert_ne by (intros ?%(inj (app out)); done).
      apply lookup_insert_eq.
  - intros r e Hr Hr1 Hr2.
    rewrite lookup_insert_ne by (intros ?%(inj (app out)); done).
    rewrite <- (HbelowM r e Hr).
    destruct (decide (r = ["LICENSE.md"])) as [->|Hne].
    + rewrite Hr2 in Hlicense by done. by subst.
    + rewrite HL; [done|]. intros ?%(inj (app out)); done.
Qed.

(** *** [sync]: the loops *)

Definition vendor_path (vendorName : string) : fpath := ["vendor"; vendorName].
Definition source_path (vendorName sourceSkillName : string) : fpath :=
  ["vendor"; vendorName; "skills"; sourceSkillName].
Definition output_path (outputSkillName : string) : fpath := ["skills"; outputSkillName].

(** The output names of a list of vendors. *)
Definition outputs (vs : list (string * VendorSkillMeta)) : list string :=
  flat_map (fun v => map snd (skills v.2)) vs.

(** Nothing lies below an output directory that does not exist. *)
Definition tidy (fs : FS) : Prop :=
  forall o r, is_Some (fs !! (output_path o ++ r)) -> is_Some (fs !! output_path o).

Lemma apart_vendor o rest : apart (output_path o) ("vendor" :: rest).
Proof. split; intros [k Hk]; unfold output_path in Hk; cbn in Hk; by injection Hk. Qed.

Lemma output_path_prefix o k :
  k `prefix_of` output_path o -> k = [] \/ k = ["skills"] \/ k = output_path o.
Proof.
  unfold output_path. intros [r Hk]. destruct k as [|a [|b [|c k]]]; cbn in Hk.
  - by left.
  - injection Hk as <- _. by right; left.
  - injection Hk as <- <- _. by right; right.
  - by injection Hk.
Qed.

Lemma output_path_other o o' r : o <> o' -> ~ output_path o `prefix_of` output_path o' ++ r.
Proof. intros Hne [k Hk]. unfold output_path in Hk. cbn in Hk. by injection Hk. Qed.

Lemma syncVendor_run vendorName config st :
  syncVendor (vendorName, config) st =
    if Fs.exists_ (st_fs st) (vendor_path vendorName) then
      if Fs.exists_ (st_fs st) (vendor_path vendorName ++ ["skills"]) then
        for_of (skills config)
          (syncSkill vendorName (vendor_path vendorName) (vendor_path vendorName ++ ["skills"])) st
      else (Ret tt, st, [ELogWarn ("No skills directory in vendor/" +:+ vendorName +:+ "/skills/")])
    else (Ret tt, st,
          [ELogWarn ("Vendor submodule not found: " +:+ vendorName +:+ ". Run init first.")]).
Proof.
  unfold syncVendor, join. change (root ++ ["vendor"; vendorName]) with (vendor_path vendorName).
  rewrite (bind_quiet _ _ _ _ (existsSync_run _ _)).
  destruct (Fs.exists_ (st_fs st) (vendor_path vendorName)); cbn [negb]; [|done].
  rewrite (bind_quiet _ _ _ _ (existsSync_run _ _)).
  by destruct (Fs.exists_ (st_fs st) (vendor_path vendorName ++ ["skills"])).
Qed.

(** What a round of the inner loop leaves alone. *)
Lemma syncSkill_frame head vendorName s o st st' t :
  reads_head head -> tidy (st_fs st) ->
  syncSkill vendorName (vendor_path vendorName) (vendor_path vendorName ++ ["skills"]) (s, o) st
  = (Ret tt, st', t) ->
  st_env st' = st_env st /\ tidy (st_fs st') /\
  (st_fs st !! ["skills"] = Some Dir -> st_fs st' !! ["skills"] = Some Dir) /\
  forall k, ~ output_path o `prefix_of` k -> k <> ["skills"] -> st_fs st' !! k = st_fs st !! k.
Proof.
  intros Hhead Htidy Hrun.
  destruct (Fs.exists_ (st_fs st) ((vendor_path vendorName ++ ["skills"]) ++ [s])) eqn:Hex.
  2: { rewrite syncSkill_skip in Hrun by done. by injection Hrun as <- _. }
  apply (syncSkill_synced head) in Hrun as [[H1 H2 _ _ _] Henv]; [|done|..|done].
  2: { intros r. apply apart_vendor. }
  2: { intros n. apply apart_vendor. }
  2: { apply Htidy. }
  assert (forall k, ~ output_path o `prefix_of` k -> k <> ["skills"] ->
            st_fs st' !! k = st_fs st !! k) as Hframe.
  { intros k Hk Hk'. apply H2; [done|].
    destruct (decide (k = [])) as [->|Hk0]; [by left|right].
    intros [?|[?|?]]%output_path_prefix; [done..|]. subst k. by apply Hk. }
  split; [done|]. split; [|split; [|done]].
  - intros o' r Hsome. destruct (decide (o' = o)) as [->|Hne].
    + rewrite (H1 (output_path o)); [by eexists|done|done].
    + rewrite Hframe in Hsome; [|by apply output_path_other|by destruct r].
      rewrite Hframe; [by apply (Htidy o' r)| |done].
      rewrite <- (app_nil_r (output_path o')). by apply output_path_other.
  - intros _. apply H1; [done|]. by exists [o].
Qed.

Lemma exists_agree fs fs' p : fs' !! p = fs !! p -> Fs.exists_ fs' p = Fs.exists_ fs p.
Proof.
  intros H. unfold Fs.exists_, Fs.stat. destruct p; [done|]. by rewrite H.
Qed.

Lemma vendor_not_output o rest : ~ output_path o `prefix_of` "vendor" :: rest.
Proof. apply apart_vendor. Qed.

(** The inner loop changes nothing outside the output directories of the
    pairs whose source exists, save for creating [skills] itself. *)
Lemma skills_loop_frame head vendorName pairs st st' t :
  reads_head head -> tidy (st_fs st) ->
  for_of pairs
    (syncSkill vendorName (vendor_path vendorName) (vendor_path vendorName ++ ["skills"])) st
  = (Ret tt, st', t) ->
  st_env st' = st_env st /\ tidy (st_fs st') /\
  (st_fs st !! ["skills"] = Some Dir -> st_fs st' !! ["skills"] = Some Dir) /\
  forall k,
    (forall s o, (s, o) ∈ pairs ->
                 Fs.exists_ (st_fs st) (source_path vendorName s) = true ->
                 ~ output_path o `prefix_of` k /\ k <> ["skills"]) ->
    st_fs st' !! k = st_fs st !! k.
Proof.
  intros Hhead. revert st t. induction pairs as [|[s o] pairs IH]; intros st t Htidy Hrun.
  { by injection Hrun as <- _. }
  apply for_of_ret in Hrun as (st1 & t1 & t2 & Hstep & Hrest & _).
  pose proof Hstep as Hstep'.
  apply (syncSkill_frame head) in Hstep as (Henv1 & Htidy1 & Hkeep1 & Hframe1); [|done..].
  apply IH in Hrest as (Henv2 & Htidy2 & Hkeep2 & Hframe2); [|done].
  split; [congruence|]. split; [done|]. split; [auto|].
  intros k Hk. rewrite Hframe2; [|intros s' o' Hin Hex].
  - destruct (Fs.exists_ (st_fs st) (source_path vendorName s)) eqn:Hex.
    + apply Hframe1; apply (Hk s o); (by left) || done.
    + rewrite syncSkill_skip in Hstep' by done. by injection Hstep' as <- _.
  - apply (Hk s' o'); [by right|]. rewrite <- Hex. symmetry.
    apply exists_agree, Hframe1; [apply vendor_not_output|done].
Qed.

Lemma syncVendor_frame head vendorName config st st' t :
  reads_head head -> tidy (st_fs st) ->
  syncVendor (vendorName, config) st = (Ret tt, st', t) ->
  st_env st' = st_env st /\ tidy (st_fs st') /\
  (st_fs st !! ["skills"] = Some Dir -> st_fs st' !! ["skills"] = Some Dir) /\
  forall k,
    (forall s o, (s, o) ∈ skills config ->
                 Fs.exists_ (st_fs st) (source_path vendorName s) = true ->
                 ~ output_path o `prefix_of` k /\ k <> ["skills"]) ->
    st_fs st' !! k = st_fs st !! k.
Proof.
  intros Hhead Htidy. rewrite syncVendor_run.
  destruct (Fs.exists_ _ _); [|by intros [= <- _]].
  destruct (Fs.exists_ _ _); [|by intros [= <- _]].
  by apply (skills_loop_frame head).
Qed.

Lemma vendors_loop_frame head vs st st' t :
  reads_head head -> tidy (st_fs st) ->
  for_of vs syncVendor st = (Ret tt, st', t) ->
  st_env st' = st_env st /\ tidy (st_fs st') /\
  (st_fs st !! ["skills"] = Some Dir -> st_fs st' !! ["skills"] = Some Dir) /\
  forall k,
    (forall vendorName config s o,
        (vendorName, config) ∈ vs -> (s, o) ∈ skills config ->
        Fs.exists_ (st_fs st) (source_path vendorName s) = true ->
        ~ output_path o `prefix_of` k /\ k <> ["skills"]) ->
    st_fs st' !! k = st_fs st !! k.
Proof.
  intros Hhead. revert st t. induction vs as [|[vn cfg] vs IH]; intros st t Htidy Hrun.
  { by injection Hrun as <- _. }
  apply for_of_ret in Hrun as (st1 & t1 & t2 & Hstep & Hrest & _).
  apply (syncVendor_frame head) in Hstep as (Henv1 & Htidy1 & Hkeep1 & Hframe1); [|done..].
  apply IH in Hrest as (Henv2 & Htidy2 & Hkeep2 & Hframe2); [|done].
  split; [congruence|]. split; [done|]. split; [auto|].
  intros k Hk. rewrite Hframe2; [|intros vn' cfg' s' o' Hv Hp Hex].
  - apply Hframe1. intros s o Hp Hex. apply (Hk vn cfg s o); [by left|done..].
  - apply (Hk vn' cfg' s' o'); [by right|done|]. rewrite <- Hex. symmetry.
    apply exists_agree, Hframe1.
    intros s o _ _. split; [apply vendor_not_output|done].
Qed.

(** Outside [skills] the loops change nothing. *)
Lemma outside_skills o k :
  ~ ["skills"] `prefix_of` k -> ~ output_path o `prefix_of` k /\ k <> ["skills"].
Proof.
  intros Hk. split.
  - intros [r ->]. apply Hk. by exists (o :: r).
  - intros ->. by apply Hk.
Qed.

Lemma for_of_app_ret {A} (xs ys : list A) (body : A -> M unit) st st' t :
  for_of (xs ++ ys) body st = (Ret tt, st', t) ->
  exists st1 t1 t2,
    for_of xs body st = (Ret tt, st1, t1) /\ for_of ys body st1 = (Ret tt, st', t2) /\
    t = t1 ++ t2.
Proof.
  revert st t. induction xs as [|x xs IH]; intros st t Hrun.
  { by exists st, [], t. }
  cbn [app] in Hrun. apply for_of_ret in Hrun as (st1 & t1 & t2 & Hx & Hrest & ->).
  apply IH in Hrest as (st2 & t3 & t4 & Hxs & Hys & ->).
  exists st2, (t1 ++ t3), t4. split; [|split; [done|by rewrite app_assoc]].
  rewrite for_of_cons, Hx. by rewrite Hxs.
Qed.

Definition same_outside_skills (fs fs' : FS) : Prop :=
  forall k, ~ ["skills"] `prefix_of` k -> fs' !! k = fs !! k.

Lemma output_path_under o o' k :
  output_path o `prefix_of` k -> output_path o' `prefix_of` k -> o' = o.
Proof. intros [r ->] [r' Hk]. unfold output_path in Hk. cbn in Hk. by injection Hk. Qed.

(** The round of one pair inside the whole loop: [fsA] and [fsB] are the
    file systems before and after the round. *)
Lemma sync_pair head vs1 vendorName config vs2 ps1 s o ps2 st st' t :
  reads_head head -> tidy (st_fs st) ->
  skills config = ps1 ++ (s, o) :: ps2 ->
  (forall s', (s', o) ∉ ps2) ->
  (forall vendorName' config' s', (vendorName', config') ∈ vs2 -> (s', o) ∉ skills config') ->
  Fs.exists_ (st_fs st) (vendor_path vendorName) = true ->
  Fs.exists_ (st_fs st) (vendor_path vendorName ++ ["skills"]) = true ->
  Fs.exists_ (st_fs st) (source_path vendorName s) = true ->
  for_of (vs1 ++ (vendorName, config) :: vs2) syncVendor st = (Ret tt, st', t) ->
  st_env st' = st_env st /\
  st_fs st' !! ["skills"] = Some Dir /\
  exists fsA fsB,
    same_outside_skills (st_fs st) fsA /\
    synced fsA (vendor_path vendorName) (source_path vendorName s) (output_path o)
           (sync_data head (st_env st) vendorName s (vendor_path vendorName)) fsB /\
    forall k, output_path o `prefix_of` k -> st_fs st' !! k = fsB !! k.
Proof.
  intros Hhead Htidy Hskills Hps2 Hvs2 Hv Hvs Hsrc Hrun.
  apply for_of_app_ret in Hrun as (st0 & ? & ? & Hpre & Hrun & _).
  apply (vendors_loop_frame head) in Hpre as (Henv0 & Htidy0 & _ & Hframe0); [|done..].
  assert (same_outside_skills (st_fs st) (st_fs st0)) as Hsame0.
  { intros k Hk. apply Hframe0. intros ? ? ? o' _ _ _. by apply outside_skills. }
  apply for_of_ret in Hrun as (stV & ? & ? & Hvendor & Hpost & _).
  rewrite syncVendor_run in Hvendor.
  rewrite (exists_agree (st_fs st)), Hv in Hvendor by (by apply Hsame0; intros [? [=]]).
  rewrite (exists_agree (st_fs st)), Hvs in Hvendor by (by apply Hsame0; intros [? [=]]).
  rewrite Hskills in Hvendor.
  apply for_of_app_ret in Hvendor as (stA & ? & ? & Hps1 & Hvendor & _).
  apply (skills_loop_frame head) in Hps1 as (HenvA & HtidyA & _ & HframeA); [|done..].
  assert (same_outside_skills (st_fs st) (st_fs stA)) as HsameA.
  { intros k Hk. rewrite HframeA, Hsame0; [done..|].
    intros ? o' _ _. by apply outside_skills. }
  apply for_of_ret in Hvendor as (stB & ? & ? & Hstep & Hps2run & _).
  pose proof Hstep as Hstep'.
  apply (syncSkill_frame head) in Hstep' as (HenvB & HtidyB & _); [|done..].
  apply (syncSkill_synced head) in Hstep as [Hsynced _]; [|done|..].
  2: { intros r. apply apart_vendor. }
  2: { intros n. apply apart_vendor. }
  2: { apply HtidyA. }
  2: { change ((vendor_path vendorName ++ ["skills"]) ++ [s]) with (source_path vendorName s).
       rewrite (exists_agree (st_fs st)); [done|]. apply HsameA. by intros [? [=]]. }
  apply (skills_loop_frame head) in Hps2run as (HenvV & HtidyV & HkeepV & HframeV); [|done..].
  apply (vendors_loop_frame head) in Hpost as (Henv' & Htidy' & Hkeep' & Hframe'); [|done..].
  split; [congruence|]. split.
  { apply Hkeep', HkeepV. apply (synced_dirs _ _ _ _ _ _ Hsynced); [done|]. by exists [o]. }
  exists (st_fs stA), (st_fs stB). split; [done|]. split.
  - replace (st_env st) with (st_env stA) by congruence. exact Hsynced.
  - intros k Hk.
    assert (k <> ["skills"]) as Hk'.
    { intros ->. destruct Hk as [? [=]]. }
    rewrite Hframe', HframeV; [done|..].
    + intros s' o' Hin _. split; [|done].
      intros Hpre. apply (output_path_under _ _ _ Hk) in Hpre as ->. by apply (Hps2 s').
    + intros vn' cfg' s' o' Hin Hin' _. split; [|done].
      intros Hpre. apply (output_path_under _ _ _ Hk) in Hpre as ->.
      by apply (Hvs2 vn' cfg' s').
Qed.

Lemma outputs_app vs1 vs2 : outputs (vs1 ++ vs2) = outputs vs1 ++ outputs vs2.
Proof. unfold outputs. apply flat_map_app. Qed.

Lemma elem_of_outputs vs vendorName config s o :
  (vendorName, config) ∈ vs -> (s, o) ∈ skills config -> o ∈ outputs vs.
Proof.
  intros Hv Hp. unfold outputs. apply list_elem_of_In, in_flat_map.
  exists (vendorName, config). split; [by apply list_elem_of_In|].
  apply in_map_iff. exists (s, o). split; [done|]. by apply list_elem_of_In.
Qed.

(** With output names that are pairwise distinct, a configured pair splits
    the registry into the pairs before it and after it, none of which
    writes to its output. *)
Lemma pick_pair vs vendorName config s o :
  NoDup (outputs vs) ->
  (vendorName, config) ∈ vs -> (s, o) ∈ skills config ->
  exists vs1 vs2 ps1 ps2,
    vs = vs1 ++ (vendorName, config) :: vs2 /\
    skills config = ps1 ++ (s, o) :: ps2 /\
    (forall s', ((s', o) ∉ ps1) /\ ((s', o) ∉ ps2)) /\
    (forall vendorName' config' s',
        (vendorName', config') ∈ vs1 ++ vs2 -> (s', o) ∉ skills config').
Proof.
  intros Hnd Hv Hp.
  apply list_elem_of_split in Hv as (vs1 & vs2 & ->).
  apply list_elem_of_split in Hp as (ps1 & ps2 & Hps).
  exists vs1, vs2, ps1, ps2. split; [done|]. split; [done|].
  rewrite outputs_app in Hnd. apply NoDup_app in Hnd as (_ & Hnd1 & Hnd).
  change (outputs ((vendorName, config) :: vs2))
    with (map snd (skills config) ++ outputs vs2) in *.
  apply NoDup_app in Hnd as (Hnd2 & Hnd3 & _).
  rewrite Hps, map_app in *. cbn [map snd] in *.
  apply NoDup_app in Hnd2 as (_ & Hnd4 & Hnd5). apply NoDup_cons in Hnd5 as [Hnd5 _].
  assert (forall (ps : list (string * string)) (s' : string),
            (s', o) ∈ ps -> o ∈ map snd ps) as Hin.
  { intros ps s' H. apply list_elem_of_In, in_map_iff. exists (s', o).
    split; [done|]. by apply list_elem_of_In. }
  split.
  - intros s'. split; intros H%Hin; [|done].
    apply (Hnd4 o); [done|by left].
  - intros vn' cfg' s' [Hvs|Hvs]%elem_of_app Hp.
    + apply (Hnd1 o); [by eapply elem_of_outputs|].
      apply elem_of_app. left. apply elem_of_app. right. by left.
    + apply (Hnd3 o); [|by eapply elem_of_outputs].
      apply elem_of_app. right. by left.
Qed.

(** *** [sync]: the whole run *)

(** Every entry of the file system lies in directories. *)
Definition well_formed (fs : FS) : Prop :=
  forall k q, is_Some (fs !! k) -> q <> [] -> q `prefix_of` k -> q <> k -> fs !! q = Some Dir.

Lemma well_formed_tidy fs : well_formed fs -> tidy fs.
Proof.
  intros Hwf o r Hsome. destruct (decide (r = [])) as [->|Hr].
  { by rewrite app_nil_r in Hsome. }
  rewrite (Hwf (output_path o ++ r) (output_path o)); [by eexists|done|done|by eexists|].
  intros Heq. symmetry in Heq. by apply app_ne_self in Heq.
Qed.

Lemma well_formed_exists fs k q :
  well_formed fs -> is_Some (fs !! k) -> q <> [] -> q `prefix_of` k -> Fs.exists_ fs q = true.
Proof.
  intros Hwf [e Hk] Hq Hp. destruct (decide (q = k)) as [->|Hne].
  - apply (exists_true _ _ e). unfold Fs.stat. by destruct k.
  - apply (exists_true _ _ Dir). unfold Fs.stat. destruct q; [done|].
    apply (Hwf k); [by eexists|done..].
Qed.

Lemma sync_loop_ret st out fs1 env1 :
  execSync update_command root (st_fs st) (st_env st) = (Ret out, fs1, env1) ->
  result (syncSubmodules st) = Ret tt ->
  exists t, for_of vendors syncVendor {| st_fs := fs1; st_env := env1 |}
            = (Ret tt, final (syncSubmodules st), t).
Proof.
  intros Hup Hret. destruct (sync_updated _ _ _ _ Hup) as (Hr & Hf & _).
  rewrite Hr in Hret. rewrite Hf.
  destruct (for_of vendors syncVendor _) as [[[[]|e] st2] t2]; [|done]. by exists t2.
Qed.

(** The pair of a run that completes: [fsA] and [fsB] are the file systems
    before and after the round of the pair. *)
Lemma sync_run_pair head st out fs1 env1 vendorName config s o :
  execSync update_command root (st_fs st) (st_env st) = (Ret out, fs1, env1) ->
  reads_head head -> well_formed fs1 -> NoDup (outputs vendors) ->
  (vendorName, config) ∈ vendors -> (s, o) ∈ skills config ->
  fs1 !! source_path vendorName s = Some Dir ->
  result (syncSubmodules st) = Ret tt ->
  st_env (final (syncSubmodules st)) = env1 /\
  st_fs (final (syncSubmodules st)) !! ["skills"] = Some Dir /\
  exists fsA fsB,
    same_outside_skills fs1 fsA /\
    synced fsA (vendor_path vendorName) (source_path vendorName s) (output_path o)
           (sync_data head env1 vendorName s (vendor_path vendorName)) fsB /\
    forall k, output_path o `prefix_of` k ->
              st_fs (final (syncSubmodules st)) !! k = fsB !! k.
Proof.
  intros Hup Hhead Hwf Hnd Hv Hp Hdir Hret.
  destruct (sync_loop_ret _ _ _ _ Hup Hret) as [t Hloop].
  destruct (pick_pair _ _ _ _ _ Hnd Hv Hp) as (vs1 & vs2 & ps1 & ps2 & Hvs & Hps & Hps' & Hvs').
  rewrite Hvs in Hloop.
  assert (Fs.exists_ fs1 (vendor_path vendorName) = true) as Hex1.
  { apply (well_formed_exists fs1 (source_path vendorName s)); [done|by eexists|done|].
    by exists ["skills"; s]. }
  assert (Fs.exists_ fs1 (vendor_path vendorName ++ ["skills"]) = true) as Hex2.
  { apply (well_formed_exists fs1 (source_path vendorName s)); [done|by eexists|done|].
    by exists [s]. }
  assert (Fs.exists_ fs1 (source_path vendorName s) = true) as Hex3.
  { by apply (exists_true _ _ Dir). }
  apply (sync_pair head vs1 vendorName config vs2 ps1 s o ps2
           {| st_fs := fs1; st_env := env1 |} _ _ Hhead (well_formed_tidy _ Hwf) Hps
           (fun s' => proj2 (Hps' s'))
           (fun vn' cfg' s' Hin => Hvs' vn' cfg' s' (proj2 (elem_of_app _ _ _) (or_intror Hin)))
           Hex1 Hex2 Hex3) in Hloop.
  exact Hloop.
Qed.

(** Outside the license and the record, the files of a synced output
    directory are those of the source. *)
Lemma synced_files fs1 fsA fsB vendorPath vendorName s o data r c :
  same_outside_skills fs1 fsA ->
  fs1 !! source_path vendorName s = Some Dir ->
  synced fsA vendorPath (source_path vendorName s) (output_path o) data fsB ->
  r <> ["LICENSE.md"] -> r <> ["SYNC.md"] ->
  fsB !! (output_path o ++ r) = Some (File c)
  <-> fs1 !! (source_path vendorName s ++ r) = Some (File c).
Proof.
  intros Hsame Hdir Hsynced Hr1 Hr2.
  rewrite <- (Hsame (source_path vendorName s ++ r)) by (by intros [? [=]]).
  destruct (decide (r = [])) as [->|Hr].
  { rewrite !app_nil_r. rewrite (synced_dirs _ _ _ _ _ _ Hsynced) by done.
    rewrite (Hsame (source_path vendorName s)), Hdir by (by intros [? [=]]). done. }
  rewrite (synced_below _ _ _ _ _ _ Hsynced r (File c)) by done.
  unfold mirror_at. split.
  - intros [(c' & [= ->] & _ & ?)|(? & _)]; done.
  - intros ?. left. by exists c.
Qed.

(** C1, as the code has it: after a [sync] that completes, and for a
    configured pair whose source directory exists and whose output name no
    other pair has, the files below [skills/<out>] other than its
    [LICENSE.md] and [SYNC.md] are the files below the vendor's
    [skills/<src>] other than a [LICENSE.md] and a [SYNC.md] at its top,
    with the same relative paths and the same contents; nothing else is
    left in the output directory. *)
Theorem sync_mirrors_source head st out fs1 env1 vendorName config s o :
  execSync update_command root (st_fs st) (st_env st) = (Ret out, fs1, env1) ->
  reads_head head -> well_formed fs1 -> NoDup (outputs vendors) ->
  (vendorName, config) ∈ vendors -> (s, o) ∈ skills config ->
  fs1 !! source_path vendorName s = Some Dir ->
  result (syncSubmodules st) = Ret tt ->
  forall r c,
    r <> ["LICENSE.md"] -> r <> ["SYNC.md"] ->
    st_fs (final (syncSubmodules st)) !! (output_path o ++ r) = Some (File c)
    <-> fs1 !! (source_path vendorName s ++ r) = Some (File c).
Proof.
  intros Hup Hhead Hwf Hnd Hv Hp Hdir Hret r c Hr1 Hr2.
  destruct (sync_run_pair head _ _ _ _ _ _ _ _ Hup Hhead Hwf Hnd Hv Hp Hdir Hret)
    as (_ & _ & fsA & fsB & Hsame & Hsynced & Hfinal).
  rewrite Hfinal by (by eexists).
  by apply (synced_files fs1 fsA fsB (vendor_path vendorName) vendorName s o
              (sync_data head env1 vendorName s (vendor_path vendorName)) r c).
Qed.

(** The text of [SYNC.md], with the recorded hash spelled out. *)
Definition sync_text (vendorName sourceSkillName sha date : string) : string :=
  "# Sync Info" +:+ newline +:+
  newline +:+
  "- **Source:** `vendor/" +:+ vendorName +:+ "/skills/" +:+ sourceSkillName +:+ "`" +:+ newline +:+
  "- **Git SHA:** `" +:+ sha +:+ "`" +:+ newline +:+
  "- **Synced:** " +:+ date +:+ newline.

(** C3, as the code has it: after a [sync] that completes, the [SYNC.md]
    of a synced pair is the fixed text with the source
    [vendor/<name>/skills/<src>], the trimmed answer of [rev-parse] in the
    vendor checkout and the date of the clock; when [rev-parse] fails the
    hash field holds the word null. *)
Theorem sync_record_text head st out fs1 env1 vendorName config s o :
  execSync update_command root (st_fs st) (st_env st) = (Ret out, fs1, env1) ->
  reads_head head -> well_formed fs1 -> NoDup (outputs vendors) ->
  (vendorName, config) ∈ vendors -> (s, o) ∈ skills config ->
  fs1 !! source_path vendorName s = Some Dir ->
  result (syncSubmodules st) = Ret tt ->
  st_fs (final (syncSubmodules st)) !! (output_path o ++ ["SYNC.md"])
  = Some (File (sync_text vendorName s
                  match head env1 (vendor_path vendorName) with
                  | Ret sha => Js.trim sha
                  | Throw _ => "null"
                  end
                  (Js.split_head "T" (clock env1)))).
Proof.
  intros Hup Hhead Hwf Hnd Hv Hp Hdir Hret.
  destruct (sync_run_pair head _ _ _ _ _ _ _ _ Hup Hhead Hwf Hnd Hv Hp Hdir Hret)
    as (_ & _ & fsA & fsB & Hsame & Hsynced & Hfinal).
  rewrite Hfinal by (by eexists).
  rewrite (synced_record _ _ _ _ _ _ Hsynced).
  unfold sync_data, syncContent, sync_text, sha_of.
  by destruct (head env1 (vendor_path vendorName)).
Qed.

(** C6: when the source directory of a configured pair is missing, the
    round of that pair only warns; after a [sync] that completes nothing
    below [skills/<out>] has changed (nor was the directory created), and
    every other pair whose source directory exists has been synced. *)
Theorem sync_skips_missing_skill head st out fs1 env1 vendorName config s o :
  execSync update_command root (st_fs st) (st_env st) = (Ret out, fs1, env1) ->
  reads_head head -> well_formed fs1 -> NoDup (outputs vendors) ->
  (vendorName, config) ∈ vendors -> (s, o) ∈ skills config ->
  fs1 !! source_path vendorName s = None ->
  result (syncSubmodules st) = Ret tt ->
  (forall st',
      Fs.exists_ (st_fs st') (source_path vendorName s) = false ->
      syncSkill vendorName (vendor_path vendorName) (vendor_path vendorName ++ ["skills"])
        (s, o) st'
      = (Ret tt, st',
         [ELogWarn ("Skill not found: vendor/" +:+ vendorName +:+ "/skills/" +:+ s)])) /\
  (forall k, output_path o `prefix_of` k ->
             st_fs (final (syncSubmodules st)) !! k = fs1 !! k) /\
  (forall vendorName' config' s' o' r c,
      (vendorName', config') ∈ vendors -> (s', o') ∈ skills config' ->
      fs1 !! source_path vendorName' s' = Some Dir ->
      r <> ["LICENSE.md"] -> r <> ["SYNC.md"] ->
      st_fs (final (syncSubmodules st)) !! (output_path o' ++ r) = Some (File c)
      <-> fs1 !! (source_path vendorName' s' ++ r) = Some (File c)).
Proof.
  intros Hup Hhead Hwf Hnd Hv Hp Hnone Hret. split; [|split].
  - intros st' Hex. by apply syncSkill_skip.
  - intros k Hk.
    destruct (sync_loop_ret _ _ _ _ Hup Hret) as [t Hloop].
    apply (vendors_loop_frame head) in Hloop as (_ & _ & _ & Hframe);
      [|done|by apply well_formed_tidy].
    apply Hframe. intros vn' cfg' s' o' Hv' Hp' Hex. split.
    2: { intros ->. destruct Hk as [? [=]]. }
    intros Hpre. apply (output_path_under _ _ _ Hk) in Hpre as ->.
    destruct (pick_pair _ _ _ _ _ Hnd Hv Hp)
      as (vs1 & vs2 & ps1 & ps2 & Hvs & Hps & Hps' & Hvs').
    rewrite Hvs in Hv'. apply elem_of_app in Hv' as [Hv'|Hv'].
    { apply (Hvs' vn' cfg' s'); [|done]. apply elem_of_app. by left. }
    apply elem_of_cons in Hv' as [[= -> ->]|Hv'].
    2: { apply (Hvs' vn' cfg' s'); [|done]. apply elem_of_app. by right. }
    rewrite Hps in Hp'. apply elem_of_app in Hp' as [Hp'|Hp'].
    { by apply (proj1 (Hps' s')). }
    apply elem_of_cons in Hp' as [[= ->]|Hp'].
    2: { by apply (proj2 (Hps' s')). }
    rewrite exists_false in Hex; [done|]. done.
  - intros vn' cfg' s' o' r c Hv' Hp' Hdir Hr1 Hr2.
    destruct (sync_run_pair head _ _ _ _ _ _ _ _ Hup Hhead Hwf Hnd Hv' Hp' Hdir Hret)
      as (_ & _ & fsA & fsB & Hsame & Hsynced & Hfinal).
    rewrite Hfinal by (by eexists).
    by apply (synced_files fs1 fsA fsB (vendor_path vn') vn' s' o'
                (sync_data head env1 vn' s' (vendor_path vn')) r c).
Qed.

(** *** [sync] twice *)

(** A key the inner loop changes lies below the output directory of a pair
    whose source exists, or is [skills] itself. *)
Lemma skills_loop_touch head vendorName pairs st st' t k :
  reads_head head -> tidy (st_fs st) ->
  for_of pairs
    (syncSkill vendorName (vendor_path vendorName) (vendor_path vendorName ++ ["skills"])) st
  = (Ret tt, st', t) ->
  st_fs st' !! k = st_fs st !! k \/
  exists s o, (s, o) ∈ pairs /\
              Fs.exists_ (st_fs st) (source_path vendorName s) = true /\
              (output_path o `prefix_of` k \/ k = ["skills"]).
Proof.
  intros Hhead. revert st t. induction pairs as [|[s o] pairs IH]; intros st t Htidy Hrun.
  { injection Hrun as <- _. by left. }
  apply for_of_ret in Hrun as (st1 & t1 & t2 & Hstep & Hrest & _).
  pose proof Hstep as Hstep'.
  apply (syncSkill_frame head) in Hstep as (Henv1 & Htidy1 & Hkeep1 & Hframe1); [|done..].
  destruct (IH _ _ Htidy1 Hrest) as [Heq|(s' & o' & Hin & Hex & Hk)].
  - rewrite Heq.
    destruct (Fs.exists_ (st_fs st) (source_path vendorName s)) eqn:Hex.
    + destruct (decide (output_path o `prefix_of` k)) as [Hk|Hk].
      { right. exists s, o. split; [by left|]. split; [done|by left]. }
      destruct (decide (k = ["skills"])) as [Hk'|Hk'].
      { right. exists s, o. split; [by left|]. split; [done|by right]. }
      left. by apply Hframe1.
    + rewrite syncSkill_skip in Hstep' by done. injection Hstep' as <- _. by left.
  - right. exists s', o'. split; [by right|]. split; [|done].
    rewrite <- Hex. symmetry. apply exists_agree, Hframe1; [apply vendor_not_output|done].
Qed.

Lemma vendors_loop_touch head vs st st' t k :
  reads_head head -> tidy (st_fs st) ->
  for_of vs syncVendor st = (Ret tt, st', t) ->
  st_fs st' !! k = st_fs st !! k \/
  exists vendorName config s o,
    (vendorName, config) ∈ vs /\ (s, o) ∈ skills config /\
    Fs.exists_ (st_fs st) (source_path vendorName s) = true /\
    (output_path o `prefix_of` k \/ k = ["skills"]).
Proof.
  intros Hhead. revert st t. induction vs as [|[vn cfg] vs IH]; intros st t Htidy Hrun.
  { injection Hrun as <- _. by left. }
  apply for_of_ret in Hrun as (st1 & t1 & t2 & Hstep & Hrest & _).
  pose proof Hstep as Hstep'.
  apply (syncVendor_frame head) in Hstep as (Henv1 & Htidy1 & Hkeep1 & Hframe1); [|done..].
  destruct (IH _ _ Htidy1 Hrest) as [Heq|(vn' & cfg' & s' & o' & Hv & Hp & Hex & Hk)].
  - rewrite Heq. rewrite syncVendor_run in Hstep'.
    destruct (Fs.exists_ (st_fs st) (vendor_path vn)); [|injection Hstep' as <- _; by left].
    destruct (Fs.exists_ (st_fs st) (vendor_path vn ++ ["skills"]));
      [|injection Hstep' as <- _; by left].
    destruct (skills_loop_touch head _ _ _ _ _ k Hhead Htidy Hstep')
      as [?|(s & o & Hp & Hex & Hk)]; [by left|].
    right. exists vn, cfg, s, o. split; [by left|done].
  - right. exists vn', cfg', s', o'. split; [by right|]. split; [done|]. split; [|done].
    rewrite <- Hex. symmetry. apply exists_agree, Hframe1.
    intros s o _ _. split; [apply vendor_not_output|done].
Qed.

Lemma mirror_at_agree fsA fsA' src r e :
  (forall r', fsA' !! (src ++ r') = fsA !! (src ++ r')) ->
  mirror_at (fun _ => True) fsA src r e <-> mirror_at (fun _ => True) fsA' src r e.
Proof.
  intros H. unfold mirror_at. by setoid_rewrite H.
Qed.

(** Two rounds of one pair that start from the same vendor checkout leave
    the same output directory, up to the text of the record. *)
Lemma synced_agree fsA fsA' fsB fsB' vendorName s o data data' r :
  same_outside_skills fsA fsA' ->
  synced fsA (vendor_path vendorName) (source_path vendorName s) (output_path o) data fsB ->
  synced fsA' (vendor_path vendorName) (source_path vendorName s) (output_path o) data' fsB' ->
  (r = ["SYNC.md"] -> data' = data) ->
  fsB' !! (output_path o ++ r) = fsB !! (output_path o ++ r).
Proof.
  intros Hsame H H' Hdata.
  assert (first_license fsA' (vendor_path vendorName) licenseNames
          = first_license fsA (vendor_path vendorName) licenseNames) as Hlic.
  { apply first_license_agree. intros n. apply Hsame. by intros [? [=]]. }
  destruct (decide (r = [])) as [->|Hr0].
  { rewrite app_nil_r.
    by rewrite (synced_dirs _ _ _ _ _ _ H), (synced_dirs _ _ _ _ _ _ H'). }
  destruct (decide (r = ["SYNC.md"])) as [->|Hr1].
  { rewrite (synced_record _ _ _ _ _ _ H), (synced_record _ _ _ _ _ _ H').
    by rewrite Hdata. }
  destruct (first_license fsA (vendor_path vendorName) licenseNames) as [lp|] eqn:Hlp.
  - destruct (decide (r = ["LICENSE.md"])) as [->|Hr2].
    + destruct (synced_license _ _ _ _ _ _ H lp Hlp) as (c & Hc & ->).
      destruct (synced_license _ _ _ _ _ _ H' lp Hlic) as (c' & Hc' & ->).
      apply first_license_shape in Hlp as [n ->].
      rewrite Hsame in Hc' by (by intros [? [=]]). congruence.
    + apply option_eq. intros e.
      rewrite (synced_below _ _ _ _ _ _ H r e), (synced_below _ _ _ _ _ _ H' r e) by done.
      symmetry. apply mirror_at_agree. intros r'. apply Hsame. by intros [? [=]].
  - apply option_eq. intros e.
    rewrite (synced_below _ _ _ _ _ _ H r e) by done.
    rewrite (synced_below _ _ _ _ _ _ H' r e) by (by rewrite ?Hlic).
    symmetry. apply mirror_at_agree. intros r'. apply Hsame. by intros [? [=]].
Qed.

Lemma exists_is_Some fs p : p <> [] -> Fs.exists_ fs p = true -> is_Some (fs !! p).
Proof.
  intros Hp Hex. unfold Fs.exists_ in Hex. apply bool_decide_eq_true in Hex.
  unfold Fs.stat in Hex. by destruct p.
Qed.

(** The round of a configured pair whose source exists, in a loop that
    completes. *)
Lemma loop_pair head st st' t vendorName config s o :
  reads_head head -> tidy (st_fs st) -> NoDup (outputs vendors) ->
  (vendorName, config) ∈ vendors -> (s, o) ∈ skills config ->
  Fs.exists_ (st_fs st) (vendor_path vendorName) = true ->
  Fs.exists_ (st_fs st) (vendor_path vendorName ++ ["skills"]) = true ->
  Fs.exists_ (st_fs st) (source_path vendorName s) = true ->
  for_of vendors syncVendor st = (Ret tt, st', t) ->
  st_env st' = st_env st /\
  st_fs st' !! ["skills"] = Some Dir /\
  exists fsA fsB,
    same_outside_skills (st_fs st) fsA /\
    synced fsA (vendor_path vendorName) (source_path vendorName s) (output_path o)
           (sync_data head (st_env st) vendorName s (vendor_path vendorName)) fsB /\
    forall k, output_path o `prefix_of` k -> st_fs st' !! k = fsB !! k.
Proof.
  intros Hhead Htidy Hnd Hv Hp Hex1 Hex2 Hex3 Hloop.
  destruct (pick_pair _ _ _ _ _ Hnd Hv Hp) as (vs1 & vs2 & ps1 & ps2 & Hvs & Hps & Hps' & Hvs').
  rewrite Hvs in Hloop.
  exact (sync_pair head vs1 vendorName config vs2 ps1 s o ps2 st st' t Hhead Htidy Hps
           (fun s' => proj2 (Hps' s'))
           (fun vn' cfg' s' Hin => Hvs' vn' cfg' s' (proj2 (elem_of_app _ _ _) (or_intror Hin)))
           Hex1 Hex2 Hex3 Hloop).
Qed.

(** One key after a second run of the loop, started from the file system
    the first run left. *)
Lemma resync_key head fs1 env1 stF t1 env2 stG t2 k :
  reads_head head -> well_formed fs1 -> NoDup (outputs vendors) ->
  for_of vendors syncVendor {| st_fs := fs1; st_env := env1 |} = (Ret tt, stF, t1) ->
  for_of vendors syncVendor {| st_fs := st_fs stF; st_env := env2 |} = (Ret tt, stG, t2) ->
  (forall vendorName s o,
      k = output_path o ++ ["SYNC.md"] ->
      sync_data head env2 vendorName s (vendor_path vendorName)
      = sync_data head env1 vendorName s (vendor_path vendorName)) ->
  st_fs stG !! k = st_fs stF !! k.
Proof.
  intros Hhead Hwf Hnd Hrun1 Hrun2 Hdata.
  pose proof (well_formed_tidy _ Hwf) as Htidy1.
  pose proof Hrun1 as Hframe1.
  apply (vendors_loop_frame head) in Hframe1 as (_ & HtidyF & _ & Hframe1); [|done..].
  cbn [st_fs st_env] in *.
  assert (same_outside_skills fs1 (st_fs stF)) as Hsame.
  { intros k' Hk'. apply Hframe1. intros ? ? ? o' _ _ _. by apply outside_skills. }
  destruct (vendors_loop_touch head vendors {| st_fs := st_fs stF; st_env := env2 |}
              stG t2 k Hhead HtidyF Hrun2)
    as [Heq|(vn & cfg & s & o & Hv & Hp & Hex & Hk)]; [done|].
  cbn [st_fs st_env] in *.
  assert (forall p, ~ ["skills"] `prefix_of` p ->
            Fs.exists_ (st_fs stF) p = Fs.exists_ fs1 p) as Hexists.
  { intros p Hp'. by apply exists_agree, Hsame. }
  assert (Fs.exists_ fs1 (source_path vn s) = true) as Hex3.
  { rewrite <- Hexists; [done|]. by intros [? [=]]. }
  assert (Fs.exists_ fs1 (vendor_path vn) = true) as Hex1.
  { apply (well_formed_exists fs1 (source_path vn s)); [done| |done|by exists ["skills"; s]].
    by apply exists_is_Some. }
  assert (Fs.exists_ fs1 (vendor_path vn ++ ["skills"]) = true) as Hex2.
  { apply (well_formed_exists fs1 (source_path vn s)); [done| |done|by exists [s]].
    by apply exists_is_Some. }
  destruct (loop_pair head {| st_fs := fs1; st_env := env1 |} stF t1 vn cfg s o
              Hhead Htidy1 Hnd Hv Hp Hex1 Hex2 Hex3 Hrun1)
    as (_ & Hdir1 & fsA & fsB & HsameA & Hsynced & Hfinal).
  assert (Fs.exists_ (st_fs stF) (vendor_path vn) = true) as Hex1'.
  { rewrite Hexists; [done|]. by intros [? [=]]. }
  assert (Fs.exists_ (st_fs stF) (vendor_path vn ++ ["skills"]) = true) as Hex2'.
  { rewrite Hexists; [done|]. by intros [? [=]]. }
  destruct (loop_pair head {| st_fs := st_fs stF; st_env := env2 |} stG t2 vn cfg s o
              Hhead HtidyF Hnd Hv Hp Hex1' Hex2' Hex Hrun2)
    as (_ & Hdir2 & fsA' & fsB' & HsameA' & Hsynced' & Hfinal').
  cbn [st_fs st_env] in *.
  destruct Hk as [[r ->]| ->]; [|congruence].
  rewrite Hfinal, Hfinal' by (by eexists).
  apply (synced_agree fsA fsA' fsB fsB' vn s o
           (sync_data head env1 vn s (vendor_path vn))
           (sync_data head env2 vn s (vendor_path vn)) r); [|done..|].
  - intros k' Hk'. by rewrite HsameA', Hsame, HsameA.
  - intros ->. by apply (Hdata vn s o).
Qed.

(** C7: a second [sync], run on what the first one left and with nothing
    new upstream (the update leaves the work tree as it is and [rev-parse]
    answers as before), leaves every file as the first run left it, except
    the [SYNC.md] of the output directories, which take the date of the
    second run and keep the hash; with the same date the two file systems
    are equal. *)
Theorem sync_twice head st out fs1 env1 env2 out' env2' :
  execSync update_command root (st_fs st) (st_env st) = (Ret out, fs1, env1) ->
  reads_head head -> well_formed fs1 -> NoDup (outputs vendors) ->
  result (syncSubmodules st) = Ret tt ->
  let fsF := st_fs (final (syncSubmodules st)) in
  let again := syncSubmodules {| st_fs := fsF; st_env := env2 |} in
  execSync update_command root fsF env2 = (Ret out', fsF, env2') ->
  (forall vendorName,
      sha_of head env2' (vendor_path vendorName) = sha_of head env1 (vendor_path vendorName)) ->
  result again = Ret tt ->
  (forall k, (forall o, k <> output_path o ++ ["SYNC.md"]) ->
             st_fs (final again) !! k = fsF !! k) /\
  (forall vendorName config s o,
      (vendorName, config) ∈ vendors -> (s, o) ∈ skills config ->
      fs1 !! source_path vendorName s = Some Dir ->
      fsF !! (output_path o ++ ["SYNC.md"])
      = Some (File (syncContent vendorName s (sha_of head env1 (vendor_path vendorName))
                      (Js.split_head "T" (clock env1)))) /\
      st_fs (final again) !! (output_path o ++ ["SYNC.md"])
      = Some (File (syncContent vendorName s (sha_of head env1 (vendor_path vendorName))
                      (Js.split_head "T" (clock env2'))))) /\
  (Js.split_head "T" (clock env2') = Js.split_head "T" (clock env1) ->
   st_fs (final again) = fsF).
Proof.
  intros Hup Hhead Hwf Hnd Hret fsF again Hup2 Hsha Hret2.
  destruct (sync_loop_ret _ _ _ _ Hup Hret) as [t1 Hrun1].
  destruct (sync_loop_ret {| st_fs := fsF; st_env := env2 |} _ _ _ Hup2 Hret2) as [t2 Hrun2].
  fold again in Hrun2.
  pose proof (well_formed_tidy _ Hwf) as Htidy1.
  split; [|split].
  - intros k Hk.
    apply (resync_key head fs1 env1 _ t1 env2' _ t2 k Hhead Hwf Hnd Hrun1 Hrun2).
    intros vn s o ->. by destruct (Hk o).
  - intros vn cfg s o Hv Hp Hdir.
    assert (Fs.exists_ fs1 (source_path vn s) = true) as Hex3 by (by apply (exists_true _ _ Dir)).
    assert (Fs.exists_ fs1 (vendor_path vn) = true) as Hex1.
    { apply (well_formed_exists fs1 (source_path vn s));
        [done|by eexists|done|by exists ["skills"; s]]. }
    assert (Fs.exists_ fs1 (vendor_path vn ++ ["skills"]) = true) as Hex2.
    { apply (well_formed_exists fs1 (source_path vn s)); [done|by eexists|done|by exists [s]]. }
    pose proof Hrun1 as Hframe1.
    apply (vendors_loop_frame head) in Hframe1 as (_ & HtidyF & _ & Hframe1); [|done..].
    cbn [st_fs st_env] in *.
    assert (forall p, ~ ["skills"] `prefix_of` p -> Fs.exists_ fsF p = Fs.exists_ fs1 p)
      as Hexists.
    { intros p Hp'. apply exists_agree, Hframe1.
      intros ? ? ? o' _ _ _. by apply outside_skills. }
    destruct (loop_pair head {| st_fs := fs1; st_env := env1 |} _ t1 vn cfg s o
                Hhead Htidy1 Hnd Hv Hp Hex1 Hex2 Hex3 Hrun1)
      as (_ & _ & fsA & fsB & _ & Hsynced & Hfinal).
    assert (Fs.exists_ fsF (vendor_path vn) = true) as Hex1'.
    { rewrite Hexists; [done|]. by intros [? [=]]. }
    assert (Fs.exists_ fsF (vendor_path vn ++ ["skills"]) = true) as Hex2'.
    { rewrite Hexists; [done|]. by intros [? [=]]. }
    assert (Fs.exists_ fsF (source_path vn s) = true) as Hex3'.
    { rewrite Hexists; [done|]. by intros [? [=]]. }
    destruct (loop_pair head {| st_fs := fsF; st_env := env2' |} _ t2 vn cfg s o
                Hhead HtidyF Hnd Hv Hp Hex1' Hex2' Hex3' Hrun2)
      as (_ & _ & fsA' & fsB' & _ & Hsynced' & Hfinal').
    cbn [st_fs st_env] in *. unfold fsF.
    rewrite Hfinal, Hfinal' by (by eexists).
    rewrite (synced_record _ _ _ _ _ _ Hsynced), (synced_record _ _ _ _ _ _ Hsynced').
    unfold sync_data. by rewrite Hsha.
  - intros Hdate. apply map_eq. intros k.
    apply (resync_key head fs1 env1 _ t1 env2' _ t2 k Hhead Hwf Hnd Hrun1 Hrun2).
    intros vn s o _. unfold sync_data. by rewrite Hsha, Hdate.
Qed.


(** ** What every run does and never does

    The properties below hold of every run of an operation, whatever the
    commands answer: what a run may print or call ([emits]), that it
    returns ([settles]), and what it leaves of the file system
    ([steady]). *)

(** Every event of every run of [m] satisfies [P]. *)
Definition emits {A} (P : event -> Prop) (m : M A) : Prop :=
  forall st, Forall P (trace (m st)).

(** No run of [m] throws. *)
Definition settles {A} (m : M A) : Prop :=
  forall st, exists a, result (m st) = Ret a.

(** Every run of [m] leaves the environment as it is and takes the file
    system to one that [R] relates to it, also when the run throws. *)
Definition steady {A : Type} (R : relation FS) (m : M A) : Prop :=
  forall st, st_env (final (m st)) = st_env st /\ R (st_fs st) (st_fs (final (m st))).

Lemma emits_ret {A} P (a : A) : emits P (M_ret a).
Proof. intros st. constructor. Qed.

Lemma emits_emit (P : event -> Prop) ev : P ev -> emits P (emit ev).
Proof. intros H st. by repeat constructor. Qed.

Lemma emits_bind {A B} P (m : M A) (f : A -> M B) :
  emits P m -> (forall a, emits P (f a)) -> emits P (M_bind m f).
Proof.
  intros Hm Hf st. rewrite bind_run. specialize (Hm st).
  destruct (m st) as [[[a|e] st1] t1]; unfold trace in *; cbn [snd] in *; [|done].
  apply Forall_app. split; [done|apply Hf].
Qed.

Lemma emits_try_catch {A} P (m : M A) (handler : string -> M A) :
  emits P m -> (forall e, emits P (handler e)) -> emits P (try_catch m handler).
Proof.
  intros Hm Hh st. unfold try_catch. specialize (Hm st).
  destruct (m st) as [[[a|e] st1] t1]; unfold trace in *; cbn [snd] in *; [done|].
  specialize (Hh e st1). destruct (handler e st1) as [[r st2] t2]. cbn [snd] in *.
  by apply Forall_app.
Qed.

Lemma emits_for_of {A} P (xs : list A) (body : A -> M unit) :
  (forall x, x ∈ xs -> emits P (body x)) -> emits P (for_of xs body).
Proof.
  induction xs as [|x xs IH]; intros Hbody; [apply emits_ret|].
  cbn [for_of]. apply emits_bind; [apply Hbody; by left|].
  intros _. apply IH. intros y Hy. apply Hbody. by right.
Qed.

Lemma emits_fold_of {A B} P (xs : list A) (acc : B) (body : B -> A -> M B) :
  (forall acc x, x ∈ xs -> emits P (body acc x)) -> emits P (fold_of xs acc body).
Proof.
  revert acc. induction xs as [|x xs IH]; intros acc Hbody; [apply emits_ret|].
  cbn [fold_of]. apply emits_bind; [apply Hbody; by left|].
  intros acc'. apply IH. intros acc'' y Hy. apply Hbody. by right.
Qed.

Lemma emits_filter_of {A} P (xs : list A) (test : A -> M bool) :
  (forall x, emits P (test x)) -> emits P (filter_of xs test).
Proof.
  intros Htest. induction xs as [|x xs IH]; [apply emits_ret|].
  cbn [filter_of]. apply emits_bind; [done|]. intros keep.
  apply emits_bind; [done|]. intros kept. apply emits_ret.
Qed.

Lemma emits_quiet {A} P (m : M A) : (forall st, trace (m st) = []) -> emits P m.
Proof. intros H st. rewrite H. constructor. Qed.

Lemma emits_existsSync P p : emits P (existsSync p).
Proof. by apply emits_quiet. Qed.

Lemma emits_readFileSync P p : emits P (readFileSync p).
Proof. apply emits_quiet. intros st. unfold readFileSync. by destruct (Fs.read _ _). Qed.

Lemma emits_readdirSync P p : emits P (readdirSync p).
Proof. apply emits_quiet. intros st. unfold readdirSync. by destruct (Fs.readdir _ _). Qed.

Lemma emits_now_iso P : emits P now_iso.
Proof. by apply emits_quiet. Qed.

Lemma emits_change (P : event -> Prop) ev op error : P ev -> emits P (change ev op error).
Proof.
  intros H st. unfold change. destruct (op (st_fs st)); by repeat constructor.
Qed.

Lemma emits_exec (P : event -> Prop) cmd cwd : P (EExec cmd cwd) -> emits P (exec cmd cwd).
Proof.
  intros H st. unfold exec. destruct (execSync _ _ _ _) as [[r fs'] env'].
  by repeat constructor.
Qed.

Lemma emits_execSafe (P : event -> Prop) cmd cwd :
  P (EExec cmd cwd) -> emits P (execSafe cmd cwd).
Proof.
  intros H. apply emits_try_catch.
  - apply emits_bind; [by apply emits_exec|]. intros out. apply emits_ret.
  - intros e. apply emits_ret.
Qed.

Lemma emits_submoduleExists P p : emits P (submoduleExists p).
Proof.
  apply emits_bind; [apply emits_existsSync|]. intros found.
  destruct (negb found); [apply emits_ret|].
  apply emits_bind; [apply emits_readFileSync|]. intros content. apply emits_ret.
Qed.

Lemma settles_ret {A} (a : A) : settles (M_ret a).
Proof. intros st. by exists a. Qed.

Lemma settles_emit ev : settles (emit ev).
Proof. intros st. by exists tt. Qed.

Lemma settles_bind {A B} (m : M A) (f : A -> M B) :
  settles m -> (forall a, settles (f a)) -> settles (M_bind m f).
Proof.
  intros Hm Hf st. rewrite bind_run. destruct (Hm st) as [a Ha].
  destruct (m st) as [[[a'|e] st1] t1]; unfold result in Ha; cbn [fst] in Ha; [|done].
  apply Hf.
Qed.

(** A [try] whose handler returns. *)
Lemma settles_try_catch {A} (m : M A) (handler : string -> M A) :
  (forall e, settles (handler e)) -> settles (try_catch m handler).
Proof.
  intros Hh st. unfold try_catch.
  destruct (m st) as [[[a|e] st1] t1]; [by exists a|].
  destruct (Hh e st1) as [a Ha]. destruct (handler e st1) as [[r st2] t2]. by exists a.
Qed.

Lemma settles_for_of {A} (xs : list A) (body : A -> M unit) :
  (forall x, settles (body x)) -> settles (for_of xs body).
Proof.
  intros Hbody. induction xs as [|x xs IH]; [apply settles_ret|].
  cbn [for_of]. by apply settles_bind.
Qed.

Lemma settles_fold_of {A B} (xs : list A) (acc : B) (body : B -> A -> M B) :
  (forall acc x, settles (body acc x)) -> settles (fold_of xs acc body).
Proof.
  intros Hbody. revert acc. induction xs as [|x xs IH]; intros acc; [apply settles_ret|].
  cbn [fold_of]. by apply settles_bind.
Qed.

Lemma settles_existsSync p : settles (existsSync p).
Proof. intros st. by eexists. Qed.

Lemma settles_execSafe cmd cwd : settles (execSafe cmd cwd).
Proof. apply settles_try_catch. intros e. apply settles_ret. Qed.

(** *** [check] *)

(** What a run of [check] may do: talk to the terminal, fetch at the root,
    and probe the checkout of a configured project. *)
Definition check_event (ev : event) : Prop :=
  match ev with
  | EExec cmd cwd =>
      (cmd = fetch_command /\ cwd = root) \/
      (cmd = behind_command /\
       ((exists name, name ∈ map fst submodules /\ cwd = ["sources"; name]) \/
        (exists name, name ∈ map fst vendors /\ cwd = ["vendor"; name])))
  | EMkdir _ | ERm _ | ECp _ _ | EWriteFile _ _ | EMultiselect _ | ECancel _ => False
  | _ => True
  end.

Lemma checkSource_emits updates name :
  name ∈ map fst submodules -> emits check_event (checkSource updates name).
Proof.
  intros Hin. apply emits_bind; [apply emits_existsSync|]. intros found.
  destruct (negb found); [apply emits_ret|].
  apply emits_bind.
  - apply emits_execSafe. right. split; [done|]. left. by exists name.
  - intros behind. destruct (is_behind behind); apply emits_ret.
Qed.

Lemma checkVendor_emits updates vendor :
  vendor ∈ vendors -> emits check_event (checkVendor updates vendor).
Proof.
  intros Hin. destruct vendor as [name config].
  apply emits_bind; [apply emits_existsSync|]. intros found.
  destruct (negb found); [apply emits_ret|].
  apply emits_bind.
  - apply emits_execSafe. right. split; [done|]. right. exists name. split; [|done].
    apply list_elem_of_In, in_map_iff. exists (name, config).
    split; [done|]. by apply list_elem_of_In.
  - intros behind. destruct (is_behind behind); apply emits_ret.
Qed.

Lemma checkSource_settles updates name : settles (checkSource updates name).
Proof.
  apply settles_bind; [apply settles_existsSync|]. intros found.
  destruct (negb found); [apply settles_ret|].
  apply settles_bind; [apply settles_execSafe|].
  intros behind. destruct (is_behind behind); apply settles_ret.
Qed.

Lemma checkVendor_settles updates vendor : settles (checkVendor updates vendor).
Proof.
  destruct vendor as [name config].
  apply settles_bind; [apply settles_existsSync|]. intros found.
  destruct (negb found); [apply settles_ret|].
  apply settles_bind; [apply settles_execSafe|].
  intros behind. destruct (is_behind behind); apply settles_ret.
Qed.

Lemma checkUpdates_emits : emits check_event checkUpdates.
Proof.
  apply emits_bind; [by apply emits_emit|]. intros _.
  apply emits_bind.
  - apply emits_try_catch.
    + apply emits_bind; [apply emits_exec; by left|]. intros _.
      apply emits_bind; [by apply emits_emit|]. intros _. apply emits_ret.
    + intros e. apply emits_bind; [by apply emits_emit|]. intros _. apply emits_ret.
  - intros fetched. destruct (negb fetched); [apply emits_ret|].
    apply emits_bind.
    + apply emits_bind.
      * apply emits_fold_of. intros acc x Hx. by apply checkSource_emits.
      * intros updates. apply emits_fold_of. intros acc x Hx. by apply checkVendor_emits.
    + intros updates. destruct (Nat.eqb _ _); [by apply emits_emit|].
      apply emits_bind; [by apply emits_emit|]. intros _.
      apply emits_for_of. intros update _. by apply emits_emit.
Qed.

Lemma checkUpdates_settles : settles checkUpdates.
Proof.
  apply settles_bind; [apply settles_emit|]. intros _.
  apply settles_bind.
  - apply settles_try_catch. intros e.
    apply settles_bind; [apply settles_emit|]. intros _. apply settles_ret.
  - intros fetched. destruct (negb fetched); [apply settles_ret|].
    apply settles_bind.
    + apply settles_bind.
      * apply settles_fold_of. intros acc x. apply checkSource_settles.
      * intros updates. apply settles_fold_of. intros acc x. apply checkVendor_settles.
    + intros updates. destruct (Nat.eqb _ _); [apply settles_emit|].
      apply settles_bind; [apply settles_emit|]. intros _.
      apply settles_for_of. intros update. apply settles_emit.
Qed.

(** X1: [check] returns from every run, whatever the commands answer and
    whatever the file system holds, and on the way it only talks to the
    terminal, fetches at the root and probes the checkout directory of a
    configured project: it makes no file-system call that changes
    something, opens no prompt and runs no other command. *)
Theorem check_only_probes st :
  result (checkUpdates st) = Ret tt /\
  Forall check_event (trace (checkUpdates st)).
Proof.
  split.
  - destruct (checkUpdates_settles st) as [[] H]. exact H.
  - apply checkUpdates_emits.
Qed.

(** X2: when the fetch fails, [check] reports the failure on the spinner
    and returns without throwing; it leaves the state as the failed command
    left it, probes no checkout and prints neither a report nor the message
    that everything is up to date. *)
Theorem check_fetch_failure st e fs1 env1 :
  execSync fetch_command root (st_fs st) (st_env st) = (Throw e, fs1, env1) ->
  checkUpdates st =
    (Ret tt, {| st_fs := fs1; st_env := env1 |},
     [ESpinnerStart "Fetching remote changes..."; EExec fetch_command root;
      ESpinnerStop ("Failed to fetch: " +:+ e)]).
Proof.
  intros Hfetch.
  unfold checkUpdates, M_bind, try_catch, emit, exec, M_ret.
  cbn [st_fs st_env]. rewrite Hfetch. by cbn [app negb].
Qed.

Definition probe (cwd : fpath) : event := EExec behind_command cwd.

Lemma checkSource_trace count updates name st :
  counts_behind count ->
  trace (checkSource updates name st)
  = map probe (List.filter (Fs.exists_ (st_fs st)) [["sources"; name]]).
Proof.
  intros Hc. unfold checkSource.
  rewrite (bind_quiet _ _ _ _ (existsSync_run _ _)).
  change (join root ["sources"; name]) with ["sources"; name]. cbn [List.filter].
  destruct (Fs.exists_ (st_fs st) ["sources"; name]); cbn [negb]; [|done].
  rewrite bind_run, (probe_run count) by done.
  by destruct (is_behind _).
Qed.

Lemma checkVendor_trace count updates vendor st :
  counts_behind count ->
  trace (checkVendor updates vendor st)
  = map probe (List.filter (Fs.exists_ (st_fs st)) [["vendor"; vendor.1]]).
Proof.
  intros Hc. destruct vendor as [name config]. unfold checkVendor.
  rewrite (bind_quiet _ _ _ _ (existsSync_run _ _)).
  change (join root ["vendor"; name]) with ["vendor"; name]. cbn [List.filter fst].
  destruct (Fs.exists_ (st_fs st) ["vendor"; name]); cbn [negb]; [|done].
  rewrite bind_run, (probe_run count) by done.
  by destruct (is_behind _).
Qed.

(** A loop whose rounds leave the state alone and probe one directory
    each. *)
Lemma fold_of_probes {A} (xs : list A) (body : list Update -> A -> M (list Update))
    (dir : A -> fpath) acc st :
  (forall acc x, exists acc', result (body acc x st) = Ret acc') ->
  (forall acc x, final (body acc x st) = st) ->
  (forall acc x, trace (body acc x st)
                 = map probe (List.filter (Fs.exists_ (st_fs st)) [dir x])) ->
  trace (fold_of xs acc body st) = map probe (List.filter (Fs.exists_ (st_fs st)) (map dir xs)).
Proof.
  intros Hr Hf Ht. revert acc. induction xs as [|x xs IH]; intros acc; [done|].
  cbn [fold_of map]. rewrite bind_run.
  destruct (Hr acc x) as [acc' Hr']. specialize (Hf acc x). specialize (Ht acc x).
  destruct (body acc x st) as [[[a|e] st1] t1];
    unfold result, final, trace in Hr', Hf, Ht; cbn [fst snd] in Hr', Hf, Ht; [|done].
  subst st1 t1. unfold trace at 1; cbn [snd]. rewrite IH.
  change (dir x :: map dir xs) with ([dir x] ++ map dir xs).
  by rewrite List.filter_app, map_app.
Qed.

(** The two loops of [check] under a git that counts: the state is left
    alone, every checkout that exists is probed once, in order, and the
    projects that are due are collected. *)
Lemma collectUpdates_trace count st :
  counts_behind count ->
  collectUpdates st =
    (Ret (reports (st_fs st) (count (st_env st))), st,
     map probe (List.filter (Fs.exists_ (st_fs st)) checkouts)).
Proof.
  intros Hc. destruct (collectUpdates_run count st Hc) as (Hr & Hf & _).
  assert (trace (collectUpdates st)
          = map probe (List.filter (Fs.exists_ (st_fs st)) checkouts)) as Ht.
  { unfold collectUpdates. rewrite bind_run.
    assert (trace (fold_of (map fst submodules) [] checkSource st)
            = map probe (List.filter (Fs.exists_ (st_fs st))
                           (map (fun name => ["sources"; name]) (map fst submodules)))) as H1.
    { apply fold_of_probes.
      - intros acc x. destruct (checkSource_run count acc x st Hc) as (H & _). by eexists.
      - intros acc x. by destruct (checkSource_run count acc x st Hc) as (_ & H & _).
      - intros acc x. by apply (checkSource_trace count). }
    destruct (fold_of_pushes (map fst submodules) checkSource
                (fun name => due (st_fs st) (count (st_env st)) ["sources"; name])
                (source_report (count (st_env st))) [] st) as (Hr1 & Hf1 & _).
    { intros acc x _. by apply checkSource_run. }
    destruct (fold_of (map fst submodules) [] checkSource st) as [[[acc|e] st1] t1];
      unfold result, final, trace in Hr1, Hf1, H1; cbn [fst snd] in Hr1, Hf1, H1; [|done].
    subst st1. unfold trace at 1; cbn [snd].
    rewrite (fold_of_probes vendors checkVendor (fun vendor => ["vendor"; vendor.1])).
    - unfold checkouts. by rewrite List.filter_app, map_app, H1.
    - intros acc' x. destruct (checkVendor_run count acc' x st Hc) as (H & _). by eexists.
    - intros acc' x. by destruct (checkVendor_run count acc' x st Hc) as (_ & H & _).
    - intros acc' x. by apply (checkVendor_trace count). }
  destruct (collectUpdates st) as [[r st1] t1];
    unfold result, final, trace in Hr, Hf, Ht; cbn [fst snd] in Hr, Hf, Ht.
  by subst.
Qed.

(** What [check] prints once the probes are done. *)
Definition summary (updates : list Update) : list event :=
  match updates with
  | [] => [ELogSuccess "All submodules are up to date"]
  | _ => ELogInfo "Updates available:"
         :: map (fun update => ELogMessage (report_line update)) updates
  end.

(** The whole run of [check] after a fetch that succeeds. *)
Lemma checkUpdates_run count st out fs1 env1 :
  execSync fetch_command root (st_fs st) (st_env st) = (Ret out, fs1, env1) ->
  counts_behind count ->
  checkUpdates st =
    (Ret tt, {| st_fs := fs1; st_env := env1 |},
     [ESpinnerStart "Fetching remote changes..."; EExec fetch_command root;
      ESpinnerStop "Fetched remote changes"]
     ++ map probe (List.filter (Fs.exists_ fs1) checkouts)
     ++ summary (reports fs1 (count env1))).
Proof.
  intros Hfetch Hc.
  unfold checkUpdates, M_bind at 1 2, try_catch, emit at 1.
  unfold M_bind at 1 2, exec. cbn [st_fs st_env]. rewrite Hfetch.
  unfold emit at 1, M_ret at 1. cbn [negb]. rewrite bind_run.
  rewrite (collectUpdates_trace count) by done. cbn [st_fs st_env].
  unfold summary. destruct (reports fs1 (count env1)) as [|u us] eqn:Hreports.
  - cbn [length Nat.eqb]. unfold emit, result, final, trace; cbn [fst snd app].
    by rewrite <- ?app_assoc.
  - cbn [length Nat.eqb]. rewrite bind_run.
    change (emit (ELogInfo ?m) ?s) with (Ret tt, s, [ELogInfo m]). cbv beta iota.
    rewrite report_loop. unfold result, final, trace; by cbn [fst snd app].
Qed.

(** X3: after a fetch that succeeds, and with a git that answers the probe
    with a count or a failure and changes nothing, the commands of a run of
    [check] are the fetch at the root and then one probe in each checkout
    directory that exists, the sources first and the vendors after them, in
    the order of the registry; a project without a checkout is not probed,
    and the run ends in the state the fetch left. *)
Theorem check_probes_checkouts count st out fs1 env1 :
  execSync fetch_command root (st_fs st) (st_env st) = (Ret out, fs1, env1) ->
  counts_behind count ->
  execs (trace (checkUpdates st))
  = (fetch_command, root)
    :: map (fun cwd => (behind_command, cwd)) (List.filter (Fs.exists_ fs1) checkouts) /\
  final (checkUpdates st) = {| st_fs := fs1; st_env := env1 |}.
Proof.
  intros Hfetch Hc. rewrite (checkUpdates_run count _ _ _ _ Hfetch Hc).
  split; [|done].
  unfold trace; cbn [snd]. rewrite !execs_app.
  change (execs [_; _; _]) with [(fetch_command, root)]. cbn [app]. f_equal.
  assert (execs (summary (reports fs1 (count env1))) = []) as ->.
  { unfold summary. destruct (reports _ _) as [|u us]; [done|].
    change (execs (ELogInfo ?m :: ?t)) with (execs t).
    induction (u :: us) as [|v vs IH]; [done|]. exact IH. }
  rewrite app_nil_r.
  induction (List.filter (Fs.exists_ fs1) checkouts) as [|p ps IH]; [done|].
  cbn [map]. change (execs (probe p :: ?t)) with ((behind_command, p) :: execs t).
  by rewrite IH.
Qed.

(** X4: after a fetch that succeeds, what [check] says on the terminal is
    the two lines of the spinner and then either the one message that all
    submodules are up to date, when no project is due, or the heading
    [Updates available:] followed by one line for each project that is due;
    never both, and never a heading without a line. *)
Theorem check_summary count st out fs1 env1 :
  execSync fetch_command root (st_fs st) (st_env st) = (Ret out, fs1, env1) ->
  counts_behind count ->
  List.filter (fun ev => negb (is_effect ev)) (trace (checkUpdates st))
  = [ESpinnerStart "Fetching remote changes..."; ESpinnerStop "Fetched remote changes"]
    ++ match reports fs1 (count env1) with
       | [] => [ELogSuccess "All submodules are up to date"]
       | updates =>
           ELogInfo "Updates available:"
           :: map (fun update => ELogMessage (report_line update)) updates
       end.
Proof.
  intros Hfetch Hc. rewrite (checkUpdates_run count _ _ _ _ Hfetch Hc).
  unfold trace; cbn [snd]. rewrite !List.filter_app.
  change (List.filter _ [_; _; _])
    with [ESpinnerStart "Fetching remote changes..."; ESpinnerStop "Fetched remote changes"].
  f_equal.
  assert (List.filter (fun ev => negb (is_effect ev))
            (map probe (List.filter (Fs.exists_ fs1) checkouts)) = []) as ->.
  { induction (List.filter (Fs.exists_ fs1) checkouts) as [|p ps IH]; [done|]. exact IH. }
  cbn [app]. fold (summary (reports fs1 (count env1))).
  unfold summary. destruct (reports fs1 (count env1)) as [|u us]; [done|].
  change (List.filter ?f (ELogInfo ?m :: ?t)) with (ELogInfo m :: List.filter f t). f_equal.
  induction (u :: us) as [|v vs IH]; [done|].
  cbn [map]. change (List.filter ?f (ELogMessage ?m :: ?t)) with (ELogMessage m :: List.filter f t).
  by rewrite IH.
Qed.

(** *** The count in a report line

    [check] reads the count with [parseInt] and prints the number it read:
    for a count in decimal that is a safe integer the line shows the digits
    git printed. *)

(** X5: the number in a report line is the count as git printed it, as
    long as the count is a safe integer: for a probe that answered the
    decimal numeral of [n], with [n] at most [Number.MAX_SAFE_INTEGER], the
    line of a source reads [  <name> (source): <n> commits behind], and the
    line of a vendor names, between the vendor and its type, the output
    skills of the vendor joined by a comma and a space. *)
Theorem report_line_count (name : string) (vendorConfig : VendorConfig) (n : nat) :
  (Z.of_nat n <= Js.MAX_SAFE_INTEGER)%Z ->
  report_line (source_update name (Some (decimal n)))
  = "  " +:+ name +:+ " (source): " +:+ decimal n +:+ " commits behind" /\
  report_line (vendor_update name vendorConfig (Some (decimal n)))
  = "  " +:+ name +:+ " (" +:+ String.concat ", " (map snd (skills vendorConfig))
    +:+ ") (vendor): " +:+ decimal n +:+ " commits behind".
Proof.
  intros Hn. unfold report_line, source_update, vendor_update.
  cbn [u_name u_type u_behind Js.to_string].
  rewrite parseInt_decimal, show_decimal by done. split; [done|].
  by rewrite !append_assoc.
Qed.

(** *** The command executor *)

Lemma trimStart_head (s : string) :
  match Js.trimStart s with
  | String c _ => Js.is_space c = false
  | EmptyString => True
  end.
Proof.
  induction s as [|c s IH]; [done|]. cbn [Js.trimStart].
  destruct (Js.is_space c) eqn:E; [exact IH|exact E].
Qed.

Lemma trimStart_fixed (c : ascii) (s : string) :
  Js.is_space c = false -> Js.trimStart (String c s) = String c s.
Proof. intros H. cbn [Js.trimStart]. by rewrite H. Qed.

Lemma trimEnd_head (c : ascii) (s : string) :
  Js.is_space c = false -> exists s', Js.trimEnd (String c s) = String c s'.
Proof.
  intros H. cbn [Js.trimEnd]. rewrite H. destruct (Js.trimEnd s); by eexists.
Qed.

Lemma trimEnd_fixed (s : string) : Js.trimEnd (Js.trimEnd s) = Js.trimEnd s.
Proof.
  induction s as [|c s IH]; [done|]. cbn [Js.trimEnd].
  destruct (Js.trimEnd s) as [|d t] eqn:E.
  - destruct (Js.is_space c) eqn:Hc; [done|]. cbn [Js.trimEnd]. by rewrite Hc.
  - cbn [Js.trimEnd] in *. by rewrite IH.
Qed.

(** What [trim] returns has no white space at either end. *)
Lemma trim_fixed (s : string) :
  Js.trimStart (Js.trim s) = Js.trim s /\ Js.trimEnd (Js.trim s) = Js.trim s.
Proof.
  unfold Js.trim. split; [|apply trimEnd_fixed].
  pose proof (trimStart_head s) as Hhead.
  destruct (Js.trimStart s) as [|c t]; [done|].
  destruct (trimEnd_head c t Hhead) as [t' ->]. by apply trimStart_fixed.
Qed.

(** X6: [execSafe] never throws: it answers null exactly when the command
    fails and the trimmed output otherwise, with the state the command left
    in both cases; and an output that [exec] or [execSafe] returns carries
    no white space at either end, so that a hash read by [getGitSha] is
    free of the end of line git prints after it. *)
Theorem execSafe_answers cmd cwd st :
  final (execSafe cmd cwd st) = final (exec cmd cwd st) /\
  match result (exec cmd cwd st) with
  | Ret out =>
      result (execSafe cmd cwd st) = Ret (Some out) /\
      Js.trimStart out = out /\ Js.trimEnd out = out
  | Throw _ => result (execSafe cmd cwd st) = Ret None
  end.
Proof.
  unfold execSafe, try_catch, M_bind, exec, M_ret, result, final.
  destruct (execSync cmd cwd (st_fs st) (st_env st)) as [[[out|e] fs1] env1]; cbn [fst snd].
  - split; [done|]. split; [done|]. apply trim_fixed.
  - done.
Qed.

(** *** [sync] *)

Section Steady.

Context (R : relation FS) `{!PreOrder R}.

Lemma steady_quiet {A} (m : M A) : (forall st, final (m st) = st) -> steady R m.
Proof. intros H st. by rewrite H. Qed.

Lemma steady_ret {A} (a : A) : steady R (M_ret a).
Proof. by apply steady_quiet. Qed.

Lemma steady_emit ev : steady R (emit ev).
Proof. by apply steady_quiet. Qed.

Lemma steady_existsSync p : steady R (existsSync p).
Proof. by apply steady_quiet. Qed.

Lemma steady_readdirSync p : steady R (readdirSync p).
Proof.
  apply steady_quiet. intros st. unfold readdirSync. by destruct (Fs.readdir _ _).
Qed.

Lemma steady_now_iso : steady R now_iso.
Proof. by apply steady_quiet. Qed.

Lemma steady_getGitSha head dir : reads_head head -> steady R (getGitSha dir).
Proof.
  intros Hhead. apply steady_quiet. intros st. by rewrite (getGitSha_run head).
Qed.

Lemma steady_bind {A B} (m : M A) (f : A -> M B) :
  steady R m -> (forall a, steady R (f a)) -> steady R (M_bind m f).
Proof.
  intros Hm Hf st. rewrite bind_run. destruct (Hm st) as [Henv Hfs].
  destruct (m st) as [[[a|e] st1] t1]; unfold final in *; cbn [fst snd] in *; [|done].
  destruct (Hf a st1) as [Henv' Hfs']. unfold final in *. split; [congruence|].
  by etrans.
Qed.

Lemma steady_for_of {A} (xs : list A) (body : A -> M unit) :
  (forall x, x ∈ xs -> steady R (body x)) -> steady R (for_of xs body).
Proof.
  induction xs as [|x xs IH]; intros Hbody; [apply steady_ret|].
  cbn [for_of]. apply steady_bind; [apply Hbody; by left|].
  intros _. apply IH. intros y Hy. apply Hbody. by right.
Qed.

(** A call that fails leaves the file system as it was. *)
Lemma steady_change ev op error :
  (forall fs fs', op fs = Some fs' -> R fs fs') -> steady R (change ev op error).
Proof.
  intros Hop st. unfold change. destruct (op (st_fs st)) as [fs'|] eqn:E; [|done].
  unfold final; cbn [fst snd st_fs st_env]. split; [done|]. by apply Hop.
Qed.

End Steady.

(** The steps that leave the state alone. *)
Ltac steady_quiet_step :=
  first [ apply steady_ret | apply steady_emit | apply steady_existsSync
        | apply steady_readdirSync | apply steady_now_iso ];
  apply _.

(** What a run of [sync] may do to the file system, given the entries
    [keep] that are out of its reach: these stay as they are, and [skills]
    itself, once there, is neither removed nor replaced. *)
Definition frame (keep : fpath -> Prop) : relation FS := fun fs fs' =>
  (forall k, keep k -> fs' !! k = fs !! k) /\
  (forall e, fs !! ["skills"] = Some e -> fs' !! ["skills"] = Some e).

Global Instance frame_preorder keep : PreOrder (frame keep).
Proof.
  split.
  - by intros fs.
  - intros fs1 fs2 fs3 [H1 H2] [H3 H4]. split.
    + intros k Hk. by rewrite H3, H1.
    + auto.
Qed.

Lemma removelast_prefix (l : fpath) : removelast l `prefix_of` l.
Proof.
  destruct (decide (l = [])) as [->|Hl]; [done|].
  exists [List.last l ""]. by apply app_removelast_last.
Qed.

(** The paths on the way to an entry of an output directory, the root
    apart, are [skills], the directory, and what lies below it. *)
Lemma output_path_way o rest k :
  k <> [] -> k `prefix_of` output_path o ++ rest ->
  k = ["skills"] \/ output_path o `prefix_of` k.
Proof.
  intros Hk Hp.
  destruct (prefix_weak_total _ _ _ Hp (prefix_app_r _ _ rest (reflexivity (output_path o))))
    as [Hko|Hok]; [|by right].
  apply output_path_prefix in Hko as [?|[?|?]]; [done|by left|].
  right. by subst k.
Qed.

Section Round.

(** The round of a pair with the output name [o], and entries [keep] that
    are neither [skills] nor in the output directory. *)
Variable keep : fpath -> Prop.
Variable o : string.
Hypothesis keep_apart : forall k, keep k -> k <> ["skills"] /\ ~ output_path o `prefix_of` k.

Lemma mkdirSync_frame p :
  p `prefix_of` output_path o \/ output_path o `prefix_of` p ->
  steady (frame keep) (mkdirSync p).
Proof.
  intros Hp. apply steady_change; [apply _|]. intros fs fs' Hm. split.
  - intros k Hk. apply (mkdir_p_spec _ _ _ _ Hm k).
    destruct (decide (k = [])) as [->|Hne]; [by left|right].
    intros Hkp. destruct (keep_apart k Hk) as [H1 H2].
    assert (exists rest, k `prefix_of` output_path o ++ rest) as [rest Hway].
    { destruct Hp as [Hp|[rest ->]]; [|by exists rest].
      exists []. rewrite app_nil_r. by etrans. }
    by destruct (output_path_way o rest k Hne Hway).
  - intros e He. by apply (mkdir_p_keeps _ _ _ _ _ _ Hm).
Qed.

Lemma write_frame (op : FS -> option FS) ev error rest :
  (forall fs fs', op fs = Some fs' -> exists c, fs' = <[output_path o ++ rest := File c]> fs) ->
  steady (frame keep) (change ev op error).
Proof.
  intros Hop. apply steady_change; [apply _|]. intros fs fs' (c & ->)%Hop. split.
  - intros k Hk. apply lookup_insert_ne. intros <-.
    destruct (keep_apart _ Hk) as [_ H]. apply H. by exists rest.
  - intros e He. by rewrite lookup_insert_ne.
Qed.

Lemma cpSync_frame src rest : steady (frame keep) (cpSync src (output_path o ++ rest)).
Proof.
  apply (write_frame _ _ _ rest). intros fs fs' (c & _ & -> & _)%cp_spec. by exists c.
Qed.

Lemma writeFileSync_frame rest data :
  steady (frame keep) (writeFileSync (output_path o ++ rest) data).
Proof.
  apply (write_frame _ _ _ rest). intros fs fs' (-> & _)%put_spec. by exists data.
Qed.

Lemma rmSync_frame : steady (frame keep) (rmSync (output_path o)).
Proof.
  apply steady_change; [apply _|]. intros fs fs' Hm. split.
  - intros k Hk. rewrite (rm_rf_spec _ _ _ _ Hm k).
    rewrite decide_False; [done|by apply keep_apart].
  - intros e He. rewrite (rm_rf_spec _ _ _ _ Hm ["skills"]).
    rewrite decide_False; [done|]. by intros [? [=]].
Qed.

Lemma copyFile_frame sourceSkillPath file :
  steady (frame keep) (copyFile sourceSkillPath (output_path o) file).
Proof.
  unfold copyFile. destruct (isFile file); [|steady_quiet_step].
  unfold join, dirname.
  set (rel := replace_first (parentPath file ++ [dname file]) sourceSkillPath).
  apply steady_bind; [apply _|steady_quiet_step|]. intros found.
  apply steady_bind; [apply _| |intros _; apply cpSync_frame].
  destruct (negb found); [|steady_quiet_step].
  apply mkdirSync_frame.
  destruct (decide (rel = [])) as [->|Hrel].
  - left. rewrite app_nil_r. apply removelast_prefix.
  - right. rewrite removelast_app by done. by eexists.
Qed.

Lemma copyLicense_frame vendorPath names :
  steady (frame keep) (copyLicense vendorPath (output_path o) names).
Proof.
  induction names as [|n names IH]; [steady_quiet_step|].
  cbn [copyLicense]. apply steady_bind; [apply _|steady_quiet_step|]. intros found.
  unfold join. destruct found; [apply cpSync_frame|exact IH].
Qed.

Lemma syncSkill_frame_always head vendorName vendorPath vendorSkillsPath s :
  reads_head head ->
  steady (frame keep) (syncSkill vendorName vendorPath vendorSkillsPath (s, o)).
Proof.
  intros Hhead. unfold syncSkill, join.
  change (root ++ ["skills"; o]) with (output_path o).
  apply steady_bind; [apply _|steady_quiet_step|]. intros found.
  destruct (negb found); [steady_quiet_step|].
  apply steady_bind; [apply _|steady_quiet_step|]. intros _.
  apply steady_bind; [apply _|steady_quiet_step|]. intros present.
  apply steady_bind; [apply _| |intros _].
  { destruct present; [apply rmSync_frame|steady_quiet_step]. }
  apply steady_bind; [apply _|apply mkdirSync_frame; by left|]. intros _.
  apply steady_bind; [apply _|steady_quiet_step|]. intros files.
  apply steady_bind; [apply _| |intros _].
  { apply steady_for_of; [apply _|]. intros file _. apply copyFile_frame. }
  apply steady_bind; [apply _|apply copyLicense_frame|]. intros _.
  apply steady_bind; [apply _|by apply (steady_getGitSha _ head)|]. intros sha.
  apply steady_bind; [apply _|steady_quiet_step|]. intros iso.
  apply steady_bind; [apply _|apply writeFileSync_frame|]. intros _.
  steady_quiet_step.
Qed.

End Round.

(** The entries that no round of [sync] reaches: all but [skills] itself
    and what lies in the output directory of a configured pair. *)
Definition out_of_reach (k : fpath) : Prop :=
  k <> ["skills"] /\ forall o, o ∈ outputs vendors -> ~ output_path o `prefix_of` k.

Lemma syncVendor_frame_always head vendor :
  reads_head head -> vendor ∈ vendors -> steady (frame out_of_reach) (syncVendor vendor).
Proof.
  intros Hhead Hin. destruct vendor as [vendorName config]. unfold syncVendor.
  apply steady_bind; [apply _|steady_quiet_step|]. intros found.
  destruct (negb found); [steady_quiet_step|].
  apply steady_bind; [apply _|steady_quiet_step|]. intros found'.
  destruct (negb found'); [steady_quiet_step|].
  apply steady_for_of; [apply _|]. intros [s o] Hp.
  apply (syncSkill_frame_always out_of_reach o) with (head := head); [|done].
  intros k [Hk1 Hk2]. split; [done|]. apply Hk2. by eapply elem_of_outputs.
Qed.

(** The run of [sync] whose update fails. *)
Lemma sync_failed_run st e fs1 env1 :
  execSync update_command root (st_fs st) (st_env st) = (Throw e, fs1, env1) ->
  syncSubmodules st =
    (Ret tt, {| st_fs := fs1; st_env := env1 |},
     updating ++ [ESpinnerStop ("Failed to update submodules: " +:+ e)]).
Proof.
  intros Hup. unfold syncSubmodules, M_bind, try_catch, emit, exec, M_ret.
  cbn [st_fs st_env]. rewrite Hup. by cbn [app negb].
Qed.

(** X7: once the update of the submodules has run, [sync] changes nothing
    but [skills] itself and what lies in the output directory of a
    configured pair, in every run: also in one whose update failed, and in
    one that a failing file-system call ends in the middle of the loops.
    Every other entry (the checkouts, the manifest, a skill directory that
    is no output of a vendor) and the environment are as the update left
    them, and [skills] itself, when it is there, is neither removed nor
    replaced. *)
Theorem sync_confined head st r fs1 env1 :
  reads_head head ->
  execSync update_command root (st_fs st) (st_env st) = (r, fs1, env1) ->
  st_env (final (syncSubmodules st)) = env1 /\
  (forall k, out_of_reach k -> st_fs (final (syncSubmodules st)) !! k = fs1 !! k) /\
  (forall e, fs1 !! ["skills"] = Some e ->
             st_fs (final (syncSubmodules st)) !! ["skills"] = Some e).
Proof.
  intros Hhead Hup. destruct r as [out|e].
  - destruct (sync_updated _ _ _ _ Hup) as (_ & -> & _).
    assert (steady (frame out_of_reach) (for_of vendors syncVendor)) as Hloop.
    { apply steady_for_of; [apply _|]. intros vendor Hin.
      by apply (syncVendor_frame_always head). }
    destruct (Hloop {| st_fs := fs1; st_env := env1 |}) as [Henv [Hkeep Hskills]].
    done.
  - by rewrite (sync_failed_run _ _ _ _ Hup).
Qed.

(** A path in the output directory of a configured pair. *)
Definition in_output (p : fpath) : Prop :=
  exists o, o ∈ outputs vendors /\ output_path o `prefix_of` p.

(** What a round of the loops of [sync] may do: read the hash of a vendor
    checkout, remove and create the output directory of a configured pair,
    write below it, and talk to the spinner or warn. *)
Definition round_event (ev : event) : Prop :=
  match ev with
  | EExec cmd cwd =>
      cmd = rev_parse /\
      exists vendorName, vendorName ∈ map fst vendors /\ cwd = vendor_path vendorName
  | EMkdir p => p = ["skills"] \/ in_output p
  | ERm p => exists o, o ∈ outputs vendors /\ p = output_path o
  | ECp _ dst => in_output dst
  | EWriteFile p _ => in_output p
  | ESpinnerStart _ | ESpinnerStop _ | ELogWarn _ => True
  | _ => False
  end.

(** What a run of [sync] may do: besides the rounds, the update at the
    root and the closing message. *)
Definition sync_event (ev : event) : Prop :=
  match ev with
  | EExec cmd cwd => (cmd = update_command /\ cwd = root) \/ round_event ev
  | ELogSuccess msg => msg = "All skills synced"
  | _ => round_event ev
  end.

Lemma copyFile_emits sourceSkillPath o file :
  o ∈ outputs vendors -> emits round_event (copyFile sourceSkillPath (output_path o) file).
Proof.
  intros Ho. unfold copyFile. destruct (isFile file); [|apply emits_ret].
  unfold join, dirname.
  set (rel := replace_first (parentPath file ++ [dname file]) sourceSkillPath).
  apply emits_bind; [apply emits_existsSync|]. intros found.
  apply emits_bind.
  - destruct (negb found); [|apply emits_ret].
    apply emits_change. cbn [round_event].
    destruct (decide (rel = [])) as [->|Hrel].
    + left. by rewrite app_nil_r.
    + right. exists o. split; [done|]. rewrite removelast_app by done. by eexists.
  - intros _. apply emits_change. exists o. split; [done|]. by eexists.
Qed.

Lemma copyLicense_emits vendorPath o names :
  o ∈ outputs vendors -> emits round_event (copyLicense vendorPath (output_path o) names).
Proof.
  intros Ho. induction names as [|n names IH]; [apply emits_ret|].
  cbn [copyLicense]. apply emits_bind; [apply emits_existsSync|]. intros found.
  destruct found; [|exact IH].
  apply emits_change. exists o. split; [done|]. by eexists.
Qed.

Lemma syncSkill_emits vendorName s o :
  vendorName ∈ map fst vendors -> o ∈ outputs vendors ->
  emits round_event
    (syncSkill vendorName (vendor_path vendorName) (vendor_path vendorName ++ ["skills"]) (s, o)).
Proof.
  intros Hv Ho. unfold syncSkill, join.
  change (root ++ ["skills"; o]) with (output_path o).
  apply emits_bind; [apply emits_existsSync|]. intros found.
  destruct (negb found); [by apply emits_emit|].
  apply emits_bind; [by apply emits_emit|]. intros _.
  apply emits_bind; [apply emits_existsSync|]. intros present.
  apply emits_bind.
  { destruct present; [|apply emits_ret]. apply emits_change. by exists o. }
  intros _. apply emits_bind.
  { apply emits_change. right. by exists o. }
  intros _. apply emits_bind; [apply emits_readdirSync|]. intros files.
  apply emits_bind.
  { apply emits_for_of. intros file _. by apply copyFile_emits. }
  intros _. apply emits_bind; [by apply copyLicense_emits|]. intros _.
  apply emits_bind.
  { apply emits_execSafe. split; [done|]. by exists vendorName. }
  intros sha. apply emits_bind; [apply emits_now_iso|]. intros iso.
  apply emits_bind; [|intros _; by apply emits_emit].
  apply emits_change. exists o. split; [done|]. by eexists.
Qed.

Lemma syncVendor_emits vendor : vendor ∈ vendors -> emits round_event (syncVendor vendor).
Proof.
  intros Hin. destruct vendor as [vendorName config]. unfold syncVendor.
  change (join root ["vendor"; vendorName]) with (vendor_path vendorName). unfold join.
  apply emits_bind; [apply emits_existsSync|]. intros found.
  destruct (negb found); [by apply emits_emit|].
  apply emits_bind; [apply emits_existsSync|]. intros found'.
  destruct (negb found'); [by apply emits_emit|].
  apply emits_for_of. intros [s o] Hp. apply syncSkill_emits.
  - apply list_elem_of_In, in_map_iff. exists (vendorName, config).
    split; [done|]. by apply list_elem_of_In.
  - by eapply elem_of_outputs.
Qed.

Lemma sync_loop_emits : emits round_event (for_of vendors syncVendor).
Proof. apply emits_for_of. intros vendor Hin. by apply syncVendor_emits. Qed.

Lemma round_sync_event ev : round_event ev -> sync_event ev.
Proof. destruct ev; cbn; try done. by right. Qed.

(** X8: in every run, whatever the commands answer, [sync] runs no other
    command than the update at the root and [git rev-parse HEAD] in the
    checkout of a configured vendor; it removes nothing but the output
    directory of a configured pair, creates and writes nothing but [skills]
    and what lies in such a directory, and opens no prompt. *)
Theorem sync_only_outputs st : Forall sync_event (trace (syncSubmodules st)).
Proof.
  revert st. change (emits sync_event syncSubmodules).
  apply emits_bind; [by apply emits_emit|]. intros _.
  apply emits_bind.
  - apply emits_try_catch.
    + apply emits_bind; [apply emits_exec; by left|]. intros _.
      apply emits_bind; [by apply emits_emit|]. intros _. apply emits_ret.
    + intros e. apply emits_bind; [by apply emits_emit|]. intros _. apply emits_ret.
  - intros updated. destruct (negb updated); [apply emits_ret|].
    apply emits_bind; [|intros _; by apply emits_emit].
    intros st. eapply Forall_impl; [apply sync_loop_emits|apply round_sync_event].
Qed.

(** X9: the closing message [All skills synced] is in the trace of a run
    of [sync] exactly when the update succeeded and the run returned: a run
    whose update failed, and a run that a failing file-system call ended,
    do not print it. *)
Theorem sync_success_message st :
  ELogSuccess "All skills synced" ∈ trace (syncSubmodules st) <->
  (exists out, (execSync update_command root (st_fs st) (st_env st)).1.1 = Ret out) /\
  result (syncSubmodules st) = Ret tt.
Proof.
  destruct (execSync update_command root (st_fs st) (st_env st)) as [[[out|e] fs1] env1] eqn:Hup.
  - destruct (sync_updated _ _ _ _ Hup) as (Hr & _ & Ht). rewrite Hr, Ht. cbn [fst].
    pose proof (sync_loop_emits {| st_fs := fs1; st_env := env1 |}) as Hloop.
    rewrite Forall_forall in Hloop.
    destruct (result (for_of vendors syncVendor _)) as [[]|e] eqn:Hres.
    + split; [by eauto|]. intros _. rewrite !elem_of_app. right. right. right. by left.
    + split; [|by intros [_ ?]]. rewrite app_nil_r, !elem_of_app.
      intros [Hin|[Hin|Hin]].
      * unfold updating in Hin. by repeat (apply elem_of_cons in Hin as [?|Hin]; [done|]);
          apply elem_of_nil in Hin.
      * by apply list_elem_of_singleton in Hin.
      * by apply Hloop in Hin.
  - rewrite (sync_failed_run _ _ _ _ Hup).
    unfold trace; cbn [fst snd]. split; [|by intros [[? ?] _]].
    intros Hin. unfold updating in Hin. cbn [app] in Hin.
    by repeat (apply elem_of_cons in Hin as [?|Hin]; [done|]); apply elem_of_nil in Hin.
Qed.

(** *** [sync]: the license and the directories of an output *)

Lemma first_license_found fs vendorPath before n after :
  (forall m, m ∈ before -> Fs.exists_ fs (vendorPath ++ [m]) = false) ->
  Fs.exists_ fs (vendorPath ++ [n]) = true ->
  first_license fs vendorPath (before ++ n :: after) = Some (vendorPath ++ [n]).
Proof.
  intros Hbefore Hn. induction before as [|m before IH]; cbn [app first_license].
  - by rewrite Hn.
  - rewrite Hbefore by (by left). apply IH. intros m' Hm'. apply Hbefore. by right.
Qed.

Lemma first_license_none fs vendorPath names :
  (forall m, m ∈ names -> Fs.exists_ fs (vendorPath ++ [m]) = false) ->
  first_license fs vendorPath names = None.
Proof.
  intros Hnone. induction names as [|m names IH]; [done|]. cbn [first_license].
  rewrite Hnone by (by left). apply IH. intros m' Hm'. apply Hnone. by right.
Qed.

(** X10: after a [sync] that completes, the [LICENSE.md] of a synced output
    directory is the copy of the first file of the vendor checkout's root,
    in the order LICENSE, LICENSE.md, LICENSE.txt, license, license.md,
    license.txt, that exists; a license file of the source skill itself is
    kept only when the vendor root has none of the six. *)
Theorem sync_license head st out fs1 env1 vendorName config s o :
  execSync update_command root (st_fs st) (st_env st) = (Ret out, fs1, env1) ->
  reads_head head -> well_formed fs1 -> NoDup (outputs vendors) ->
  (vendorName, config) ∈ vendors -> (s, o) ∈ skills config ->
  fs1 !! source_path vendorName s = Some Dir ->
  result (syncSubmodules st) = Ret tt ->
  (forall before n after,
      licenseNames = before ++ n :: after ->
      (forall m, m ∈ before -> Fs.exists_ fs1 (vendor_path vendorName ++ [m]) = false) ->
      Fs.exists_ fs1 (vendor_path vendorName ++ [n]) = true ->
      exists c,
        fs1 !! (vendor_path vendorName ++ [n]) = Some (File c) /\
        st_fs (final (syncSubmodules st)) !! (output_path o ++ ["LICENSE.md"])
        = Some (File c)) /\
  ((forall n, n ∈ licenseNames -> Fs.exists_ fs1 (vendor_path vendorName ++ [n]) = false) ->
   forall c,
     st_fs (final (syncSubmodules st)) !! (output_path o ++ ["LICENSE.md"]) = Some (File c)
     <-> fs1 !! (source_path vendorName s ++ ["LICENSE.md"]) = Some (File c)).
Proof.
  intros Hup Hhead Hwf Hnd Hv Hp Hdir Hret.
  destruct (sync_run_pair head _ _ _ _ _ _ _ _ Hup Hhead Hwf Hnd Hv Hp Hdir Hret)
    as (_ & _ & fsA & fsB & Hsame & Hsynced & Hfinal).
  rewrite Hfinal by (by eexists).
  assert (first_license fsA (vendor_path vendorName) licenseNames
          = first_license fs1 (vendor_path vendorName) licenseNames) as Hlic.
  { apply first_license_agree. intros n. apply Hsame. by intros [? [=]]. }
  split.
  - intros before n after Hnames Hbefore Hn.
    destruct (synced_license _ _ _ _ _ _ Hsynced (vendor_path vendorName ++ [n]))
      as (c & Hc & Hout).
    { rewrite Hlic, Hnames. by apply first_license_found. }
    exists c. split; [|done]. rewrite <- Hc. symmetry. apply Hsame. by intros [? [=]].
  - intros Hnone c.
    rewrite (synced_below _ _ _ _ _ _ Hsynced ["LICENSE.md"] (File c)); [|done|done|].
    2: { intros _. rewrite Hlic. by apply first_license_none. }
    rewrite <- (Hsame (source_path vendorName s ++ ["LICENSE.md"])) by (by intros [? [=]]).
    unfold mirror_at. split.
    + intros [(c' & [= ->] & _ & ?)|(? & _)]; done.
    + intros ?. left. by exists c.
Qed.

(** X11: after a [sync] that completes, the output directory of a synced
    pair exists, and a directory below it is there exactly when the source
    skill holds a file somewhere below the directory of the same relative
    path: the directories come with the files, so that a directory of the
    source with no file below it has no counterpart in the output. *)
Theorem sync_directories head st out fs1 env1 vendorName config s o :
  execSync update_command root (st_fs st) (st_env st) = (Ret out, fs1, env1) ->
  reads_head head -> well_formed fs1 -> NoDup (outputs vendors) ->
  (vendorName, config) ∈ vendors -> (s, o) ∈ skills config ->
  fs1 !! source_path vendorName s = Some Dir ->
  result (syncSubmodules st) = Ret tt ->
  st_fs (final (syncSubmodules st)) !! output_path o = Some Dir /\
  (forall r,
      r <> [] -> r <> ["LICENSE.md"] -> r <> ["SYNC.md"] ->
      st_fs (final (syncSubmodules st)) !! (output_path o ++ r) = Some Dir
      <-> exists r' c,
            r `prefix_of` r' /\ r <> r' /\
            fs1 !! (source_path vendorName s ++ r') = Some (File c)) /\
  (forall r,
      r <> [] -> r <> ["LICENSE.md"] -> r <> ["SYNC.md"] ->
      (forall r' c, r `prefix_of` r' ->
                    fs1 !! (source_path vendorName s ++ r') <> Some (File c)) ->
      st_fs (final (syncSubmodules st)) !! (output_path o ++ r) = None).
Proof.
  intros Hup Hhead Hwf Hnd Hv Hp Hdir Hret.
  destruct (sync_run_pair head _ _ _ _ _ _ _ _ Hup Hhead Hwf Hnd Hv Hp Hdir Hret)
    as (_ & _ & fsA & fsB & Hsame & Hsynced & Hfinal).
  assert (forall r', fsA !! (source_path vendorName s ++ r')
                     = fs1 !! (source_path vendorName s ++ r')) as Hsrc.
  { intros r'. apply Hsame. by intros [? [=]]. }
  split; [|split].
  - rewrite Hfinal by done. by apply (synced_dirs _ _ _ _ _ _ Hsynced).
  - intros r Hr0 Hr1 Hr2. rewrite Hfinal by (by eexists).
    rewrite (synced_below _ _ _ _ _ _ Hsynced r Dir) by done.
    unfold mirror_at. setoid_rewrite Hsrc. split.
    + intros [(c & ? & _)|(_ & r' & c & ? & ? & _ & ?)]; [done|]. by exists r', c.
    + intros (r' & c & ? & ? & ?). right. split; [done|]. by exists r', c.
  - intros r Hr0 Hr1 Hr2 Hnone. rewrite Hfinal by (by eexists).
    destruct (fsB !! (output_path o ++ r)) as [e|] eqn:E; [|done]. exfalso.
    apply (synced_below _ _ _ _ _ _ Hsynced r e) in E; [|done..].
    destruct E as [(c & _ & _ & Hc)|(_ & r' & c & Hpre & _ & _ & Hc)]; rewrite Hsrc in Hc.
    + by apply (Hnone r c).
    + by apply (Hnone r' c).
Qed.

(** *** [sync]: a vendor without a checkout *)

Definition missing_vendor (vendorName : string) : event :=
  ELogWarn ("Vendor submodule not found: " +:+ vendorName +:+ ". Run init first.").

Definition missing_skills (vendorName : string) : event :=
  ELogWarn ("No skills directory in vendor/" +:+ vendorName +:+ "/skills/").

(** The commands of the round of a vendor run in its checkout. *)
Lemma syncVendor_cwd vendorName config :
  emits (fun ev => forall cmd cwd, ev = EExec cmd cwd -> cwd = vendor_path vendorName)
        (syncVendor (vendorName, config)).
Proof.
  set (P := fun ev : event => forall cmd cwd, ev = EExec cmd cwd -> cwd = vendor_path vendorName).
  assert (forall ev, (forall cmd cwd, ev <> EExec cmd cwd) -> P ev) as Hother.
  { intros ev Hev cmd cwd ->. by destruct (Hev cmd cwd). }
  unfold syncVendor.
  change (join root ["vendor"; vendorName]) with (vendor_path vendorName).
  apply emits_bind; [apply emits_existsSync|]. intros found.
  destruct (negb found); [by apply emits_emit, Hother|].
  apply emits_bind; [apply emits_existsSync|]. intros found'.
  destruct (negb found'); [by apply emits_emit, Hother|].
  apply emits_for_of. intros [s o] _. unfold syncSkill.
  apply emits_bind; [apply emits_existsSync|]. intros found''.
  destruct (negb found''); [by apply emits_emit, Hother|].
  apply emits_bind; [by apply emits_emit, Hother|]. intros _.
  apply emits_bind; [apply emits_existsSync|]. intros present.
  apply emits_bind.
  { destruct present; [by apply emits_change, Hother|apply emits_ret]. }
  intros _. apply emits_bind; [by apply emits_change, Hother|]. intros _.
  apply emits_bind; [apply emits_readdirSync|]. intros files.
  apply emits_bind.
  { apply emits_for_of. intros file _. unfold copyFile.
    destruct (isFile file); [|apply emits_ret].
    apply emits_bind; [apply emits_existsSync|]. intros found3.
    apply emits_bind; [|intros _; by apply emits_change, Hother].
    destruct (negb found3); [by apply emits_change, Hother|apply emits_ret]. }
  intros _. apply emits_bind.
  { induction licenseNames as [|n names IH]; [apply emits_ret|].
    cbn [copyLicense]. apply emits_bind; [apply emits_existsSync|]. intros found3.
    destruct found3; [by apply emits_change, Hother|exact IH]. }
  intros _. apply emits_bind.
  { apply emits_execSafe. by intros cmd cwd [= _ <-]. }
  intros sha. apply emits_bind; [apply emits_now_iso|]. intros iso.
  apply emits_bind; [by apply emits_change, Hother|]. intros _.
  by apply emits_emit, Hother.
Qed.

(** The round of a vendor leaves the checkouts as they are. *)
Lemma syncVendor_keeps_vendor head vendor st st' t rest :
  reads_head head -> tidy (st_fs st) ->
  syncVendor vendor st = (Ret tt, st', t) ->
  tidy (st_fs st') /\
  Fs.exists_ (st_fs st') ("vendor" :: rest) = Fs.exists_ (st_fs st) ("vendor" :: rest).
Proof.
  intros Hhead Htidy Hrun. destruct vendor as [vn cfg].
  apply (syncVendor_frame head) in Hrun as (_ & Htidy' & _ & Hframe); [|done..].
  split; [done|]. apply exists_agree, Hframe.
  intros s o _ _. split; [apply vendor_not_output|done].
Qed.

Lemma vendors_loop_missing head vs st st' t vendorName config :
  reads_head head -> tidy (st_fs st) ->
  for_of vs syncVendor st = (Ret tt, st', t) ->
  (vendorName, config) ∈ vs ->
  (Fs.exists_ (st_fs st) (vendor_path vendorName) = false ->
   missing_vendor vendorName ∈ t /\
   forall cmd, EExec cmd (vendor_path vendorName) ∉ t) /\
  (Fs.exists_ (st_fs st) (vendor_path vendorName) = true ->
   Fs.exists_ (st_fs st) (vendor_path vendorName ++ ["skills"]) = false ->
   missing_skills vendorName ∈ t /\
   forall cmd, EExec cmd (vendor_path vendorName) ∉ t).
Proof.
  intros Hhead. revert st t.
  assert (forall ws sa sb tb,
            tidy (st_fs sa) -> for_of ws syncVendor sa = (Ret tt, sb, tb) ->
            Fs.exists_ (st_fs sa) (vendor_path vendorName) = false \/
            Fs.exists_ (st_fs sa) (vendor_path vendorName ++ ["skills"]) = false ->
            forall cmd, EExec cmd (vendor_path vendorName) ∉ tb) as Hquiet.
  { induction ws as [|[vn cfg] ws IH]; intros sa sb tb Htidy Hrun Hex cmd.
    { injection Hrun as _ <-. apply not_elem_of_nil. }
    apply for_of_ret in Hrun as (st1 & t1 & t2 & Hstep & Hrest & ->).
    destruct (syncVendor_keeps_vendor head _ _ _ _ [vendorName] Hhead Htidy Hstep)
      as [Htidy1 Hex1].
    destruct (syncVendor_keeps_vendor head _ _ _ _ [vendorName; "skills"] Hhead Htidy Hstep)
      as [_ Hex2].
    intros [Hin|Hin]%elem_of_app.
    - pose proof (syncVendor_cwd vn cfg sa) as Hcwd. rewrite Hstep in Hcwd.
      unfold trace in Hcwd; cbn [snd] in Hcwd. rewrite Forall_forall in Hcwd.
      specialize (Hcwd _ Hin cmd _ eq_refl). injection Hcwd as <-.
      rewrite syncVendor_run in Hstep.
      destruct Hex as [Hex|Hex]; rewrite ?Hex in Hstep.
      + injection Hstep as _ <-. by apply list_elem_of_singleton in Hin.
      + destruct (Fs.exists_ (st_fs sa) (vendor_path vendorName));
          injection Hstep as _ <-; by apply list_elem_of_singleton in Hin.
    - revert Hin. apply (IH st1 sb t2); [done..|].
      change (vendor_path vendorName) with ("vendor" :: [vendorName]) in *.
      change (("vendor" :: [vendorName]) ++ ["skills"])
        with ("vendor" :: [vendorName; "skills"]) in *.
      rewrite Hex1, Hex2. done. }
  induction vs as [|[vn cfg] vs IH]; intros st t Htidy Hrun Hin.
  { by apply elem_of_nil in Hin. }
  pose proof Hrun as Hwhole.
  apply for_of_ret in Hrun as (st1 & t1 & t2 & Hstep & Hrest & ->).
  destruct (syncVendor_keeps_vendor head _ _ _ _ [vendorName] Hhead Htidy Hstep)
    as [Htidy1 Hex1].
  destruct (syncVendor_keeps_vendor head _ _ _ _ [vendorName; "skills"] Hhead Htidy Hstep)
    as [_ Hex2].
  change ("vendor" :: [vendorName]) with (vendor_path vendorName) in *.
  change ("vendor" :: [vendorName; "skills"]) with (vendor_path vendorName ++ ["skills"]) in *.
  assert (Fs.exists_ (st_fs st) (vendor_path vendorName) = false ->
          forall cmd, EExec cmd (vendor_path vendorName) ∉ t1 ++ t2) as Hq1.
  { intros Hex. apply (Hquiet _ _ _ _ Htidy Hwhole). by left. }
  assert (Fs.exists_ (st_fs st) (vendor_path vendorName ++ ["skills"]) = false ->
          forall cmd, EExec cmd (vendor_path vendorName) ∉ t1 ++ t2) as Hq2.
  { intros Hex. apply (Hquiet _ _ _ _ Htidy Hwhole). by right. }
  apply elem_of_cons in Hin as [[= <- <-]|Hin].
  - rewrite syncVendor_run in Hstep. split.
    + intros Hex. split; [|by apply Hq1].
      rewrite Hex in Hstep. injection Hstep as _ <-. apply elem_of_app. left. by left.
    + intros Hex Hex'. split; [|by apply Hq2].
      rewrite Hex, Hex' in Hstep. injection Hstep as _ <-. apply elem_of_app. left. by left.
  - destruct (IH st1 t2 Htidy1 Hrest Hin) as [IH1 IH2]. split.
    + intros Hex. split; [|by apply Hq1].
      apply elem_of_app. right. apply IH1. by rewrite Hex1.
    + intros Hex Hex'. split; [|by apply Hq2].
      apply elem_of_app. right. apply IH2; by rewrite ?Hex1, ?Hex2.
Qed.

(** X12: a configured vendor without a checkout, or whose checkout has no
    [skills] directory, is passed over with a warning: a [sync] that
    completes has printed [Vendor submodule not found: <name>. Run init
    first.] in the first case and [No skills directory in
    vendor/<name>/skills/] in the second, and has run no command in the
    directory of that vendor. *)
Theorem sync_missing_vendor head st out fs1 env1 vendorName config :
  execSync update_command root (st_fs st) (st_env st) = (Ret out, fs1, env1) ->
  reads_head head -> well_formed fs1 ->
  (vendorName, config) ∈ vendors ->
  result (syncSubmodules st) = Ret tt ->
  (Fs.exists_ fs1 (vendor_path vendorName) = false ->
   missing_vendor vendorName ∈ trace (syncSubmodules st) /\
   forall cmd, EExec cmd (vendor_path vendorName) ∉ trace (syncSubmodules st)) /\
  (Fs.exists_ fs1 (vendor_path vendorName) = true ->
   Fs.exists_ fs1 (vendor_path vendorName ++ ["skills"]) = false ->
   missing_skills vendorName ∈ trace (syncSubmodules st) /\
   forall cmd, EExec cmd (vendor_path vendorName) ∉ trace (syncSubmodules st)).
Proof.
  intros Hup Hhead Hwf Hv Hret.
  destruct (sync_loop_ret _ _ _ _ Hup Hret) as [t Hloop].
  destruct (sync_updated _ _ _ _ Hup) as (Hr & _ & Ht).
  rewrite Hloop in Hr, Ht. unfold result, trace in Hr, Ht; cbn [fst snd] in Hr, Ht.
  assert (forall ev, ev ∈ t -> ev ∈ trace (syncSubmodules st)) as Hsub.
  { intros ev Hev. unfold trace. rewrite Ht. rewrite !elem_of_app. auto. }
  assert (forall cmd, EExec cmd (vendor_path vendorName) ∈ trace (syncSubmodules st) ->
                      EExec cmd (vendor_path vendorName) ∈ t) as Hexec.
  { intros cmd. unfold trace. rewrite Ht, !elem_of_app.
    intros [Hin|[Hin|[Hin|Hin]]]; [| |done|].
    - unfold updating in Hin.
      by repeat (apply elem_of_cons in Hin as [?|Hin]; [done|]); apply elem_of_nil in Hin.
    - by apply list_elem_of_singleton in Hin.
    - by apply list_elem_of_singleton in Hin. }
  destruct (vendors_loop_missing head vendors {| st_fs := fs1; st_env := env1 |} _ t
              vendorName config Hhead (well_formed_tidy _ Hwf) Hloop Hv) as [H1 H2].
  cbn [st_fs] in H1, H2. split.
  - intros Hex. destruct (H1 Hex) as [Hwarn Hnone]. split; [by apply Hsub|].
    intros cmd Hin. by apply (Hnone cmd), Hexec.
  - intros Hex Hex'. destruct (H2 Hex Hex') as [Hwarn Hnone]. split; [by apply Hsub|].
    intros cmd Hin. by apply (Hnone cmd), Hexec.
Qed.

(** *** [sync]: two pairs with one output name *)

(** X13: when several configured pairs name the same output directory,
    the pair that comes last in the registry decides: after a [sync] that
    completes, the files of the output, its [LICENSE.md] and [SYNC.md]
    apart, are those of the source of the last pair whose output it is,
    whatever the earlier pairs copied there. *)
Theorem sync_last_pair_wins head st out fs1 env1 vs1 vendorName config vs2 ps1 s o ps2 :
  execSync update_command root (st_fs st) (st_env st) = (Ret out, fs1, env1) ->
  reads_head head -> well_formed fs1 ->
  vendors = vs1 ++ (vendorName, config) :: vs2 ->
  skills config = ps1 ++ (s, o) :: ps2 ->
  (forall s', (s', o) ∉ ps2) ->
  (forall vendorName' config' s', (vendorName', config') ∈ vs2 -> (s', o) ∉ skills config') ->
  fs1 !! source_path vendorName s = Some Dir ->
  result (syncSubmodules st) = Ret tt ->
  forall r c,
    r <> ["LICENSE.md"] -> r <> ["SYNC.md"] ->
    st_fs (final (syncSubmodules st)) !! (output_path o ++ r) = Some (File c)
    <-> fs1 !! (source_path vendorName s ++ r) = Some (File c).
Proof.
  intros Hup Hhead Hwf Hvs Hps Hps2 Hvs2 Hdir Hret r c Hr1 Hr2.
  destruct (sync_loop_ret _ _ _ _ Hup Hret) as [t Hloop]. rewrite Hvs in Hloop.
  assert (Fs.exists_ fs1 (vendor_path vendorName) = true) as Hex1.
  { apply (well_formed_exists fs1 (source_path vendorName s)); [done|by eexists|done|].
    by exists ["skills"; s]. }
  assert (Fs.exists_ fs1 (vendor_path vendorName ++ ["skills"]) = true) as Hex2.
  { apply (well_formed_exists fs1 (source_path vendorName s)); [done|by eexists|done|].
    by exists [s]. }
  assert (Fs.exists_ fs1 (source_path vendorName s) = true) as Hex3.
  { by apply (exists_true _ _ Dir). }
  apply (sync_pair head vs1 vendorName config vs2 ps1 s o ps2
           {| st_fs := fs1; st_env := env1 |} _ _ Hhead (well_formed_tidy _ Hwf) Hps
           Hps2 Hvs2 Hex1 Hex2 Hex3) in Hloop.
  destruct Hloop as (_ & _ & fsA & fsB & Hsame & Hsynced & Hfinal).
  rewrite Hfinal by (by eexists). cbn [st_fs st_env] in *.
  by apply (synced_files fs1 fsA fsB (vendor_path vendorName) vendorName s o
              (sync_data head env1 vendorName s (vendor_path vendorName)) r c).
Qed.

(** *** [init] *)

(** What the round of [project] in the loop of [init] may do. *)
Definition add_event (project : Project) (ev : event) : Prop :=
  match ev with
  | EExec cmd cwd => cmd = add_command project /\ cwd = root
  | EMkdir p => p = dirname (path project)
  | ESpinnerStart _ | ESpinnerStop _ => True
  | _ => False
  end.

(** What a run of [init] may do: talk to the terminal, create [sources]
    and [vendor], and add a configured project at the root. *)
Definition init_event (ev : event) : Prop :=
  match ev with
  | EExec cmd cwd => cwd = root /\ exists project, project ∈ allProjects /\ cmd = add_command project
  | EMkdir p => p = ["sources"] \/ p = ["vendor"]
  | ERm _ | ECp _ _ | EWriteFile _ _ => False
  | _ => True
  end.

Lemma emits_weaken {A} (P Q : event -> Prop) (m : M A) :
  (forall ev, P ev -> Q ev) -> emits P m -> emits Q m.
Proof. intros HPQ Hm st. eapply Forall_impl; [apply Hm|done]. Qed.

Lemma addSubmodule_emits project : emits (add_event project) (addSubmodule project).
Proof.
  unfold addSubmodule, join.
  apply emits_bind; [by apply emits_emit|]. intros _.
  apply emits_bind; [apply emits_existsSync|]. intros found.
  apply emits_bind.
  { destruct (negb found); [by apply emits_change|apply emits_ret]. }
  intros _. apply emits_try_catch.
  - apply emits_bind; [by apply emits_exec|]. intros _. by apply emits_emit.
  - intros e. by apply emits_emit.
Qed.

Lemma add_init_event project ev : project ∈ allProjects -> add_event project ev -> init_event ev.
Proof.
  intros Hin. destruct ev; cbn; try done.
  - intros [-> ->]. split; [done|]. by exists project.
  - intros ->. by apply allProjects_parent.
Qed.

Lemma filter_of_sub {A} (xs : list A) (test : A -> M bool) st kept :
  result (filter_of xs test st) = Ret kept -> kept ⊆ xs.
Proof.
  revert st kept. induction xs as [|x xs IH]; intros st kept.
  { intros [= <-]. done. }
  cbn [filter_of]. rewrite bind_run.
  destruct (test x st) as [[[keep|e] st1] t1]; [|done].
  unfold result at 1; cbn [fst]. rewrite bind_run.
  destruct (filter_of xs test st1) as [[[kept'|e] st2] t2] eqn:Hrest; [|done].
  unfold result, M_ret; cbn [fst]. intros [= <-].
  assert (kept' ⊆ xs) as Hsub by (apply (IH st1); by rewrite Hrest).
  destruct keep; intros y Hy.
  - apply elem_of_cons in Hy as [->|Hy]; [by left|]. right. by apply Hsub.
  - right. by apply Hsub.
Qed.

(** What is known of the result of [m] when it returns. *)
Lemma emits_bind_with {A B} P (Q : A -> Prop) (m : M A) (f : A -> M B) :
  emits P m -> (forall st a, result (m st) = Ret a -> Q a) ->
  (forall a, Q a -> emits P (f a)) -> emits P (M_bind m f).
Proof.
  intros Hm HQ Hf st. rewrite bind_run. specialize (Hm st). specialize (HQ st).
  destruct (m st) as [[[a|e] st1] t1]; unfold trace, result in *; cbn [fst snd] in *; [|done].
  apply Forall_app. split; [done|]. by apply Hf, HQ.
Qed.

(** X14: a run of [init] makes no file-system call that changes something
    but the creation of [sources] and of [vendor], and runs no command but
    the submodule-add of a configured project at the root (the operator
    selects among the options of the prompt): it never removes, copies or
    writes a file itself. *)
Theorem init_only_adds st :
  (forall options selected, multiselect options = Some selected -> selected ⊆ options) ->
  Forall init_event (trace (initSubmodules st)).
Proof.
  intros Hsel. revert st. change (emits init_event initSubmodules).
  unfold initSubmodules.
  apply emits_bind.
  { apply emits_filter_of. intros p. apply emits_submoduleExists. }
  intros existingProjects.
  apply (emits_bind_with _ (fun newProjects => newProjects ⊆ allProjects)).
  { apply emits_filter_of. intros p.
    apply emits_bind; [apply emits_submoduleExists|]. intros found. apply emits_ret. }
  { intros st newProjects. apply filter_of_sub. }
  intros newProjects Hnew. destruct (Nat.eqb _ _); [by apply emits_emit|].
  apply emits_bind; [by apply emits_emit|]. intros _.
  destruct (multiselect newProjects) as [selected|] eqn:Hs; [|by apply emits_emit].
  apply emits_bind.
  { apply emits_for_of. intros project Hin.
    apply (emits_weaken (add_event project)); [|apply addSubmodule_emits].
    intros ev. apply add_init_event. by apply Hnew, (Hsel _ _ Hs). }
  intros _. apply emits_bind; [by apply emits_emit|]. intros _.
  destruct (Nat.ltb _ _); [by apply emits_emit|apply emits_ret].
Qed.

(** X15: the round of a project runs its submodule-add only once the
    parent of the project's path exists, found there or created by the
    round: when the round returns, the command ran on a file system in
    which [existsSync] finds the parent and which holds every entry the
    round started with, and the round ends in the state the command left;
    when the parent is missing and cannot be created the round throws and
    has run no command. *)
Theorem add_after_parent project st :
  (result (addSubmodule project st) = Ret tt ->
   exists fs0,
     Fs.exists_ fs0 (dirname (path project)) = true /\
     (forall k e, st_fs st !! k = Some e -> fs0 !! k = Some e) /\
     final (addSubmodule project st)
     = {| st_fs := (execSync (add_command project) root fs0 (st_env st)).1.2;
          st_env := (execSync (add_command project) root fs0 (st_env st)).2 |}) /\
  (forall e, result (addSubmodule project st) = Throw e ->
             Fs.exists_ (st_fs st) (dirname (path project)) = false /\
             execs (trace (addSubmodule project st)) = []).
Proof.
  rewrite addSubmodule_run. unfold add_step.
  destruct (Fs.exists_ (st_fs st) (dirname (path project))) eqn:Hex.
  - split.
    + intros _. exists (st_fs st). split; [done|]. split; [done|].
      by destruct (execSync _ _ _ _) as [[r fs1] env1].
    + intros e. by destruct (execSync _ _ _ _) as [[r fs1] env1].
  - destruct (Fs.mkdir_p faulty _ _) as [fs0|] eqn:Hmk.
    + split.
      * intros _. exists fs0. split; [|split].
        -- destruct (decide (dirname (path project) = [])) as [Hroot|Hne].
           { rewrite Hroot in Hex. done. }
           apply (exists_true _ _ Dir). unfold Fs.stat.
           destruct (dirname (path project)) as [|d ds] eqn:Hd; [done|].
           by apply (mkdir_p_spec _ _ _ _ Hmk (d :: ds)).
        -- intros k e. by eapply mkdir_p_keeps.
        -- by destruct (execSync _ _ _ _) as [[r fs1] env1].
      * intros e. by destruct (execSync _ _ _ _) as [[r fs1] env1].
    + split; [done|]. by intros e _.
Qed.

(** X16: with a directory in the place of [.gitmodules] the test of the
    first project throws: [submoduleExists] does not answer, and [init]
    (with a project configured) ends in that exception with the state it
    started from, before any prompt, directory or command. *)
Theorem init_manifest_directory st :
  st_fs st !! [".gitmodules"] = Some Dir ->
  allProjects <> [] ->
  (forall p, exists e, submoduleExists p st = (Throw e, st, [])) /\
  exists e, initSubmodules st = (Throw e, st, []).
Proof.
  intros Hm Hsome. split.
  - intros p. rewrite submoduleExists_run, Hm. by eexists.
  - rewrite initSubmodules_unreadable by done.
    destruct allProjects; [done|]. by eexists.
Qed.

Lemma add_loop_events selected st :
  Forall (fun ev => exists project, add_event project ev)
         (trace (for_of selected addSubmodule st)).
Proof.
  revert st. change (emits (fun ev => exists project, add_event project ev)
                       (for_of selected addSubmodule)).
  apply emits_for_of. intros project _.
  apply (emits_weaken (add_event project)); [by eauto|apply addSubmodule_emits].
Qed.

(** The rest of [init], case by case. *)
Lemma init_rest_run existingProjects newProjects st :
  init_rest existingProjects newProjects st =
    if Nat.eqb (length newProjects) 0 then
      (Ret tt, st, [ELogInfo "All submodules already initialized"])
    else
      match multiselect newProjects with
      | None => (Ret tt, st, [EMultiselect newProjects; ECancel "Cancelled"])
      | Some selected =>
          match for_of selected addSubmodule st with
          | (Ret _, st1, t1) =>
              (Ret tt, st1,
               EMultiselect newProjects :: t1 ++
               ELogSuccess "Submodules initialized" ::
               (if Nat.ltb 0 (length existingProjects) then
                  [ELogInfo ("Already initialized: " +:+
                             String.concat ", " (map name existingProjects))]
                else []))
          | (Throw e, st1, t1) => (Throw e, st1, EMultiselect newProjects :: t1)
          end
      end.
Proof.
  unfold init_rest. destruct (Nat.eqb _ _); [done|].
  unfold M_bind at 1, emit at 1. destruct (multiselect newProjects) as [selected|]; [|done].
  unfold M_bind at 1. destruct (for_of selected addSubmodule st) as [[[[]|e] st1] t1]; [|done].
  unfold M_bind, emit, M_ret. by destruct (Nat.ltb _ _).
Qed.

(** X17: the closing message [Submodules initialized] is in the trace of a
    run of [init] exactly when the operator answered the prompt and the
    run returned, whatever the submodule-add commands did: it is printed
    also when every one of them failed, and when nothing was selected. *)
Theorem init_success_message st :
  ELogSuccess "Submodules initialized" ∈ trace (initSubmodules st) <->
  result (initSubmodules st) = Ret tt /\
  exists options selected,
    EMultiselect options ∈ trace (initSubmodules st) /\ multiselect options = Some selected.
Proof.
  destruct (decide (st_fs st !! [".gitmodules"] = Some Dir)) as [Hm|Hm].
  { rewrite initSubmodules_unreadable by done.
    destruct allProjects; unfold trace; cbn [snd]; split.
    - intros Hin. by apply list_elem_of_singleton in Hin.
    - intros (_ & ? & ? & Hin & _). by apply list_elem_of_singleton in Hin.
    - intros Hin. by apply elem_of_nil in Hin.
    - intros (_ & ? & ? & Hin & _). by apply elem_of_nil in Hin. }
  rewrite initSubmodules_run, init_rest_run by done.
  destruct (Nat.eqb _ _).
  { unfold trace; cbn [snd]. split.
    - intros Hin. by apply list_elem_of_singleton in Hin.
    - intros (_ & ? & ? & Hin & _). by apply list_elem_of_singleton in Hin. }
  destruct (multiselect (new_in (st_fs st))) as [selected|] eqn:Hs.
  2: { unfold trace; cbn [snd]. split.
       - intros Hin. apply elem_of_cons in Hin as [?|Hin]; [done|].
         by apply list_elem_of_singleton in Hin.
       - intros (_ & options & sel & Hin & Hsel).
         apply elem_of_cons in Hin as [[= ->]|Hin]; [congruence|].
         by apply list_elem_of_singleton in Hin. }
  pose proof (add_loop_events selected st) as Hloop. rewrite Forall_forall in Hloop.
  destruct (for_of selected addSubmodule st) as [[[[]|e] st1] t1];
    unfold trace, result in *; cbn [fst snd] in *.
  - split.
    + intros _. split; [done|].
      exists (new_in (st_fs st)), selected. split; [by left|done].
    + intros _. right. apply elem_of_app. right. by left.
  - split; [|by intros [? _]].
    intros Hin. apply elem_of_cons in Hin as [?|Hin]; [done|].
    apply Hloop in Hin as [project Hin]. done.
Qed.

(** *** [init] twice

    What git does to the manifest: the submodule-add of a configured
    project takes no path out of it, and when it succeeds it has put the
    path of the project in. *)
Definition adds_register : Prop :=
  forall project fs env r fs' env',
    project ∈ allProjects ->
    execSync (add_command project) root fs env = (r, fs', env') ->
    (forall p, registered fs p = true -> registered fs' p = true) /\
    (forall out, r = Ret out -> registered fs' (path project) = true).

Definition add_failed (project : Project) (e : string) : event :=
  ESpinnerStop ("Failed to add " +:+ name project +:+ ": " +:+ e).

Lemma add_step_registers project st st' t :
  adds_register -> project ∈ allProjects ->
  add_step project st = (Ret tt, st', t) ->
  (forall p, registered (st_fs st) p = true -> registered (st_fs st') p = true) /\
  (registered (st_fs st') (path project) = true \/ exists e, add_failed project e ∈ t).
Proof.
  intros Hgit Hin. unfold add_step.
  assert (forall fs0 t0,
            (forall p, registered (st_fs st) p = true -> registered fs0 p = true) ->
            (let '(r, fs1, env1) := execSync (add_command project) root fs0 (st_env st) in
             (Ret tt, {| st_fs := fs1; st_env := env1 |},
              t0 ++ [EExec (add_command project) root;
                     ESpinnerStop match r with
                                  | Ret _ => "Added: " +:+ name project
                                  | Throw e => "Failed to add " +:+ name project +:+ ": " +:+ e
                                  end])) = (Ret tt, st', t) ->
            (forall p, registered (st_fs st) p = true -> registered (st_fs st') p = true) /\
            (registered (st_fs st') (path project) = true \/
             exists e, add_failed project e ∈ t)) as Hrun.
  { intros fs0 t0 Hkeep.
    destruct (execSync (add_command project) root fs0 (st_env st)) as [[r fs1] env1] eqn:E.
    destruct (Hgit _ _ _ _ _ _ Hin E) as [Hmono Hadd].
    intros [= <- <-]. cbn [st_fs]. split; [by auto|].
    destruct r as [out|e]; [left; by eapply Hadd|].
    right. exists e. apply elem_of_app. right. right. by left. }
  destruct (Fs.exists_ (st_fs st) (dirname (path project))); [by apply Hrun|].
  destruct (Fs.mkdir_p faulty _ _) as [fs0|] eqn:Hmk; [|done].
  apply Hrun. intros p. unfold registered.
  destruct (st_fs st !! [".gitmodules"]) as [[c|]|] eqn:E; [|done..].
  by rewrite (mkdir_p_keeps _ _ _ _ _ _ Hmk E).
Qed.

Lemma add_loop_registers selected st st' t :
  adds_register -> selected ⊆ allProjects ->
  for_of selected addSubmodule st = (Ret tt, st', t) ->
  (forall p, registered (st_fs st) p = true -> registered (st_fs st') p = true) /\
  (forall project, project ∈ selected ->
     registered (st_fs st') (path project) = true \/ exists e, add_failed project e ∈ t).
Proof.
  intros Hgit. revert st t. induction selected as [|q qs IH]; intros st t Hsub Hrun.
  { injection Hrun as <- _. split; [done|]. intros project Hin. by apply elem_of_nil in Hin. }
  apply for_of_ret in Hrun as (st1 & t1 & t2 & Hstep & Hrest & ->).
  rewrite addSubmodule_run in Hstep.
  destruct (add_step_registers _ _ _ _ Hgit (Hsub q ltac:(by left)) Hstep) as [Hmono1 Hq].
  destruct (IH st1 t2) as [Hmono2 Hqs]; [by intros p Hp; apply Hsub; right|done|].
  split; [by auto|].
  intros project [->|Hin]%elem_of_cons.
  - destruct Hq as [Hq|[e He]]; [left; by auto|].
    right. exists e. apply elem_of_app. by left.
  - destruct (Hqs project Hin) as [?|[e He]]; [by left|].
    right. exists e. apply elem_of_app. by right.
Qed.

(** X18: with a git whose submodule-add takes no path out of the manifest
    and, when it succeeds, puts the path of its project in, a run of
    [init] that returns loses nothing: what was registered stays
    registered, and every selected project is registered afterwards unless
    its failure was reported on the spinner; so that after a run in which
    all the new projects were selected and no failure was reported, a second
    [init] finds all submodules already initialized. *)
Theorem init_registers st selected :
  adds_register ->
  st_fs st !! [".gitmodules"] ≠ Some Dir ->
  multiselect (new_in (st_fs st)) = Some selected ->
  selected ⊆ new_in (st_fs st) ->
  result (initSubmodules st) = Ret tt ->
  let st' := final (initSubmodules st) in
  (forall p, registered (st_fs st) p = true -> registered (st_fs st') p = true) /\
  (forall project, project ∈ selected ->
     registered (st_fs st') (path project) = true \/
     exists e, add_failed project e ∈ trace (initSubmodules st)) /\
  (selected = new_in (st_fs st) ->
   (forall project e, add_failed project e ∉ trace (initSubmodules st)) ->
   initSubmodules st' = (Ret tt, st', [ELogInfo "All submodules already initialized"])).
Proof.
  intros Hgit Hm Hsel Hsub. rewrite initSubmodules_run, init_rest_run by done.
  destruct (Nat.eqb (length (new_in (st_fs st))) 0) eqn:Hlen.
  { intros _. unfold final, trace; cbn [fst snd]. split; [done|]. split.
    - apply Nat.eqb_eq in Hlen. destruct (new_in (st_fs st)) eqn:Hnew; [|done].
      intros project Hin%Hsub. by apply elem_of_nil in Hin.
    - intros _ _. rewrite initSubmodules_run, init_rest_run by done. by rewrite Hlen. }
  rewrite Hsel.
  destruct (for_of selected addSubmodule st) as [[[[]|e] st1] t1] eqn:Hloop; [|done].
  intros _. unfold final, trace; cbn [fst snd].
  assert (selected ⊆ allProjects) as Hall0.
  { intros q Hq%Hsub. unfold new_in in Hq.
    apply list_elem_of_In, filter_In in Hq as [Hq _]. by apply list_elem_of_In. }
  destruct (add_loop_registers _ _ _ _ Hgit Hall0 Hloop) as [Hmono Hadded].
  split; [done|]. split.
  - intros project Hin. destruct (Hadded project Hin) as [?|[e' He]]; [by left|].
    right. exists e'. right. apply elem_of_app. by left.
  - intros -> Hquiet.
    assert (forall project, project ∈ allProjects ->
                            registered (st_fs st1) (path project) = true) as Hall.
    { intros project Hin.
      destruct (registered (st_fs st) (path project)) eqn:Hr; [by apply Hmono|].
      destruct (Hadded project) as [?|[e' He]]; [|done|].
      - unfold new_in. apply list_elem_of_In, filter_In. split; [by apply list_elem_of_In|].
        by rewrite Hr.
      - exfalso. apply (Hquiet project e'). right. apply elem_of_app. by left. }
    assert (new_in (st_fs st1) = []) as Hnone.
    { unfold new_in. apply elem_of_nil_inv. intros q Hq.
      apply list_elem_of_In, filter_In in Hq as [Hq Hr].
      apply list_elem_of_In, Hall in Hq. by rewrite Hq in Hr. }
    assert (st_fs st1 !! [".gitmodules"] ≠ Some Dir) as Hm1.
    { destruct (new_in (st_fs st)) as [|q qs] eqn:Hnew; [done|].
      assert (registered (st_fs st1) (path q) = true) as Hq.
      { apply Hall. assert (q ∈ new_in (st_fs st)) as Hin by (rewrite Hnew; by left).
        unfold new_in in Hin. apply list_elem_of_In, filter_In in Hin as [Hin _].
        by apply list_elem_of_In. }
      unfold registered in Hq. by destruct (st_fs st1 !! [".gitmodules"]) as [[c|]|]. }
    rewrite initSubmodules_run, init_rest_run by done. by rewrite Hnone.
Qed.

(** ** The dispatcher ([main])

    [main] reads the subcommand from the command line, or asks for one, and
    prints a title and a closing line around the operation; the program is
    [main().catch(console.error)]. *)

(** An entry of the menu of [p.select]. *)
Record MenuOption := { value : string; label : string; hint : string }.

(** What [main] adds to the events of the operations. *)
Inductive ui :=
| UIntro (title : string)
| UOutro (message : string)
| USelect (options : list MenuOption)
| UConsoleError (e : string)
| UScript (ev : event).

(** How a run ends: it returns, an exception leaves it, or
    [process.exit] stops the process. *)
Inductive ending (A : Type) :=
| Returns (a : A)
| Throws (e : string)
| Exits (code : Z).
Arguments Returns {A} a.
Arguments Throws {A} e.
Arguments Exits {A} code.

(** The operator at [p.select]: the value of an option, or [None] for a
    cancellation. *)
Variable select : list MenuOption -> option string.

Definition Main (A : Type) : Type := State -> ending A * State * list ui.

Definition Main_ret {A} (a : A) : Main A := fun st => (Returns a, st, []).

Definition Main_bind {A B} (m : Main A) (f : A -> Main B) : Main B := fun st =>
  match m st with
  | (Returns a, st1, t1) => let '(r, st2, t2) := f a st1 in (r, st2, t1 ++ t2)
  | (Throws e, st1, t1) => (Throws e, st1, t1)
  | (Exits code, st1, t1) => (Exits code, st1, t1)
  end.

Notation "x >>> z" := (Main_bind x (fun _ => z))
  (at level 100, z at level 200, only parsing, right associativity).

(** An operation of the script inside [main]. *)
Definition lift {A} (m : M A) : Main A := fun st =>
  let '(r, st1, t1) := m st in
  (match r with
   | Ret a => Returns a
   | Throw e => Throws e
   end, st1, map UScript t1).

Definition say (ev : ui) : Main unit := fun st => (Returns tt, st, [ev]).

(** [process.exit(code)] *)
Definition exit {A} (code : Z) : Main A := fun st => (Exits code, st, []).

Definition menu : list MenuOption :=
  [ {| value := "sync"; label := "Sync submodules";
       hint := "Pull latest and sync Type 2 skills" |};
    {| value := "init"; label := "Init submodules"; hint := "Add new submodules" |};
    {| value := "check"; label := "Check updates"; hint := "See available updates" |} ].

(** [argv] is [process.argv.slice(2)]. *)
Definition main (argv : list string) : Main unit :=
  let command := head argv in
  (* Handle subcommands directly *)
  if bool_decide (command = Some "init") then
    say (UIntro "Skills Manager - Init") >>>
    lift initSubmodules >>>
    say (UOutro "Done")
  else if bool_decide (command = Some "sync") then
    say (UIntro "Skills Manager - Sync") >>>
    lift syncSubmodules >>>
    say (UOutro "Done")
  else if bool_decide (command = Some "check") then
    say (UIntro "Skills Manager - Check") >>>
    lift checkUpdates >>>
    say (UOutro "Done")
  else
    (* No subcommand: show interactive menu *)
    say (UIntro "Skills Manager") >>>
    say (USelect menu) >>>
    match select menu with
    | None =>
        lift (emit (ECancel "Cancelled")) >>>
        exit 0
    | Some action =>
        (if String.eqb action "init" then lift initSubmodules
         else if String.eqb action "sync" then lift syncSubmodules
         else if String.eqb action "check" then lift checkUpdates
         else Main_ret tt) >>>
        say (UOutro "Done")
    end.

(** [main().catch(console.error)] *)
Definition program (argv : list string) : Main unit := fun st =>
  match main argv st with
  | (Throws e, st1, t1) => (Returns tt, st1, t1 ++ [UConsoleError e])
  | done => done
  end.

Definition ended {A} (run : ending A * State * list ui) : ending A := run.1.1.
Definition state_after {A} (run : ending A * State * list ui) : State := run.1.2.
Definition shown {A} (run : ending A * State * list ui) : list ui := run.2.

(** An operation between its title and the closing line. *)
Definition framed (title : string) (run : outcome unit * State * list event) :
    ending unit * State * list ui :=
  match run with
  | (Ret _, st1, t1) => (Returns tt, st1, UIntro title :: map UScript t1 ++ [UOutro "Done"])
  | (Throw e, st1, t1) => (Throws e, st1, UIntro title :: map UScript t1)
  end.

Lemma framed_run title (m : M unit) st :
  (say (UIntro title) >>> lift m >>> say (UOutro "Done")) st = framed title (m st).
Proof.
  unfold Main_bind, say, lift, framed. by destruct (m st) as [[[[]|e] st1] t1].
Qed.

Lemma main_menu argv st :
  head argv <> Some "init" -> head argv <> Some "sync" -> head argv <> Some "check" ->
  main argv st =
    (say (UIntro "Skills Manager") >>>
     say (USelect menu) >>>
     match select menu with
     | None => lift (emit (ECancel "Cancelled")) >>> exit 0
     | Some action =>
         (if String.eqb action "init" then lift initSubmodules
          else if String.eqb action "sync" then lift syncSubmodules
          else if String.eqb action "check" then lift checkUpdates
          else Main_ret tt) >>>
         say (UOutro "Done")
     end) st.
Proof.
  intros H1 H2 H3. unfold main.
  by rewrite !bool_decide_eq_false_2.
Qed.

(** X19: a first argument that is none of [init], [sync] and [check] is
    not refused: [main] then does what it does without an argument, it
    shows the menu. *)
Theorem main_unknown_command argv st :
  head argv <> Some "init" -> head argv <> Some "sync" -> head argv <> Some "check" ->
  main argv st = main [] st.
Proof.
  intros H1 H2 H3. by rewrite (main_menu argv), (main_menu []).
Qed.

(** X20: when the operator cancels the menu, the program prints
    [Cancelled] and leaves through [process.exit(0)]: no operation has run,
    the state is the one it started from, and the closing line is not
    printed. *)
Theorem main_cancel argv st :
  head argv <> Some "init" -> head argv <> Some "sync" -> head argv <> Some "check" ->
  select menu = None ->
  program argv st =
    (Exits 0, st, [UIntro "Skills Manager"; USelect menu; UScript (ECancel "Cancelled")]).
Proof.
  intros H1 H2 H3 Hcancel. unfold program.
  rewrite main_menu by done. by rewrite Hcancel.
Qed.

(** The operation of a subcommand and the title [main] prints for it. *)
Definition operation (command : string) : option (string * M unit) :=
  if String.eqb command "init" then Some ("Skills Manager - Init", initSubmodules)
  else if String.eqb command "sync" then Some ("Skills Manager - Sync", syncSubmodules)
  else if String.eqb command "check" then Some ("Skills Manager - Check", checkUpdates)
  else None.

Lemma main_subcommand command rest title op st :
  operation command = Some (title, op) ->
  main (command :: rest) st = framed title (op st).
Proof.
  unfold operation, main. cbn [head].
  destruct (String.eqb_spec command "init") as [->|_].
  { intros [= <- <-]. rewrite bool_decide_eq_true_2 by done. apply framed_run. }
  destruct (String.eqb_spec command "sync") as [->|_].
  { intros [= <- <-]. rewrite bool_decide_eq_false_2, bool_decide_eq_true_2 by done.
    apply framed_run. }
  destruct (String.eqb_spec command "check") as [->|_]; [|done].
  intros [= <- <-]. rewrite !bool_decide_eq_false_2, bool_decide_eq_true_2 by done.
  apply framed_run.
Qed.

Lemma main_choice action title op st :
  select menu = Some action -> operation action = Some (title, op) ->
  main [] st =
    match op st with
    | (Ret _, st1, t1) =>
        (Returns tt, st1,
         UIntro "Skills Manager" :: USelect menu :: map UScript t1 ++ [UOutro "Done"])
    | (Throw e, st1, t1) =>
        (Throws e, st1, UIntro "Skills Manager" :: USelect menu :: map UScript t1)
    end.
Proof.
  intros Hs Hop. rewrite main_menu by done. rewrite Hs.
  assert ((if String.eqb action "init" then lift initSubmodules
           else if String.eqb action "sync" then lift syncSubmodules
           else if String.eqb action "check" then lift checkUpdates
           else Main_ret tt) = lift op) as ->.
  { revert Hop. unfold operation.
    destruct (String.eqb action "init"); [by intros [= _ <-]|].
    destruct (String.eqb action "sync"); [by intros [= _ <-]|].
    destruct (String.eqb action "check"); [by intros [= _ <-]|done]. }
  unfold Main_bind, say, lift. by destruct (op st) as [[[[]|e] st1] t1].
Qed.

(** X21: an action chosen in the menu does what the subcommand of the same
    name does: the run ends the same way and in the same state, and after
    the title, which differs, and the prompt, the same events follow. *)
Theorem main_menu_choice command st :
  command ∈ ["init"; "sync"; "check"] ->
  select menu = Some command ->
  exists title events,
    shown (main [command] st) = UIntro title :: events /\
    shown (main [] st) = UIntro "Skills Manager" :: USelect menu :: events /\
    ended (main [] st) = ended (main [command] st) /\
    state_after (main [] st) = state_after (main [command] st).
Proof.
  intros Hin Hs.
  assert (exists title op, operation command = Some (title, op)) as (title & op & Hop).
  { repeat (apply elem_of_cons in Hin as [->|Hin]; [by eexists _, _|]).
    by apply elem_of_nil in Hin. }
  rewrite (main_subcommand _ _ _ _ _ Hop), (main_choice _ _ _ _ Hs Hop).
  unfold framed. destruct (op st) as [[[[]|e] st1] t1]; by eexists _, _.
Qed.

Lemma script_not_outro msg t : UOutro msg ∉ map UScript t.
Proof.
  intros Hin. apply list_elem_of_In, in_map_iff in Hin as (ev & Hev & _). done.
Qed.

Lemma framed_done title run :
  UOutro "Done" ∈ shown (framed title run) <-> ended (framed title run) = Returns tt.
Proof.
  unfold framed. destruct run as [[[[]|e] st1] t1]; unfold shown, ended; cbn [fst snd].
  - split; [done|]. intros _. right. apply elem_of_app. right. by left.
  - split; [|done]. intros Hin. apply elem_of_cons in Hin as [?|Hin]; [done|].
    by apply script_not_outro in Hin.
Qed.

(** The run of [main] without a subcommand, case by case. *)
Lemma main_menu_run argv st :
  head argv <> Some "init" -> head argv <> Some "sync" -> head argv <> Some "check" ->
  main argv st =
    match select menu with
    | None =>
        (Exits 0, st, [UIntro "Skills Manager"; USelect menu; UScript (ECancel "Cancelled")])
    | Some action =>
        match operation action with
        | Some (_, op) =>
            match op st with
            | (Ret _, st1, t1) =>
                (Returns tt, st1,
                 UIntro "Skills Manager" :: USelect menu :: map UScript t1 ++ [UOutro "Done"])
            | (Throw e, st1, t1) =>
                (Throws e, st1, UIntro "Skills Manager" :: USelect menu :: map UScript t1)
            end
        | None =>
            (Returns tt, st, [UIntro "Skills Manager"; USelect menu; UOutro "Done"])
        end
    end.
Proof.
  intros H1 H2 H3. destruct (select menu) as [action|] eqn:Hs.
  - destruct (operation action) as [[title op]|] eqn:Hop.
    + rewrite (main_menu argv), <- (main_menu []) by done. by apply (main_choice action title).
    + rewrite main_menu, Hs by done. revert Hop. unfold operation.
      destruct (String.eqb action "init"); [done|].
      destruct (String.eqb action "sync"); [done|].
      by destruct (String.eqb action "check").
  - by rewrite main_menu, Hs.
Qed.

(** In every run of [main] the closing line goes with a return. *)
Lemma main_closing argv st :
  (ended (main argv st) = Returns tt /\ UOutro "Done" ∈ shown (main argv st)) \/
  (ended (main argv st) <> Returns tt /\ UOutro "Done" ∉ shown (main argv st)).
Proof.
  assert (forall command rest, argv = command :: rest ->
            forall title op, operation command = Some (title, op) ->
            (ended (main argv st) = Returns tt /\ UOutro "Done" ∈ shown (main argv st)) \/
            (ended (main argv st) <> Returns tt /\ UOutro "Done" ∉ shown (main argv st)))
    as Hsub.
  { intros command rest -> title op Hop.
    rewrite (main_subcommand _ _ _ _ _ Hop).
    pose proof (framed_done title (op st)) as Hdone.
    destruct (ended (framed title (op st))) as [[]|e|code].
    - left. split; [done|]. by apply Hdone.
    - right. split; [done|]. by rewrite Hdone.
    - right. split; [done|]. by rewrite Hdone. }
  destruct (decide (head argv = Some "init")) as [H1|H1].
  { destruct argv as [|c rest]; [done|]. injection H1 as ->. by eapply Hsub. }
  destruct (decide (head argv = Some "sync")) as [H2|H2].
  { destruct argv as [|c rest]; [done|]. injection H2 as ->. by eapply Hsub. }
  destruct (decide (head argv = Some "check")) as [H3|H3].
  { destruct argv as [|c rest]; [done|]. injection H3 as ->. by eapply Hsub. }
  rewrite main_menu_run by done.
  destruct (select menu) as [action|].
  2: { right. unfold shown, ended; cbn [fst snd]. split; [done|]. intros Hin.
       by repeat (apply elem_of_cons in Hin as [?|Hin]; [done|]); apply elem_of_nil in Hin. }
  destruct (operation action) as [[title op]|].
  2: { left. unfold shown, ended; cbn [fst snd]. split; [done|]. right. right. by left. }
  destruct (op st) as [[[[]|e] st1] t1]; unfold shown, ended; cbn [fst snd].
  - left. split; [done|]. right. right. apply elem_of_app. right. by left.
  - right. split; [done|]. intros Hin.
    apply elem_of_cons in Hin as [?|Hin]; [done|].
    apply elem_of_cons in Hin as [?|Hin]; [done|].
    by apply script_not_outro in Hin.
Qed.

(** X22: the closing line [Done] is printed exactly when [main] returns:
    after every operation that returned, also one that only reported a
    failure, and neither after an exception nor after a cancelled menu. *)
Theorem main_done argv st :
  UOutro "Done" ∈ shown (main argv st) <-> ended (main argv st) = Returns tt.
Proof.
  destruct (main_closing argv st) as [[Hr Hd]|[Hr Hd]]; split; done.
Qed.

(** X23: no exception leaves the program: one that leaves [main] (a
    file-system call of an operation that failed) is printed by
    [console.error] after what was shown, the program ends as one that
    returned, and the closing line [Done] is not printed. *)
Theorem program_catches argv st :
  (forall e, ended (program argv st) <> Throws e) /\
  (forall e, ended (main argv st) = Throws e ->
     program argv st
     = (Returns tt, state_after (main argv st), shown (main argv st) ++ [UConsoleError e]) /\
     UOutro "Done" ∉ shown (program argv st)).
Proof.
  split.
  - intros e. unfold program. by destruct (main argv st) as [[[[]|e'|code] st1] t1].
  - intros e Hthrows.
    assert (UOutro "Done" ∉ shown (main argv st)) as Hdone.
    { destruct (main_closing argv st) as [[Hr _]|[_ Hd]]; [congruence|done]. }
    unfold program. destruct (main argv st) as [[[[]|e'|code] st1] t1];
      unfold ended, shown, state_after in *; cbn [fst snd] in *; try done.
    injection Hthrows as ->. split; [done|].
    intros Hin. apply elem_of_app in Hin as [Hin|Hin]; [done|].
    by apply list_elem_of_singleton in Hin.
Qed.

(** X24: a [sync] whose update of the submodules fails still ends with the
    closing line: the program prints the title, the failure on the spinner
    and [Done], and ends as one that returned, with the state the failed
    command left. *)
Theorem program_done_after_failed_update rest st e fs1 env1 :
  execSync update_command root (st_fs st) (st_env st) = (Throw e, fs1, env1) ->
  program ("sync" :: rest) st =
    (Returns tt, {| st_fs := fs1; st_env := env1 |},
     [UIntro "Skills Manager - Sync";
      UScript (ESpinnerStart "Updating submodules...");
      UScript (EExec update_command root);
      UScript (ESpinnerStop ("Failed to update submodules: " +:+ e));
      UOutro "Done"]).
Proof.
  intros Hup. unfold program.
  rewrite (main_subcommand "sync" rest "Skills Manager - Sync" syncSubmodules) by done.
  by rewrite (sync_failed_run _ _ _ _ Hup).
Qed.
End Script.

Arguments st_fs {Env} _.
Arguments st_env {Env} _.
Arguments result {Env A} run.
Arguments final {Env A} run.
Arguments trace {Env A} run.
Arguments sha_of {Env} head env dir.

(** ** The registry of [meta.ts] *)

Definition meta_submodules : list (string * string) :=
  [ ("vue", "https://github.com/vuejs/docs");
    ("nuxt", "https://github.com/nuxt/nuxt");
    ("vite", "https://github.com/vitejs/vite");
    ("unocss", "https://github.com/unocss/unocss") ].

Definition meta_vendors : list (string * VendorSkillMeta) :=
  [ ("slidev",
     {| official := Some true; source := "https://github.com/slidevjs/slidev";
        skills := [("slidev", "slidev")] |});
    ("vueuse",
     {| official := Some true; source := "https://github.com/vueuse/skills";
        skills := [("vueuse-functions", "vueuse")] |});
    ("vue-best-practices",
     {| official := None; source := "https://github.com/hyf0/vue-skills";
        skills := [("vue-best-practices", "vue-best-practices")] |}) ].

(** ** A machine to run the script on

    A git that answers from a table: the hash and the behind-count of each
    checkout, and whether the commands that reach the network succeed.  The
    work tree is left as it is by every command. *)

Record Git := {
  g_clock : string;
  g_online : bool;
  g_head : fpath -> option string;
  g_behind : fpath -> option nat
}.

Definition git (cmd : string) (cwd : fpath) (fs : FS) (env : Git) : outcome string * FS * Git :=
  if String.eqb cmd rev_parse then
    (match g_head env cwd with
     | Some sha => Ret (sha +:+ newline)
     | None => Throw "Error: Command failed: git rev-parse HEAD"
     end, fs, env)
  else if String.eqb cmd behind_command then
    (match g_behind env cwd with
     | Some n => Ret (decimal n +:+ newline)
     | None => Throw "Error: Command failed: git rev-list HEAD..@{u} --count"
     end, fs, env)
  else
    (if g_online env then Ret "" else Throw "Error: Command failed", fs, env).

Definition git_head (env : Git) (cwd : fpath) : outcome string :=
  match g_head env cwd with
  | Some sha => Ret (sha +:+ newline)
  | None => Throw "Error: Command failed: git rev-parse HEAD"
  end.

Lemma git_reads_head : reads_head Git git git_head.
Proof. intros cwd fs env. reflexivity. Qed.

Lemma git_counts_behind : counts_behind Git git g_behind.
Proof.
  intros cwd fs env. unfold git.
  change (String.eqb behind_command rev_parse) with false.
  change (String.eqb behind_command behind_command) with true.
  destruct (g_behind env cwd); [done|]. by eexists.
Qed.

Definition no_fault (p : fpath) : bool := false.

(** The proper prefixes of a path, the root apart. *)
Definition ancestors (k : fpath) : list fpath :=
  map (fun n => take n k) (seq 1 (length k - 1)).

Definition well_formed_b (fs : FS) : bool :=
  forallb (fun kv => forallb (fun q => bool_decide (fs !! q = Some Dir)) (ancestors kv.1))
          (map_to_list fs).

Lemma elem_of_ancestors (q k : fpath) :
  q <> [] -> q `prefix_of` k -> q <> k -> q ∈ ancestors k.
Proof.
  intros Hq [r ->] Hne. unfold ancestors. apply list_elem_of_In, in_map_iff.
  exists (length q). split; [by rewrite take_app_length|].
  apply in_seq. rewrite length_app.
  destruct q; [done|]. destruct r; [by rewrite app_nil_r in Hne|]. cbn. lia.
Qed.

Lemma well_formed_check (fs : FS) : well_formed_b fs = true -> well_formed fs.
Proof.
  unfold well_formed_b. rewrite forallb_forall.
  intros Hall k q [e Hk] Hq Hp Hne.
  apply elem_of_map_to_list, list_elem_of_In, Hall in Hk. cbn [fst] in Hk.
  rewrite forallb_forall in Hk.
  eapply bool_decide_eq_true_1, Hk, list_elem_of_In. by apply elem_of_ancestors.
Qed.

Definition tree (entries : list (fpath * entry)) : FS := list_to_map entries.

(** The checkout of the vendor slidev and an output directory left by an
    older sync. *)
Definition slidev_checkout : list (fpath * entry) :=
  [ (["vendor"], Dir);
    (["vendor"; "slidev"], Dir);
    (["vendor"; "slidev"; "LICENSE"], File "MIT");
    (["vendor"; "slidev"; "skills"], Dir);
    (["vendor"; "slidev"; "skills"; "slidev"], Dir);
    (["vendor"; "slidev"; "skills"; "slidev"; "SKILL.md"], File "X");
    (["vendor"; "slidev"; "skills"; "slidev"; "references"], Dir);
    (["vendor"; "slidev"; "skills"; "slidev"; "references"; "core.md"], File "core") ].

Definition old_output : list (fpath * entry) :=
  [ (["skills"], Dir);
    (["skills"; "slidev"], Dir);
    (["skills"; "slidev"; "stale.md"], File "stale") ].

Definition demo_fs : FS := tree (slidev_checkout ++ old_output).

Definition demo_git : Git :=
  {| g_clock := "2026-01-02T03:04:05.000Z"; g_online := true;
     g_head := fun cwd => if bool_decide (cwd = ["vendor"; "slidev"])
                          then Some "0123abc" else None;
     g_behind := fun cwd => if bool_decide (cwd = ["vendor"; "slidev"]) then Some 3
                            else if bool_decide (cwd = ["sources"; "vue"]) then Some 0
                            else None |}.

Definition demo : State Git := {| st_fs := demo_fs; st_env := demo_git |}.

Definition demo_sync : outcome unit * State Git * list event :=
  syncSubmodules Git git g_clock no_fault meta_vendors demo.

Example demo_sync_result : result demo_sync = Ret tt.
Proof. by vm_compute. Qed.

Example demo_sync_tree :
  map_to_list (filter (fun kv => ["skills"] `prefix_of` kv.1) (st_fs (final demo_sync)))
  ≡ₚ map_to_list (tree
      [ (["skills"], Dir);
        (["skills"; "slidev"], Dir);
        (["skills"; "slidev"; "SKILL.md"], File "X");
        (["skills"; "slidev"; "references"], Dir);
        (["skills"; "slidev"; "references"; "core.md"], File "core");
        (["skills"; "slidev"; "LICENSE.md"], File "MIT");
        (["skills"; "slidev"; "SYNC.md"],
         File (sync_text "slidev" "slidev" "0123abc" "2026-01-02")) ]).
Proof. by vm_compute. Qed.

Definition slidev_meta : VendorSkillMeta :=
  {| official := Some true; source := "https://github.com/slidevjs/slidev";
     skills := [("slidev", "slidev")] |}.

Lemma meta_outputs_distinct : NoDup (outputs meta_vendors).
Proof. apply (bool_decide_unpack _). by vm_compute. Qed.

Lemma demo_fs_well_formed : well_formed demo_fs.
Proof. apply well_formed_check. by vm_compute. Qed.

(** A file of the source skill is in the output directory with its
    content, and the stale file of the older sync is gone. *)
Lemma sync_mirrors_source_witness :
  (st_fs (final demo_sync) !! (output_path "slidev" ++ ["references"; "core.md"])
   = Some (File "core")
   <-> demo_fs !! (source_path "slidev" "slidev" ++ ["references"; "core.md"])
       = Some (File "core")) /\
  (st_fs (final demo_sync) !! (output_path "slidev" ++ ["stale.md"]) = Some (File "stale")
   <-> demo_fs !! (source_path "slidev" "slidev" ++ ["stale.md"]) = Some (File "stale")).
Proof.
  split;
    apply (sync_mirrors_source Git git g_clock no_fault meta_vendors git_head demo
             "" demo_fs demo_git "slidev" slidev_meta "slidev" "slidev");
    first [ reflexivity
          | exact git_reads_head
          | exact demo_fs_well_formed
          | exact meta_outputs_distinct
          | by left
          | by vm_compute
          | discriminate ].
Defined.

(** A source skill that ships a [SYNC.md] of its own, as a skill has that
    was itself synced from elsewhere. *)
Definition resynced_fs : FS :=
  tree (slidev_checkout ++
        [(["vendor"; "slidev"; "skills"; "slidev"; "SYNC.md"], File "# Sync Info (upstream)")]).

Definition resynced : State Git := {| st_fs := resynced_fs; st_env := demo_git |}.

(** The claim C1 as it is stated compares the output without its
    [LICENSE.md] and [SYNC.md] with the whole source: the [SYNC.md] of the
    source is a file of the source that the comparison leaves no room for,
    and the output holds the record of the run in its place. *)
Lemma sync_mirrors_source_counterexample :
  let run := syncSubmodules Git git g_clock no_fault meta_vendors resynced in
  result run = Ret tt /\
  resynced_fs !! (source_path "slidev" "slidev" ++ ["SYNC.md"])
  = Some (File "# Sync Info (upstream)") /\
  st_fs (final run) !! (output_path "slidev" ++ ["SYNC.md"])
  <> Some (File "# Sync Info (upstream)") /\
  ~ (forall r c,
        (r <> ["LICENSE.md"] /\ r <> ["SYNC.md"] /\
         st_fs (final run) !! (output_path "slidev" ++ r) = Some (File c))
        <-> resynced_fs !! (source_path "slidev" "slidev" ++ r) = Some (File c)).
Proof.
  cbv zeta. split; [by vm_compute|]. split; [by vm_compute|]. split.
  - apply (bool_decide_eq_false_1 _). by vm_compute.
  - intros H. destruct (H ["SYNC.md"] "# Sync Info (upstream)") as [_ H'].
    destruct H' as (_ & Hne & _); [by vm_compute|]. by apply Hne.
Qed.

(** No network: the update, the fetch and the adds fail. *)
Definition offline_git : Git :=
  {| g_clock := g_clock demo_git; g_online := false;
     g_head := g_head demo_git; g_behind := g_behind demo_git |}.

Definition offline : State Git := {| st_fs := demo_fs; st_env := offline_git |}.

Lemma sync_update_failure_witness :
  syncSubmodules Git git g_clock no_fault meta_vendors offline
  = (Ret tt, offline,
     updating ++ [ESpinnerStop ("Failed to update submodules: " +:+ "Error: Command failed")]).
Proof.
  apply (sync_update_failure Git git g_clock no_fault meta_vendors offline
           "Error: Command failed" demo_fs offline_git).
  reflexivity.
Defined.

(** The claim C2 has a fatal error raised: the run of [sync] whose update
    fails returns, it does not throw. *)
Lemma sync_update_failure_counterexample :
  git update_command root (st_fs offline) (st_env offline)
  = (Throw "Error: Command failed", demo_fs, offline_git) /\
  ~ exists e, result (syncSubmodules Git git g_clock no_fault meta_vendors offline) = Throw e.
Proof.
  split; [reflexivity|]. intros [e He]. by vm_compute in He.
Qed.

(** A vendor checkout whose commit hash cannot be resolved. *)
Definition headless_git : Git :=
  {| g_clock := g_clock demo_git; g_online := true;
     g_head := fun _ => None; g_behind := g_behind demo_git |}.

Definition headless : State Git := {| st_fs := demo_fs; st_env := headless_git |}.

Lemma sync_record_text_witness :
  st_fs (final demo_sync) !! (output_path "slidev" ++ ["SYNC.md"])
  = Some (File (sync_text "slidev" "slidev"
                  match git_head demo_git (vendor_path "slidev") with
                  | Ret sha => Js.trim sha
                  | Throw _ => "null"
                  end
                  (Js.split_head "T" (g_clock demo_git)))).
Proof.
  apply (sync_record_text Git git g_clock no_fault meta_vendors git_head demo
           "" demo_fs demo_git "slidev" slidev_meta "slidev" "slidev");
    first [ reflexivity
          | exact git_reads_head
          | exact demo_fs_well_formed
          | exact meta_outputs_distinct
          | by left
          | by vm_compute ].
Defined.

(** The claim C3 has an empty hash field when the hash cannot be resolved:
    the record holds the word null there. *)
Lemma sync_record_text_counterexample :
  let run := syncSubmodules Git git g_clock no_fault meta_vendors headless in
  git_head headless_git (vendor_path "slidev")
  = Throw "Error: Command failed: git rev-parse HEAD" /\
  st_fs (final run) !! (output_path "slidev" ++ ["SYNC.md"])
  = Some (File (sync_text "slidev" "slidev" "null" "2026-01-02")) /\
  st_fs (final run) !! (output_path "slidev" ++ ["SYNC.md"])
  <> Some (File (sync_text "slidev" "slidev" "" "2026-01-02")).
Proof.
  cbv zeta. split; [reflexivity|]. split; [by vm_compute|].
  apply (bool_decide_eq_false_1 _). by vm_compute.
Qed.

(** Checkouts of two sources beside the vendor: vue is up to date, nuxt
    has no upstream, and slidev is three commits behind. *)
Definition checked_fs : FS :=
  tree (slidev_checkout ++
        [(["sources"], Dir); (["sources"; "vue"], Dir); (["sources"; "nuxt"], Dir)]).

Definition checked : State Git := {| st_fs := checked_fs; st_env := demo_git |}.

Example checked_lines :
  lines (trace (checkUpdates Git git meta_submodules meta_vendors checked))
  = ["  slidev (slidev) (vendor): 3 commits behind"].
Proof. by vm_compute. Qed.

Example checked_due_lines :
  due_lines meta_submodules meta_vendors checked_fs (g_behind demo_git)
  = ["  slidev (slidev) (vendor): 3 commits behind"].
Proof. by vm_compute. Qed.




(** The operator at the prompt: everything, or a cancellation. *)
Definition select_all (options : list Project) : option (list Project) := Some options.
Definition select_cancel (options : list Project) : option (list Project) := None.

Definition quote : string := String (ascii_of_nat 34) EmptyString.

Definition manifest_entry (p : string) : string :=
  "[submodule " +:+ quote +:+ p +:+ quote +:+ "]" +:+ newline +:+
  "	path = " +:+ p +:+ newline +:+
  "	url = https://example.org/" +:+ p +:+ newline.

(** A manifest that registers every configured project but unocss. *)
Definition partial_manifest : string :=
  manifest_entry "sources/vue" +:+ manifest_entry "sources/nuxt" +:+
  manifest_entry "sources/vite" +:+ manifest_entry "vendor/slidev" +:+
  manifest_entry "vendor/vueuse" +:+ manifest_entry "vendor/vue-best-practices".

Definition partial_fs : FS := <[ [".gitmodules"] := File partial_manifest ]> demo_fs.
Definition partial : State Git := {| st_fs := partial_fs; st_env := demo_git |}.

Example partial_init_execs :
  execs (trace (initSubmodules Git git select_all no_fault meta_submodules meta_vendors partial))
  = [("git submodule add https://github.com/unocss/unocss sources/unocss", root)].
Proof. by vm_compute. Qed.

Lemma init_never_readds_witness :
  (forall cmd cwd,
      EExec cmd cwd
      ∈ trace (initSubmodules Git git select_all no_fault meta_submodules meta_vendors partial) ->
      exists q, q ∈ allProjects meta_submodules meta_vendors /\
                registered partial_fs (path q) = false /\
                cmd = add_command q /\ cwd = root) /\
  ((forall q, q ∈ allProjects meta_submodules meta_vendors ->
              registered partial_fs (path q) = true) ->
   initSubmodules Git git select_all no_fault meta_submodules meta_vendors partial
   = (Ret tt, partial, [ELogInfo "All submodules already initialized"])).
Proof.
  apply (init_never_readds Git git select_all no_fault meta_submodules meta_vendors partial).
  intros options selected [= <-]. done.
Defined.

Lemma init_cancel_no_side_effects_witness :
  let run := initSubmodules Git git select_cancel no_fault meta_submodules meta_vendors partial in
  result run = Ret tt /\ final run = partial /\
  trace run
  = [EMultiselect [{| name := "unocss"; url := "https://github.com/unocss/unocss";
                      type := Source; path := ["sources"; "unocss"] |}];
     ECancel "Cancelled"] /\
  Forall (fun ev => is_effect ev = false) (trace run).
Proof.
  apply (init_cancel_no_side_effects Git git select_cancel no_fault
           meta_submodules meta_vendors partial).
  - vm_compute. by left.
  - reflexivity.
Defined.

(** A manifest whose only entry is [sources/vue-router], and none at all. *)
Definition router_fs : FS := <[ [".gitmodules"] := File (manifest_entry "sources/vue-router") ]> demo_fs.
Definition router : State Git := {| st_fs := router_fs; st_env := demo_git |}.

Definition vue_project : Project :=
  {| name := "vue"; url := "https://github.com/vuejs/docs"; type := Source;
     path := ["sources"; "vue"] |}.

Example router_hides_vue :
  registered router_fs (path vue_project) = true /\
  Js.includes (manifest_entry "sources/vue-router") "path = sources/vue
" = false.
Proof. by vm_compute. Qed.

Lemma init_substring_test_witness :
  (vue_project ∈ existing_in meta_submodules meta_vendors router_fs /\
   forall options,
     EMultiselect options
     ∈ trace (initSubmodules Git git select_all no_fault meta_submodules meta_vendors router) ->
     vue_project ∉ options) /\
  (submoduleExists Git (path vue_project) demo = (Ret false, demo, []) /\
   new_in meta_submodules meta_vendors demo_fs = allProjects meta_submodules meta_vendors /\
   EMultiselect (allProjects meta_submodules meta_vendors)
   ∈ trace (initSubmodules Git git select_all no_fault meta_submodules meta_vendors demo)).
Proof.
  split.
  - apply (init_substring_test Git git select_all no_fault meta_submodules meta_vendors
             router vue_project ltac:(by left))
      with (content := manifest_entry "sources/vue-router")
           (before := "[submodule " +:+ quote +:+ "sources/vue-router" +:+ quote +:+ "]"
                      +:+ newline +:+ "	")
           (more := "-router")
           (rest := newline +:+ "	url = https://example.org/sources/vue-router" +:+ newline);
      by vm_compute.
  - apply (init_substring_test Git git select_all no_fault meta_submodules meta_vendors
             demo vue_project ltac:(by left)).
    by vm_compute.
Defined.

(** Offline every add fails, and every selected project is tried all the
    same. *)
Example offline_init_trace :
  trace (for_of Git [vue_project] (addSubmodule Git git no_fault) offline)
  = [ESpinnerStart "Adding submodule: vue"; EMkdir ["sources"];
     EExec "git submodule add https://github.com/vuejs/docs sources/vue" root;
     ESpinnerStop "Failed to add vue: Error: Command failed"].
Proof. by vm_compute. Qed.

Lemma init_add_failure_continues_witness :
  let run := initSubmodules Git git select_all no_fault meta_submodules meta_vendors offline in
  result run = Ret tt /\
  execs (trace run) = map add_exec (allProjects meta_submodules meta_vendors) /\
  (forall project st',
      project ∈ allProjects meta_submodules meta_vendors ->
      exists fs0 r fs1 env1 before,
        git (add_command project) root fs0 (st_env st') = (r, fs1, env1) /\
        addSubmodule Git git no_fault project st'
        = (Ret tt, {| st_fs := fs1; st_env := env1 |},
           before ++ [EExec (add_command project) root;
                      ESpinnerStop (stop_message project r)])).
Proof.
  apply (init_add_failure_continues Git git select_all no_fault meta_submodules meta_vendors
           offline (allProjects meta_submodules meta_vendors)).
  - by vm_compute.
  - by vm_compute.
  - intros q Hq. apply list_elem_of_In. apply list_elem_of_In in Hq. exact Hq.
  - reflexivity.
  - reflexivity.
Defined.

(** A root directory in which [sources] cannot be created. *)
Definition sources_fault (p : fpath) : bool := bool_decide (p = ["sources"]).

(** The claim C8 has a failure to prepare the parent directory reported
    and the loop going on: the exception of [mkdirSync] leaves [init] at the
    first project, before any command is run, and no other selected project
    is reached. *)
Lemma init_add_failure_continues_counterexample :
  let run := initSubmodules Git git select_all sources_fault meta_submodules meta_vendors demo in
  result run = Throw "Error: mkdirSync" /\
  execs (trace run) = [] /\
  (ESpinnerStart "Adding submodule: nuxt" ∉ trace run) /\
  trace run
  = [EMultiselect (allProjects meta_submodules meta_vendors);
     ESpinnerStart "Adding submodule: vue"; EMkdir ["sources"]].
Proof.
  cbv zeta. split; [by vm_compute|]. split; [by vm_compute|]. split; [|by vm_compute].
  intros Hin. vm_compute in Hin.
  repeat (apply elem_of_cons in Hin as [Hin|Hin]; [discriminate Hin|]).
  by apply elem_of_nil in Hin.
Qed.

(** The vendor vueuse is checked out but has no [vueuse-functions] skill,
    and an older sync left [skills/vueuse]. *)
Definition vueuse_meta : VendorSkillMeta :=
  {| official := Some true; source := "https://github.com/vueuse/skills";
     skills := [("vueuse-functions", "vueuse")] |}.

Definition missing_fs : FS :=
  tree (slidev_checkout ++ old_output ++
        [(["vendor"; "vueuse"], Dir); (["vendor"; "vueuse"; "skills"], Dir);
         (["skills"; "vueuse"], Dir); (["skills"; "vueuse"; "SKILL.md"], File "older")]).

Definition missing : State Git := {| st_fs := missing_fs; st_env := demo_git |}.

Lemma missing_fs_well_formed : well_formed missing_fs.
Proof. apply well_formed_check. by vm_compute. Qed.

Lemma sync_skips_missing_skill_witness :
  let run := syncSubmodules Git git g_clock no_fault meta_vendors missing in
  (forall st',
      Fs.exists_ (st_fs st') (source_path "vueuse" "vueuse-functions") = false ->
      syncSkill Git git g_clock no_fault "vueuse" (vendor_path "vueuse")
        (vendor_path "vueuse" ++ ["skills"]) ("vueuse-functions", "vueuse") st'
      = (Ret tt, st',
         [ELogWarn ("Skill not found: vendor/" +:+ "vueuse" +:+ "/skills/" +:+
                    "vueuse-functions")])) /\
  (forall k, output_path "vueuse" `prefix_of` k -> st_fs (final run) !! k = missing_fs !! k) /\
  (forall vendorName' config' s' o' r c,
      (vendorName', config') ∈ meta_vendors -> (s', o') ∈ skills config' ->
      missing_fs !! source_path vendorName' s' = Some Dir ->
      r <> ["LICENSE.md"] -> r <> ["SYNC.md"] ->
      st_fs (final run) !! (output_path o' ++ r) = Some (File c)
      <-> missing_fs !! (source_path vendorName' s' ++ r) = Some (File c)).
Proof.
  apply (sync_skips_missing_skill Git git g_clock no_fault meta_vendors git_head missing
           "" missing_fs demo_git "vueuse" vueuse_meta "vueuse-functions" "vueuse").
  - reflexivity.
  - exact git_reads_head.
  - exact missing_fs_well_formed.
  - exact meta_outputs_distinct.
  - right. by left.
  - by left.
  - by vm_compute.
  - by vm_compute.
Defined.

(** A second run on the next day. *)
Definition next_day_git : Git :=
  {| g_clock := "2026-01-03T10:00:00.000Z"; g_online := true;
     g_head := g_head demo_git; g_behind := g_behind demo_git |}.

Definition demo_again : outcome unit * State Git * list event :=
  syncSubmodules Git git g_clock no_fault meta_vendors
    {| st_fs := st_fs (final demo_sync); st_env := next_day_git |}.

Example demo_again_record :
  st_fs (final demo_again) !! ["skills"; "slidev"; "SYNC.md"]
  = Some (File (sync_text "slidev" "slidev" "0123abc" "2026-01-03")).
Proof. by vm_compute. Qed.

Lemma sync_twice_witness :
  (forall k, (forall o, k <> output_path o ++ ["SYNC.md"]) ->
             st_fs (final demo_again) !! k = st_fs (final demo_sync) !! k) /\
  (forall vendorName config s o,
      (vendorName, config) ∈ meta_vendors -> (s, o) ∈ skills config ->
      demo_fs !! source_path vendorName s = Some Dir ->
      st_fs (final demo_sync) !! (output_path o ++ ["SYNC.md"])
      = Some (File (syncContent vendorName s (sha_of git_head demo_git (vendor_path vendorName))
                      (Js.split_head "T" (g_clock demo_git)))) /\
      st_fs (final demo_again) !! (output_path o ++ ["SYNC.md"])
      = Some (File (syncContent vendorName s (sha_of git_head demo_git (vendor_path vendorName))
                      (Js.split_head "T" (g_clock next_day_git))))) /\
  (Js.split_head "T" (g_clock next_day_git) = Js.split_head "T" (g_clock demo_git) ->
   st_fs (final demo_again) = st_fs (final demo_sync)).
Proof.
  apply (sync_twice Git git g_clock no_fault meta_vendors git_head demo
           "" demo_fs demo_git next_day_git "" next_day_git).
  - reflexivity.
  - exact git_reads_head.
  - exact demo_fs_well_formed.
  - exact meta_outputs_distinct.
  - by vm_compute.
  - reflexivity.
  - reflexivity.
  - by vm_compute.
Defined.

(** ** More runs on the machine *)

Arguments Returns {A} a.
Arguments Throws {A} e.
Arguments Exits {A} code.
Arguments ended {Env A} run.
Arguments state_after {Env A} run.
Arguments shown {Env A} run.

(** Offline the fetch fails, and [check] stops there. *)
Lemma check_fetch_failure_witness :
  checkUpdates Git git meta_submodules meta_vendors offline
  = (Ret tt, offline,
     [ESpinnerStart "Fetching remote changes..."; EExec fetch_command root;
      ESpinnerStop ("Failed to fetch: " +:+ "Error: Command failed")]).
Proof.
  apply (check_fetch_failure Git git meta_submodules meta_vendors offline
           "Error: Command failed" demo_fs offline_git).
  reflexivity.
Defined.

Example checked_probes :
  List.filter (Fs.exists_ checked_fs) (checkouts meta_submodules meta_vendors)
  = [["sources"; "vue"]; ["sources"; "nuxt"]; ["vendor"; "slidev"]].
Proof. by vm_compute. Qed.

Lemma check_probes_checkouts_witness :
  execs (trace (checkUpdates Git git meta_submodules meta_vendors checked))
  = (fetch_command, root)
    :: map (fun cwd => (behind_command, cwd))
         (List.filter (Fs.exists_ checked_fs) (checkouts meta_submodules meta_vendors)) /\
  final (checkUpdates Git git meta_submodules meta_vendors checked) = checked.
Proof.
  apply (check_probes_checkouts Git git meta_submodules meta_vendors g_behind checked
           "" checked_fs demo_git).
  - reflexivity.
  - exact git_counts_behind.
Defined.

(** A git for which no checkout is behind. *)
Definition settled_git : Git :=
  {| g_clock := g_clock demo_git; g_online := true;
     g_head := g_head demo_git; g_behind := fun _ => Some 0 |}.

Definition settled : State Git := {| st_fs := checked_fs; st_env := settled_git |}.

Example settled_says :
  List.filter (fun ev => negb (is_effect ev))
    (trace (checkUpdates Git git meta_submodules meta_vendors settled))
  = [ESpinnerStart "Fetching remote changes..."; ESpinnerStop "Fetched remote changes";
     ELogSuccess "All submodules are up to date"].
Proof. by vm_compute. Qed.

Lemma check_summary_witness :
  List.filter (fun ev => negb (is_effect ev))
    (trace (checkUpdates Git git meta_submodules meta_vendors checked))
  = [ESpinnerStart "Fetching remote changes..."; ESpinnerStop "Fetched remote changes"]
    ++ match reports meta_submodules meta_vendors checked_fs (g_behind demo_git) with
       | [] => [ELogSuccess "All submodules are up to date"]
       | updates =>
           ELogInfo "Updates available:"
           :: map (fun update => ELogMessage (report_line update)) updates
       end.
Proof.
  apply (check_summary Git git meta_submodules meta_vendors g_behind checked
           "" checked_fs demo_git).
  - reflexivity.
  - exact git_counts_behind.
Defined.

Lemma report_line_count_witness :
  report_line (source_update "slidev" (Some (decimal 3)))
  = "  slidev (source): 3 commits behind" /\
  report_line (vendor_update "slidev" slidev_meta (Some (decimal 3)))
  = "  slidev (slidev) (vendor): 3 commits behind".
Proof. apply (report_line_count "slidev" slidev_meta 3). by vm_compute. Defined.

(** A count beyond the safe integers shows as the double it is read as:
    rounded to the next double, and with an exponent from [1e21] on. *)
Example report_line_rounded :
  report_line (source_update "vue" (Some "9007199254740993"))
  = "  vue (source): 9007199254740992 commits behind" /\
  report_line (source_update "vue" (Some "1000000000000000000000"))
  = "  vue (source): 1e+21 commits behind".
Proof. split; by vm_compute. Qed.

(** A generated skill beside the outputs of the vendors, and a run of
    [sync] in which the directory of the license cannot be written. *)
Definition generated_fs : FS :=
  tree (slidev_checkout ++ old_output ++
        [(["skills"; "vue"], Dir); (["skills"; "vue"; "SKILL.md"], File "generated")]).

Definition generated : State Git := {| st_fs := generated_fs; st_env := demo_git |}.

Definition license_fault (p : fpath) : bool :=
  bool_decide (p = ["skills"; "slidev"; "LICENSE.md"]).

Example generated_sync_fails :
  result (syncSubmodules Git git g_clock license_fault meta_vendors generated)
  = Throw "Error: cpSync".
Proof. by vm_compute. Qed.

Lemma sync_confined_witness :
  let run := syncSubmodules Git git g_clock license_fault meta_vendors generated in
  st_env (final run) = demo_git /\
  (forall k, out_of_reach meta_vendors k -> st_fs (final run) !! k = generated_fs !! k) /\
  (forall e, generated_fs !! ["skills"] = Some e -> st_fs (final run) !! ["skills"] = Some e).
Proof.
  apply (sync_confined Git git g_clock license_fault meta_vendors git_head generated
           (Ret "") generated_fs demo_git).
  - exact git_reads_head.
  - reflexivity.
Defined.

Example generated_skill_out_of_reach :
  out_of_reach meta_vendors ["skills"; "vue"; "SKILL.md"].
Proof.
  split; [done|]. intros o Ho [rest Hrest].
  injection Hrest as <- _. vm_compute in Ho.
  repeat (apply elem_of_cons in Ho as [Ho|Ho]; [discriminate Ho|]).
  by apply elem_of_nil in Ho.
Qed.

Lemma sync_license_witness :
  exists c,
    demo_fs !! (vendor_path "slidev" ++ ["LICENSE"]) = Some (File c) /\
    st_fs (final demo_sync) !! (output_path "slidev" ++ ["LICENSE.md"]) = Some (File c).
Proof.
  refine (proj1 (sync_license Git git g_clock no_fault meta_vendors git_head demo
                   "" demo_fs demo_git "slidev" slidev_meta "slidev" "slidev"
                   _ _ _ _ _ _ _ _)
            [] "LICENSE" ["LICENSE.md"; "LICENSE.txt"; "license"; "license.md"; "license.txt"]
            _ _ _);
    first [ reflexivity
          | exact git_reads_head
          | exact demo_fs_well_formed
          | exact meta_outputs_distinct
          | by left
          | by vm_compute
          | by intros m Hm; apply elem_of_nil in Hm ].
Defined.

(** A source skill with a directory that holds no file. *)
Definition hollow_fs : FS :=
  tree (slidev_checkout ++ [(["vendor"; "slidev"; "skills"; "slidev"; "assets"], Dir)]).

Definition hollow : State Git := {| st_fs := hollow_fs; st_env := demo_git |}.

Lemma hollow_fs_well_formed : well_formed hollow_fs.
Proof. apply well_formed_check. by vm_compute. Qed.

Example hollow_output :
  let run := syncSubmodules Git git g_clock no_fault meta_vendors hollow in
  hollow_fs !! (source_path "slidev" "slidev" ++ ["assets"]) = Some Dir /\
  st_fs (final run) !! (output_path "slidev" ++ ["assets"]) = None /\
  st_fs (final run) !! (output_path "slidev" ++ ["references"]) = Some Dir.
Proof. by vm_compute. Qed.

Lemma sync_directories_witness :
  let run := syncSubmodules Git git g_clock no_fault meta_vendors hollow in
  st_fs (final run) !! output_path "slidev" = Some Dir /\
  (forall r,
      r <> [] -> r <> ["LICENSE.md"] -> r <> ["SYNC.md"] ->
      st_fs (final run) !! (output_path "slidev" ++ r) = Some Dir
      <-> exists r' c,
            r `prefix_of` r' /\ r <> r' /\
            hollow_fs !! (source_path "slidev" "slidev" ++ r') = Some (File c)) /\
  (forall r,
      r <> [] -> r <> ["LICENSE.md"] -> r <> ["SYNC.md"] ->
      (forall r' c, r `prefix_of` r' ->
                    hollow_fs !! (source_path "slidev" "slidev" ++ r') <> Some (File c)) ->
      st_fs (final run) !! (output_path "slidev" ++ r) = None).
Proof.
  apply (sync_directories Git git g_clock no_fault meta_vendors git_head hollow
           "" hollow_fs demo_git "slidev" slidev_meta "slidev" "slidev");
    first [ reflexivity
          | exact git_reads_head
          | exact hollow_fs_well_formed
          | exact meta_outputs_distinct
          | by left
          | by vm_compute ].
Defined.

(** In [demo_fs] the vendor vueuse has no checkout; in [missing_fs] it has
    one, with an empty [skills] directory. *)
Lemma sync_missing_vendor_witness :
  (Fs.exists_ demo_fs (vendor_path "vueuse") = false ->
   missing_vendor "vueuse" ∈ trace demo_sync /\
   forall cmd, EExec cmd (vendor_path "vueuse") ∉ trace demo_sync) /\
  (Fs.exists_ demo_fs (vendor_path "vueuse") = true ->
   Fs.exists_ demo_fs (vendor_path "vueuse" ++ ["skills"]) = false ->
   missing_skills "vueuse" ∈ trace demo_sync /\
   forall cmd, EExec cmd (vendor_path "vueuse") ∉ trace demo_sync).
Proof.
  apply (sync_missing_vendor Git git g_clock no_fault meta_vendors git_head demo
           "" demo_fs demo_git "vueuse" vueuse_meta).
  - reflexivity.
  - exact git_reads_head.
  - exact demo_fs_well_formed.
  - right. by left.
  - by vm_compute.
Defined.

Example demo_sync_warns :
  Fs.exists_ demo_fs (vendor_path "vueuse") = false /\
  List.filter (fun ev => match ev with ELogWarn _ => true | _ => false end) (trace demo_sync)
  = [missing_vendor "vueuse"; missing_vendor "vue-best-practices"].
Proof. by vm_compute. Qed.

(** Two vendors whose skills go to one output directory. *)
Definition talks_meta : VendorSkillMeta :=
  {| official := None; source := "https://example.org/talks"; skills := [("intro", "deck")] |}.

Definition twin_vendors : list (string * VendorSkillMeta) :=
  [ ("slidev",
     {| official := Some true; source := "https://github.com/slidevjs/slidev";
        skills := [("slidev", "deck")] |});
    ("talks", talks_meta) ].

Definition twin_fs : FS :=
  tree (slidev_checkout ++
        [(["vendor"; "talks"], Dir); (["vendor"; "talks"; "skills"], Dir);
         (["vendor"; "talks"; "skills"; "intro"], Dir);
         (["vendor"; "talks"; "skills"; "intro"; "SKILL.md"], File "intro")]).

Definition twin : State Git := {| st_fs := twin_fs; st_env := demo_git |}.

Lemma twin_fs_well_formed : well_formed twin_fs.
Proof. apply well_formed_check. by vm_compute. Qed.

Example twin_deck :
  let run := syncSubmodules Git git g_clock no_fault twin_vendors twin in
  st_fs (final run) !! ["skills"; "deck"; "SKILL.md"] = Some (File "intro") /\
  st_fs (final run) !! ["skills"; "deck"; "references"; "core.md"] = None.
Proof. by vm_compute. Qed.

(** The file of the last pair is in the output, the file of the first
    one is not. *)
Lemma sync_last_pair_wins_witness :
  let run := syncSubmodules Git git g_clock no_fault twin_vendors twin in
  (st_fs (final run) !! (output_path "deck" ++ ["SKILL.md"]) = Some (File "intro")
   <-> twin_fs !! (source_path "talks" "intro" ++ ["SKILL.md"]) = Some (File "intro")) /\
  (st_fs (final run) !! (output_path "deck" ++ ["references"; "core.md"]) = Some (File "core")
   <-> twin_fs !! (source_path "talks" "intro" ++ ["references"; "core.md"])
       = Some (File "core")).
Proof.
  split;
    apply (sync_last_pair_wins Git git g_clock no_fault twin_vendors git_head twin
             "" twin_fs demo_git
             [("slidev",
               {| official := Some true; source := "https://github.com/slidevjs/slidev";
                  skills := [("slidev", "deck")] |})]
             "talks" talks_meta [] [] "intro" "deck" []);
    first [ reflexivity
          | exact git_reads_head
          | exact twin_fs_well_formed
          | by vm_compute
          | by intros; apply not_elem_of_nil
          | by intros ? ? ? Hin; apply elem_of_nil in Hin
          | discriminate ].
Defined.

Lemma init_only_adds_witness :
  Forall (init_event meta_submodules meta_vendors)
    (trace (initSubmodules Git git select_all no_fault meta_submodules meta_vendors demo)).
Proof.
  apply (init_only_adds Git git select_all no_fault meta_submodules meta_vendors demo).
  intros options selected [= <-]. done.
Defined.

(** A directory in the place of the manifest. *)
Definition unreadable_fs : FS := <[ [".gitmodules"] := Dir ]> demo_fs.
Definition unreadable : State Git := {| st_fs := unreadable_fs; st_env := demo_git |}.

Lemma init_manifest_directory_witness :
  (forall p, exists e, submoduleExists Git p unreadable = (Throw e, unreadable, [])) /\
  exists e,
    initSubmodules Git git select_all no_fault meta_submodules meta_vendors unreadable
    = (Throw e, unreadable, []).
Proof.
  apply (init_manifest_directory Git git select_all no_fault meta_submodules meta_vendors
           unreadable).
  - by vm_compute.
  - discriminate.
Defined.

(** A git that keeps the manifest: the submodule-add of a configured
    project appends the entry of the project to [.gitmodules]. *)
Definition manifest_of (fs : FS) : string :=
  match fs !! [".gitmodules"] with
  | Some (File content) => content
  | _ => ""
  end.

Definition git_adding (cmd : string) (cwd : fpath) (fs : FS) (env : Git) :
    outcome string * FS * Git :=
  match List.find (fun project => String.eqb cmd (add_command project))
                  (allProjects meta_submodules meta_vendors) with
  | Some project =>
      (Ret "",
       <[ [".gitmodules"] := File (manifest_of fs +:+ manifest_entry (show_path (path project))) ]> fs,
       env)
  | None => git cmd cwd fs env
  end.

Lemma includes_app_l (a b needle : string) :
  Js.includes a needle = true -> Js.includes (a +:+ b) needle = true.
Proof.
  intros (before & rest & ->)%includes_split.
  rewrite !append_assoc. apply includes_append.
Qed.

Lemma includes_app_r (a b needle : string) :
  Js.includes b needle = true -> Js.includes (a +:+ b) needle = true.
Proof.
  intros (before & rest & ->)%includes_split.
  rewrite <- append_assoc. apply includes_append.
Qed.

Lemma git_adding_registers : adds_register Git git_adding meta_submodules meta_vendors.
Proof.
  intros project fs env r fs' env' Hin Hrun.
  assert (List.find (fun q => String.eqb (add_command project) (add_command q))
            (allProjects meta_submodules meta_vendors) = Some project /\
          Js.includes (manifest_entry (show_path (path project)))
            ("path = " +:+ show_path (path project)) = true) as [Hfind Hentry].
  { repeat (apply elem_of_cons in Hin as [->|Hin]; [by vm_compute|]).
    by apply elem_of_nil in Hin. }
  unfold git_adding in Hrun. rewrite Hfind in Hrun. injection Hrun as <- <- <-.
  unfold registered. rewrite lookup_insert_eq. split.
  - intros p Hp. unfold manifest_of.
    destruct (fs !! [".gitmodules"]) as [[content|]|]; [|done..].
    by apply includes_app_l.
  - intros out _. by apply includes_app_r.
Qed.

Definition demo_init : outcome unit * State Git * list event :=
  initSubmodules Git git_adding select_all no_fault meta_submodules meta_vendors demo.

Example demo_init_again :
  trace (initSubmodules Git git_adding select_all no_fault meta_submodules meta_vendors
           (final demo_init))
  = [ELogInfo "All submodules already initialized"].
Proof. by vm_compute. Qed.

Lemma init_registers_witness :
  (forall p, registered demo_fs p = true -> registered (st_fs (final demo_init)) p = true) /\
  (forall project,
      project ∈ allProjects meta_submodules meta_vendors ->
      registered (st_fs (final demo_init)) (path project) = true \/
      exists e, add_failed project e ∈ trace demo_init) /\
  (allProjects meta_submodules meta_vendors = new_in meta_submodules meta_vendors demo_fs ->
   (forall project e, add_failed project e ∉ trace demo_init) ->
   initSubmodules Git git_adding select_all no_fault meta_submodules meta_vendors
     (final demo_init)
   = (Ret tt, final demo_init, [ELogInfo "All submodules already initialized"])).
Proof.
  apply (init_registers Git git_adding select_all no_fault meta_submodules meta_vendors
           demo (allProjects meta_submodules meta_vendors)).
  - exact git_adding_registers.
  - by vm_compute.
  - by vm_compute.
  - intros q Hq. apply list_elem_of_In. apply list_elem_of_In in Hq. exact Hq.
  - by vm_compute.
Defined.

(** The operator at the menu. *)
Definition choose (action : string) (options : list MenuOption) : option string := Some action.
Definition choose_nothing (options : list MenuOption) : option string := None.

Definition cli (select : list MenuOption -> option string) (argv : list string)
    (st : State Git) : ending unit * State Git * list ui :=
  program Git git g_clock select_all no_fault meta_submodules meta_vendors select argv st.

Example cli_check :
  shown (cli choose_nothing ["check"] checked)
  = [UIntro "Skills Manager - Check";
     UScript (ESpinnerStart "Fetching remote changes...");
     UScript (EExec fetch_command root);
     UScript (ESpinnerStop "Fetched remote changes");
     UScript (EExec behind_command ["sources"; "vue"]);
     UScript (EExec behind_command ["sources"; "nuxt"]);
     UScript (EExec behind_command ["vendor"; "slidev"]);
     UScript (ELogInfo "Updates available:");
     UScript (ELogMessage "  slidev (slidev) (vendor): 3 commits behind");
     UOutro "Done"].
Proof. by vm_compute. Qed.

Lemma main_unknown_command_witness :
  main Git git g_clock select_all no_fault meta_submodules meta_vendors (choose "check")
    ["update"] checked
  = main Git git g_clock select_all no_fault meta_submodules meta_vendors (choose "check")
      [] checked.
Proof.
  apply (main_unknown_command Git git g_clock select_all no_fault meta_submodules meta_vendors
           (choose "check") ["update"] checked); discriminate.
Defined.

Lemma main_cancel_witness :
  cli choose_nothing [] demo
  = (Exits 0, demo, [UIntro "Skills Manager"; USelect menu; UScript (ECancel "Cancelled")]).
Proof.
  apply (main_cancel Git git g_clock select_all no_fault meta_submodules meta_vendors
           choose_nothing [] demo); first [discriminate | reflexivity].
Defined.

Lemma main_menu_choice_witness :
  exists title events,
    shown (main Git git g_clock select_all no_fault meta_submodules meta_vendors
             (choose "check") ["check"] checked)
    = UIntro title :: events /\
    shown (main Git git g_clock select_all no_fault meta_submodules meta_vendors
             (choose "check") [] checked)
    = UIntro "Skills Manager" :: USelect menu :: events /\
    ended (main Git git g_clock select_all no_fault meta_submodules meta_vendors
             (choose "check") [] checked)
    = ended (main Git git g_clock select_all no_fault meta_submodules meta_vendors
               (choose "check") ["check"] checked) /\
    state_after (main Git git g_clock select_all no_fault meta_submodules meta_vendors
                   (choose "check") [] checked)
    = state_after (main Git git g_clock select_all no_fault meta_submodules meta_vendors
                     (choose "check") ["check"] checked).
Proof.
  apply (main_menu_choice Git git g_clock select_all no_fault meta_submodules meta_vendors
           (choose "check") "check" checked).
  - right. right. by left.
  - reflexivity.
Defined.

(** An exception of [init] reaches [console.error], and no [Done]. *)
Example cli_init_fault :
  let run := program Git git g_clock select_all sources_fault meta_submodules meta_vendors
               choose_nothing ["init"] demo in
  ended run = Returns tt /\
  shown run
  = [UIntro "Skills Manager - Init";
     UScript (EMultiselect (allProjects meta_submodules meta_vendors));
     UScript (ESpinnerStart "Adding submodule: vue");
     UScript (EMkdir ["sources"]);
     UConsoleError "Error: mkdirSync"].
Proof. by vm_compute. Qed.

Lemma program_done_after_failed_update_witness :
  cli choose_nothing ["sync"] offline
  = (Returns tt, offline,
     [UIntro "Skills Manager - Sync";
      UScript (ESpinnerStart "Updating submodules...");
      UScript (EExec update_command root);
      UScript (ESpinnerStop ("Failed to update submodules: " +:+ "Error: Command failed"));
      UOutro "Done"]).
Proof.
  apply (program_done_after_failed_update Git git g_clock select_all no_fault
           meta_submodules meta_vendors choose_nothing [] offline
           "Error: Command failed" demo_fs offline_git).
  reflexivity.
Defined.
